(** * pycroscopy: BE relaxation fitting ([pycroscopy/analysis/be_relax_fit.py])

    A shallow embedding of the [BERelaxFit] process: the read/write step
    partition built by the constructor, the per-chunk signal reconstruction,
    the dispatch to the fit routines, and the chunk-wise write-back of the
    fitted parameters.

    Conventions.
    - A Python exception is [Raise cls], [cls] being the name of its class.
    - NumPy index arrays are [list nat]; a list of arrays is a [list (list nat)].
    - Floating-point samples are kept abstract (a type [T] with the
      operations the code applies to them); no rounding is modelled. *)

From Stdlib Require Import List Arith ZArith Lia Bool Permutation Sorted.
From Stdlib Require Import Reals.
From Stdlib Require Strings.String.
Import ListNotations.
Import String.StringSyntax.

Abbreviation string := String.string.

Open Scope string_scope.
Open Scope list_scope.

Set Implicit Arguments.

(* ================================================================== *)
(** * Part I. Definitions                                              *)
(* ================================================================== *)

(** ** Exceptions *)

Inductive result (A : Type) : Type :=
| Ok (a : A)
| Raise (cls : string).

Arguments Ok {A} a.
Arguments Raise {A} cls.

Definition bind {A B : Type} (m : result A) (k : A -> result B) : result B :=
  match m with
  | Ok a => k a
  | Raise cls => Raise cls
  end.

Notation "x <- m ;; k" := (bind m (fun x => k))
  (at level 61, m at next level, right associativity).

Definition ValueError : string := "ValueError".
Definition IndexError : string := "IndexError".
Definition TypeError : string := "TypeError".
Definition ZeroDivisionError : string := "ZeroDivisionError".
Definition UnboundLocalError : string := "UnboundLocalError".

(** The error classes of the specification's taxonomy.  No code path of the
    repository raises them; they are here so that statements can name them. *)
Definition ConfigurationError : string := "ConfigurationError".
Definition UnsupportedModelError : string := "UnsupportedModelError".

(** [for x in xs: body], threading the loop-carried state and stopping at
    the first exception. *)
Fixpoint for_each {S I : Type} (xs : list I) (body : I -> S -> result S) (s : S)
  : result S :=
  match xs with
  | [] => Ok s
  | x :: rest => s' <- body x s ;; for_each rest body s'
  end.

(** [[f(x) for x in xs]] where [f] may raise. *)
Fixpoint map_result {A B : Type} (f : A -> result B) (xs : list A)
  : result (list B) :=
  match xs with
  | [] => Ok []
  | x :: rest => y <- f x ;; ys <- map_result f rest ;; Ok (y :: ys)
  end.

(** ** Python values that [starts_with] may hold

    The constructor's default is the string ['write']; its docstring asks
    for [1] or [0].  Python's [==] between a [str] and an [int] is [False]. *)

Inductive pyval : Type :=
| PyStr (s : string)
| PyInt (z : Z).

Definition py_eq (a b : pyval) : bool :=
  match a, b with
  | PyStr s, PyStr t => String.eqb s t
  | PyInt x, PyInt y => Z.eqb x y
  | _, _ => false
  end.

(** ** Python slicing and indexing *)

(** A slice bound is normalised against the length: a negative bound counts
    from the end, and the result is clamped to [0, len]. *)
Definition norm_bound (i : Z) (len : nat) : nat :=
  if (i <? 0)%Z then Z.to_nat (Z.max 0 (i + Z.of_nat len))
  else Nat.min (Z.to_nat i) len.

(** [l[start:]] *)
Definition slice_from {A : Type} (start : Z) (l : list A) : list A :=
  skipn (norm_bound start (length l)) l.

(** [l[:stop]] *)
Definition slice_to {A : Type} (stop : Z) (l : list A) : list A :=
  firstn (norm_bound stop (length l)) l.

(** [l[lo:hi]] for two non-negative bounds. *)
Definition slice {A : Type} (lo hi : nat) (l : list A) : list A :=
  firstn (hi - lo) (skipn lo l).

(** [l[i]] on a Python list or along the first axis of an array. *)
Definition getitem {A : Type} (l : list A) (i : nat) : result A :=
  match nth_error l i with
  | Some x => Ok x
  | None => Raise IndexError
  end.

(** [row[idx]] with an integer index array [idx] (fancy indexing). *)
Definition take_inds {A : Type} (row : list A) (idx : list nat) : result (list A) :=
  map_result (getitem row) idx.

(** ** The NumPy routines the constructor calls *)

Module np.

(** [np.arange(0, n, step=1)] *)
Definition arange (n : nat) : list nat := seq 0 n.

Fixpoint cumsum_from (acc : nat) (l : list nat) : list nat :=
  match l with
  | [] => []
  | x :: rest => (acc + x) :: cumsum_from (acc + x) rest
  end.

Definition cumsum (l : list nat) : list nat := cumsum_from 0 l.

(** [np.array_split(ary, sections)]: [len % sections] leading sub-arrays of
    size [len // sections + 1], the others of size [len // sections]. *)
Definition array_split {A : Type} (ary : list A) (sections : nat)
  : result (list (list A)) :=
  if sections =? 0 then Raise ValueError
  else
    let Ntotal := length ary in
    let Neach_section := Ntotal / sections in
    let extras := Ntotal mod sections in
    let section_sizes :=
      0 :: repeat (Neach_section + 1) extras
        ++ repeat Neach_section (sections - extras) in
    let div_points := cumsum section_sizes in
    Ok (map (fun i => slice (nth i div_points 0) (nth (i + 1) div_points 0) ary)
            (seq 0 sections)).

(** [np.split(ary, sections)]: as [array_split], but the division must be
    exact. *)
Definition split {A : Type} (ary : list A) (sections : nat)
  : result (list (list A)) :=
  if sections =? 0 then Raise ZeroDivisionError
  else if negb (length ary mod sections =? 0) then Raise ValueError
  else array_split ary sections.

(** A list of arrays handed to a routine that expects one array is first
    made a 2-D array and then flattened.  Sub-arrays of different lengths do
    not form an array: NumPy (1.24 and later) raises [ValueError]
    ("inhomogeneous shape"); earlier versions build an array of objects,
    which the sort of [unique] then fails to order. *)
Definition same_length {A : Type} (rows : list (list A)) : bool :=
  match rows with
  | [] => true
  | r :: rest => forallb (fun r' => length r' =? length r) rest
  end.

Definition ravel {A : Type} (rows : list (list A)) : result (list A) :=
  if same_length rows then Ok (concat rows) else Raise ValueError.

Fixpoint insert (x : nat) (l : list nat) : list nat :=
  match l with
  | [] => [x]
  | y :: rest => if x <=? y then x :: l else y :: insert x rest
  end.

(** [ar.sort()] *)
Fixpoint sort (l : list nat) : list nat :=
  match l with
  | [] => []
  | x :: rest => insert x (sort rest)
  end.

(** [aux[1:] != aux[:-1]], element by element. *)
Fixpoint adjacent_ne (aux : list nat) : list bool :=
  match aux with
  | x :: ((y :: _) as rest) => negb (y =? x) :: adjacent_ne rest
  | _ => []
  end.

(** [ar[mask]] with a boolean mask. *)
Fixpoint select_mask {A : Type} (mask : list bool) (ar : list A) : list A :=
  match mask, ar with
  | m :: mask', x :: ar' => if m then x :: select_mask mask' ar' else select_mask mask' ar'
  | _, _ => []
  end.

Fixpoint zip_and (a b : list bool) : list bool :=
  match a, b with
  | x :: a', y :: b' => (x && y) :: zip_and a' b'
  | _, _ => []
  end.

(** [np.unique(ar)]: sort, then keep each element that differs from its
    predecessor. *)
Definition unique (ar : list nat) : list nat :=
  let aux := sort ar in
  select_mask (true :: adjacent_ne aux) aux.

(** [np.setxor1d(ar1, ar2)] on two flat arrays:
<<
    ar1 = unique(ar1); ar2 = unique(ar2)
    aux = concatenate((ar1, ar2)); aux.sort()
    flag = concatenate(([True], aux[1:] != aux[:-1], [True]))
    return aux[flag[1:] & flag[:-1]]
>> *)
Definition setxor1d_flat (ar1 ar2 : list nat) : list nat :=
  let aux := sort (unique ar1 ++ unique ar2) in
  let flag_tail := adjacent_ne aux ++ [true] in    (* flag[1:]  *)
  let flag_init := true :: adjacent_ne aux in      (* flag[:-1] *)
  select_mask (zip_and flag_tail flag_init) aux.

(** [np.setxor1d] applied to two lists of arrays. *)
Definition setxor1d (ar1 ar2 : list (list nat)) : result (list nat) :=
  a1 <- ravel ar1 ;;
  a2 <- ravel ar2 ;;
  Ok (setxor1d_flat a1 a2).

End np.

(** ** The pipeline object *)

(** What the constructor reads from the dataset's ancestor group and from
    its spectroscopic index table. *)
Record ScanMetadata : Type := {
  num_steps : nat;                    (* attrs['num_steps'] *)
  VS_num_meas_per_read_step : nat;    (* attrs['VS_num_meas_per_read_step'] *)
  VS_num_meas_per_write_step : nat;   (* attrs['VS_num_meas_per_write_step'] *)
  spec_inds_zeros : nat               (* len(np.argwhere(h5_spec_inds[0, :] == 0)) *)
}.

(** The fields of a [BERelaxFit] instance that the modelled methods use;
    [T] is the type of a sample. *)
Record BERelaxFit (T : Type) : Type := {
  starts_with : pyval;
  fit_method : string;
  no_read_steps : nat;
  no_write_steps : nat;
  sensitivity : T;
  phase_offset : T;
  no_time_steps : nat;
  no_rs_spectra : nat;
  all_inds_split : list (list nat);
  read_inds_split : list (list nat);
  write_inds_split : list (list nat);
  no_read_offset : nat
}.

(** ** Signal reconstruction *)

(** The arithmetic on samples that the reconstruction uses. *)
Class MixOps (T : Type) : Type := {
  tmul : T -> T -> T;
  tadd : T -> T -> T;
  tcos : T -> T
}.

(** [amp * sensitivity * np.cos(phase + phase_offset)] on two arrays of one
    shape. *)
Definition mix {T : Type} `{MixOps T} (sens phase_off : T) (amp phase : list T)
  : list T :=
  map (fun ap => tmul (tmul (fst ap) sens) (tcos (tadd (snd ap) phase_off)))
      (combine amp phase).

(** [np.array([mix(amp, phase) for amp, phase in zip(amps, phases)])] *)
Definition mix_rows {T : Type} `{MixOps T} (sens phase_off : T)
    (amps phases : list (list T)) : list (list T) :=
  map (fun ap => mix sens phase_off (fst ap) (snd ap)) (combine amps phases).

(** The local lists of [_read_data_chunk]. *)
Record chunk_locals (T : Type) : Type := {
  amplitude_reshaped : list (list T);
  phase_reshaped : list (list T);
  amplitude_write : list (list T);
  phase_write : list (list T);
  mixed_signal : list (list T);
  mixed_signal_write : list (list T)
}.

(** What [_read_data_chunk] leaves on the instance. *)
Record chunk_result (T : Type) : Type := {
  data : list (list T);
  phase : list (list T);
  amplitude : list (list T);
  write_spectra : list (list T)
}.

(** ** Fitting *)

(** The routines of [fit_methods] and SciPy's [curve_fit], which the
    dispatch calls and this development does not look into; each may raise.
    [scalar_mul] and [scalar_div] are [* 1000] and [/ 1000]. *)
Class FitLib (T : Type) : Type := {
  fit_exp_curve : list T -> list (list T) -> result (list T);
  curve_fit_exp : list T -> list (list T) -> list T -> result (list T);
  fit_double_exp : list T -> list (list T) -> result (list T);
  fit_str_exp : list T -> list (list T) -> result (list T);
  fit_sigmoid : list T -> list (list T) -> result (list T);
  scalar_mul : T -> T;
  scalar_div : T -> T
}.

(** The state of the four [if] statements of [_map_function]: which of them
    were entered, and whether [popt] is bound. *)
Record dispatch_state (T : Type) : Type := {
  entered : list string;
  popt : option (list T)
}.

(** ** The result store *)

(** One element of a compound-dtype array: its fields in dtype order. *)
Definition compound (T : Type) : Type := list (string * T).

Fixpoint field {T : Type} (name : string) (c : compound T) : option T :=
  match c with
  | [] => None
  | (n, v) :: rest => if String.eqb n name then Some v else field name rest
  end.

Class GtOp (T : Type) : Type := { tgtb : T -> T -> bool }.

(** pyUSID's [stack_real_to_compound], which builds the compound array from
    the real-valued fit results and the dtype's field names; the elements
    are given in row-major order. *)
Class UsidLib (T : Type) : Type := {
  stack_real_to_compound : list (list T) -> list string -> result (list (compound T))
}.

(** The result dataset with its cursor attribute, and the fields of the
    process that a commit reads and writes. *)
Record writer_state (T : Type) : Type := {
  h5_results : list (list (compound T));   (* one row per pixel *)
  h5_results_names : list string;          (* the dataset's dtype names *)
  h5_results_ncols : nat;                  (* h5_results.shape[1] *)
  last_pixel : nat;                        (* h5_results_grp.attrs['last_pixel'] *)
  _start_pos : nat;
  _end_pos : nat;
  _results : list (list T)
}.

(** [[f(i, x) for i, x in enumerate(l, k)]] *)
Fixpoint mapi_from {A B : Type} (k : nat) (f : nat -> A -> B) (l : list A) : list B :=
  match l with
  | [] => []
  | x :: rest => f k x :: mapi_from (S k) f rest
  end.

Module h5.

(** HDF5 converts between compound types member by member, matching the
    members by name: a destination member takes the value of the source
    member of its name, and keeps its stored value when the source has
    none; a source member with no destination is dropped. *)
Definition convert {T : Type} (src old : compound T) : compound T :=
  map (fun nv => (fst nv, match field (fst nv) src with
                          | Some v => v
                          | None => snd nv
                          end)) old.

(** Broadcasting along one axis: a source of the selection's length is
    taken as it is, a source of length one is repeated, and anything else
    cannot be broadcast. *)
Definition broadcast {A : Type} (n : nat) (src : list A) : result (list A) :=
  if length src =? n then Ok src
  else match src with
       | [c] => Ok (repeat c n)
       | _ => Raise TypeError
       end.

Definition write_row {T : Type} (old new : list (compound T)) : list (compound T) :=
  map (fun on => convert (snd on) (fst on)) (combine old new).

(** [dset[lo:hi] = src]: row [i] of the dataset, for [lo <= i < min(hi, len)],
    is overwritten with row [i - lo] of the source, which is first broadcast
    to the shape of the selection. *)
Definition setitem_rows {T : Type} (dset : list (list (compound T))) (ncols : nat)
    (lo hi : nat) (src : list (list (compound T)))
  : result (list (list (compound T))) :=
  let count := length (slice lo hi dset) in
  src_rows <- broadcast count src ;;
  src' <- map_result (broadcast ncols) src_rows ;;
  Ok (mapi_from 0
        (fun i row => if (lo <=? i) && (i <? hi)
                      then write_row row (nth (i - lo) src' [])
                      else row)
        dset).

(** [dset[name]]: the whole of one field, read into a new array. *)
Definition getitem_field {T : Type} (names : list string)
    (dset : list (list (compound T))) (name : string) : result (list (list T)) :=
  if existsb (String.eqb name) names
  then map_result
         (map_result (fun c => match field name c with
                               | Some v => Ok v
                               | None => Raise ValueError
                               end)) dset
  else Raise ValueError.

End h5.

(** [ar.reshape(nrows, -1)] of an array given in row-major order. *)
Definition reshape_rows {A : Type} (flat : list A) (nrows : nat)
  : result (list (list A)) :=
  if nrows =? 0 then Raise ValueError
  else if negb (length flat mod nrows =? 0) then Raise ValueError
  else let ncols := length flat / nrows in
       Ok (map (fun i => slice (i * ncols) ((i + 1) * ncols) flat) (seq 0 nrows)).

(** The truth value of a boolean array in an [if]: that of its element when
    it has one, [False] (with a warning) when it has none, and a
    [ValueError] when it has several. *)
Definition truth (bs : list bool) : result bool :=
  match bs with
  | [] => Ok false
  | [b] => Ok b
  | _ => Raise ValueError
  end.

(** [ar[i] = v] on an in-memory array. *)
Fixpoint array_set {A : Type} (ar : list A) (i : nat) (v : A) : list A :=
  match ar, i with
  | [], _ => []
  | _ :: rest, 0 => v :: rest
  | x :: rest, S i' => x :: array_set rest i' v
  end.

(** ** The methods *)

Module BERelaxFit_methods.

(** [BERelaxFit.__init__], lines 34-71: the read/write step partition.
    The two [if] statements are tested one after the other and append to the
    same list. *)
Definition __init__ {T : Type} (md : ScanMetadata) (fit_method : string)
    (sens phase_off : T) (starts_with : pyval) : result (BERelaxFit T) :=
  let no_read_steps := VS_num_meas_per_read_step md in
  let no_write_steps := VS_num_meas_per_write_step md in
  let no_time_steps := num_steps md in
  let no_rs_spectra := spec_inds_zeros md / 2 in
  all_inds_split <- np.array_split (np.arange no_time_steps) no_rs_spectra ;;
  let read_inds_split :=
    if py_eq starts_with (PyStr "write")
    then map (fun i => slice_from (Z.of_nat no_write_steps) (nth i all_inds_split []))
             (seq 0 no_rs_spectra)
    else [] in
  let read_inds_split :=
    if py_eq starts_with (PyStr "read")
    then read_inds_split
         ++ map (fun i => slice_to (- Z.of_nat no_write_steps) (nth i all_inds_split []))
                (seq 0 no_rs_spectra)
    else read_inds_split in
  let no_read_offset := spec_inds_zeros md - no_rs_spectra in
  xor <- np.setxor1d all_inds_split read_inds_split ;;
  write_inds_split <- np.split xor no_rs_spectra ;;
  Ok {| starts_with := starts_with;
        fit_method := fit_method;
        no_read_steps := no_read_steps;
        no_write_steps := no_write_steps;
        sensitivity := sens;
        phase_offset := phase_off;
        no_time_steps := no_time_steps;
        no_rs_spectra := no_rs_spectra;
        all_inds_split := all_inds_split;
        read_inds_split := read_inds_split;
        write_inds_split := write_inds_split;
        no_read_offset := no_read_offset |}.


(** [BERelaxFit._read_data_chunk], lines 88-122.  [amplitude_to_reshape] and
    [phase_to_reshape] are the two fields of the chunk that the base class
    has just read into [self.data]; [n_pixels] is [self.h5_main.shape[0]]. *)
Definition read_body {T : Type} `{MixOps T} (self : BERelaxFit T)
    (amplitude_to_reshape phase_to_reshape : list (list T))
    (i j : nat) (s : chunk_locals T) : result (chunk_locals T) :=
  inds <- getitem (read_inds_split self) j ;;
  amp_row <- getitem amplitude_to_reshape i ;;
  a <- take_inds amp_row inds ;;
  phase_row <- getitem phase_to_reshape i ;;
  p <- take_inds phase_row inds ;;
  let amplitude_reshaped' := amplitude_reshaped s ++ [a] in
  let phase_reshaped' := phase_reshaped s ++ [p] in
  let mixed_signal' :=
    mix_rows (sensitivity self) (phase_offset self)
             amplitude_reshaped' phase_reshaped' in
  let s1 := {| amplitude_reshaped := amplitude_reshaped';
               phase_reshaped := phase_reshaped';
               amplitude_write := amplitude_write s;
               phase_write := phase_write s;
               mixed_signal := mixed_signal';
               mixed_signal_write := mixed_signal_write s |} in
  let s2 :=
    if py_eq (starts_with self) (PyInt 1)
    then
      let amplitude_write' :=
        amplitude_write s1 ++ [slice_to (Z.of_nat (no_write_steps self)) amp_row] in
      let phase_write' :=
        phase_write s1 ++ [slice_to (Z.of_nat (no_write_steps self)) phase_row] in
      {| amplitude_reshaped := amplitude_reshaped s1;
         phase_reshaped := phase_reshaped s1;
         amplitude_write := amplitude_write';
         phase_write := phase_write';
         mixed_signal := mixed_signal s1;
         mixed_signal_write :=
           mix_rows (sensitivity self) (phase_offset self)
                    amplitude_write' phase_write' |}
    else s1 in
  let s3 :=
    if py_eq (starts_with self) (PyInt 0)
    then
      let amplitude_write' :=
        amplitude_write s2 ++ [slice_from (Z.of_nat (no_read_steps self)) amp_row] in
      let phase_write' :=
        phase_write s2 ++ [slice_from (Z.of_nat (no_read_steps self)) phase_row] in
      {| amplitude_reshaped := amplitude_reshaped s2;
         phase_reshaped := phase_reshaped s2;
         amplitude_write := amplitude_write';
         phase_write := phase_write';
         mixed_signal := mixed_signal s2;
         mixed_signal_write :=
           mix_rows (sensitivity self) (phase_offset self)
                    amplitude_write' phase_write' |}
    else s2 in
  Ok s3.

Definition _read_data_chunk {T : Type} `{MixOps T} (self : BERelaxFit T)
    (start_pos n_pixels : nat)
    (amplitude_to_reshape phase_to_reshape : list (list T))
  : result (option (chunk_result T)) :=
  if start_pos <? n_pixels then
    let s0 := {| amplitude_reshaped := []; phase_reshaped := [];
                 amplitude_write := []; phase_write := [];
                 mixed_signal := []; mixed_signal_write := [] |} in
    s <- for_each (seq 0 n_pixels)
           (fun i => for_each (seq 0 (no_read_offset self))
                       (read_body self amplitude_to_reshape phase_to_reshape i))
           s0 ;;
    Ok (Some {| data := mixed_signal s;
                phase := phase_reshaped s;
                amplitude := amplitude_reshaped s;
                write_spectra := mixed_signal_write s |})
  else Ok None.

(** The [field_names] of [_create_results_datasets], lines 147-171: four
    [if] statements in a row; the name stays unbound when none applies. *)
Definition create_field_names (fit_method : string) : option (list string) :=
  let field_names := None in
  let field_names :=
    if String.eqb fit_method "Exponential"
    then Some ["Amplitude [pm]"; "Time_Constant [s]"; "Offset [pm]"]
    else field_names in
  let field_names :=
    if String.eqb fit_method "Double_Exp"
    then Some ["Amplitude [pm]"; "Time_Constant [s]";
               "Amplitude 2 [pm]"; "Time_Constant 2 [s]"; "Offset [pm]"]
    else field_names in
  let field_names :=
    if String.eqb fit_method "Str_Exp"
    then Some ["Amplitude [pm]"; "Beta"; "Offset [pm]"]
    else field_names in
  let field_names :=
    if String.eqb fit_method "Logistic"
    then Some ["A"; "K"; "B"; "v"; "Q"; "C"]
    else field_names in
  field_names.

(** The [field_names] of [_write_results_chunk], lines 198-206. *)
Definition write_field_names (fit_method : string) : option (list string) :=
  let field_names := None in
  let field_names :=
    if String.eqb fit_method "Exponential"
    then Some ["Amplitude [pm]"; "Time_Constant [s]"; "Offset [pm]"]
    else field_names in
  let field_names :=
    if String.eqb fit_method "Double_Exp"
    then Some ["Amplitude [pm]"; "Time_Constant 1 [s]";
               "Amplitude 2 [pm]"; "Time_Constant 2 [s]"; "Offset [pm]"]
    else field_names in
  let field_names :=
    if String.eqb fit_method "Str_Exp"
    then Some ["Amplitude [pm]"; "Beta"; "Offset [pm]"]
    else field_names in
  let field_names :=
    if String.eqb fit_method "Logistic"
    then Some ["A"; "K"; "B"; "v"; "Q"; "C"]
    else field_names in
  field_names.

(** One [if self.fit_method == name: popt = ...] statement.  Once an
    exception is under way the statements that follow are not run. *)
Definition if_model {T : Type} (fit_method name : string)
    (fit : unit -> result (list T))
    (st : dispatch_state T * result unit) : dispatch_state T * result unit :=
  match snd st with
  | Raise _ => st
  | Ok _ =>
      if String.eqb fit_method name then
        match fit tt with
        | Ok p => ({| entered := entered (fst st) ++ [name]; popt := Some p |}, Ok tt)
        | Raise cls =>
            ({| entered := entered (fst st) ++ [name]; popt := popt (fst st) |},
             Raise cls)
        end
      else st
  end.

(** [BERelaxFit._map_function], lines 183-195; [x] is the time axis of line
    182.  Returns the branches entered and the outcome of the call. *)
Definition _map_function {T : Type} `{FitLib T} (fit_method : string)
    (x : list T) (spectra : list (list T)) : list string * result (list T) :=
  let y := spectra in
  let st := ({| entered := []; popt := None |}, Ok tt) in
  let st := if_model fit_method "Exponential"
              (fun _ =>
                 popt_init <- fit_exp_curve (map scalar_mul x) y ;;
                 a_init <- getitem popt_init 0 ;;
                 tau <- getitem popt_init 1 ;;
                 let tau_init := scalar_div tau in
                 c_init <- getitem popt_init 2 ;;
                 curve_fit_exp x y [a_init; tau_init; c_init]) st in
  let st := if_model fit_method "Double_Exp" (fun _ => fit_double_exp x y) st in
  let st := if_model fit_method "Str_Exp" (fun _ => fit_str_exp x y) st in
  let st := if_model fit_method "Logistic" (fun _ => fit_sigmoid x y) st in
  (entered (fst st),
   match snd st with
   | Raise cls => Raise cls
   | Ok _ => match popt (fst st) with
             | Some p => Ok p
             | None => Raise UnboundLocalError     (* return popt *)
             end
   end).

(** The body of the loop of lines 222-227.  [self.h5_results[name]] reads
    the field from the dataset into a new array each time it is evaluated,
    so the four assignments store into arrays that nothing refers to
    afterwards; the dataset is not written. *)
Definition canon_body {T : Type} `{GtOp T} (st : writer_state T)
    (amp1_copy amp2_copy tau1_copy tau2_copy : list (list T))
    (i : nat) (_ : unit) : result unit :=
  let read := h5.getitem_field (h5_results_names st) (h5_results st) in
  a1 <- read "Amplitude [pm]" ;;
  r1 <- getitem a1 i ;;
  a2 <- read "Amplitude 2 [pm]" ;;
  r2 <- getitem a2 i ;;
  c <- truth (map (fun p => tgtb (fst p) (snd p)) (combine r1 r2)) ;;
  if c then
    t1 <- read "Amplitude [pm]" ;;
    v1 <- getitem amp2_copy i ;;
    let _t1 := array_set t1 i v1 in
    t2 <- read "Amplitude 2 [pm]" ;;
    v2 <- getitem amp1_copy i ;;
    let _t2 := array_set t2 i v2 in
    t3 <- read "Time_Constant [s]" ;;
    v3 <- getitem tau2_copy i ;;
    let _t3 := array_set t3 i v3 in
    t4 <- read "Time_Constant 2 [s]" ;;
    v4 <- getitem tau1_copy i ;;
    let _t4 := array_set t4 i v4 in
    Ok tt
  else Ok tt.

(** Lines 216-227. *)
Definition canonicalise {T : Type} `{GtOp T} (st : writer_state T) : result unit :=
  let read := h5.getitem_field (h5_results_names st) (h5_results st) in
  amp1_copy <- read "Amplitude [pm]" ;;
  amp2_copy <- read "Amplitude 2 [pm]" ;;
  tau1_copy <- read "Time_Constant [s]" ;;
  tau2_copy <- read "Time_Constant 2 [s]" ;;
  a <- read "Amplitude [pm]" ;;
  for_each (seq 0 (length a))
           (canon_body st amp1_copy amp2_copy tau1_copy tau2_copy) tt.

(** [BERelaxFit._write_results_chunk], lines 197-232.  The state returned is
    the one the call leaves behind, also when it raises. *)
Definition _write_results_chunk {T : Type} `{GtOp T} `{UsidLib T}
    (fit_method : string) (st : writer_state T) : writer_state T * result unit :=
  match write_field_names fit_method with
  | None => (st, Raise UnboundLocalError)
  | Some field_names =>
    match (flat <- stack_real_to_compound (_results st) field_names ;;
           reshape_rows flat (length (h5_results st))) with
    | Raise cls => (st, Raise cls)
    | Ok results =>
      match h5.setitem_rows (h5_results st) (h5_results_ncols st)
                            (_start_pos st) (_end_pos st)
                            (slice (_start_pos st) (_end_pos st) results) with
      | Raise cls => (st, Raise cls)
      | Ok rows' =>
        let st1 := {| h5_results := rows';
                      h5_results_names := h5_results_names st;
                      h5_results_ncols := h5_results_ncols st;
                      last_pixel := last_pixel st;
                      _start_pos := _start_pos st;
                      _end_pos := _end_pos st;
                      _results := _results st |} in
        match (if String.eqb fit_method "Double_Exp"
               then canonicalise st1 else Ok tt) with
        | Raise cls => (st1, Raise cls)
        | Ok _ =>
          ({| h5_results := h5_results st1;
              h5_results_names := h5_results_names st1;
              h5_results_ncols := h5_results_ncols st1;
              last_pixel := _end_pos st1;
              _start_pos := _end_pos st1;
              _end_pos := _end_pos st1;
              _results := _results st1 |}, Ok tt)
        end
      end
    end
  end.

End BERelaxFit_methods.
Import BERelaxFit_methods.


(** ** The dispatch as the specification describes it *)

Definition known_models : list string :=
  ["Exponential"; "Double_Exp"; "Str_Exp"; "Logistic"].

(** The fit of the [Exponential] model: the estimate on the rescaled time
    axis, whose time constant is scaled back, seeds the refinement. *)
Definition exponential_fit {T : Type} `{FitLib T} (x : list T) (y : list (list T))
  : result (list T) :=
  popt_init <- fit_exp_curve (map scalar_mul x) y ;;
  a_init <- getitem popt_init 0 ;;
  tau <- getitem popt_init 1 ;;
  c_init <- getitem popt_init 2 ;;
  curve_fit_exp x y [a_init; scalar_div tau; c_init].

(** The dispatch as a closed switch over the model name. *)
Definition model_fit {T : Type} `{FitLib T} (name : string)
    (x : list T) (y : list (list T)) : result (list T) :=
  if String.eqb name "Exponential" then exponential_fit x y
  else if String.eqb name "Double_Exp" then fit_double_exp x y
  else if String.eqb name "Str_Exp" then fit_str_exp x y
  else fit_sigmoid x y.


(** ** Predicates and functions used in the statements *)

(** The same commit issued again: the chunk range is set back to
    [[lo, hi)]; the fit results and the store are left as they are. *)
Definition with_range {T : Type} (lo hi : nat) (st : writer_state T) : writer_state T :=
  {| h5_results := h5_results st;
     h5_results_names := h5_results_names st;
     h5_results_ncols := h5_results_ncols st;
     last_pixel := last_pixel st;
     _start_pos := lo;
     _end_pos := hi;
     _results := _results st |}.


Definition increasing (l : list nat) : Prop := StronglySorted lt l.
Definition nondecreasing (l : list nat) : Prop := StronglySorted le l.

(** The samples of pixel [i] at the read steps of cycle [j]:
    [chunk[i, read_inds_split[j]]]. *)
Definition gather {T : Type} (reads : list (list nat)) (chunk : list (list T))
    (i j : nat) : result (list T) :=
  inds <- getitem reads j ;;
  row <- getitem chunk i ;;
  take_inds row inds.

(** Where the sub-array [i] of [array_split] starts, for sub-arrays of size
    [q] of which the first [e] have one element more. *)
Definition split_point (q e i : nat) : nat := Nat.min i e * (q + 1) + (i - e) * q.

(** The sub-arrays [[i*b + o, i*b + o + l)] of [n] consecutive blocks of
    size [b]. *)
Definition windows (b o l n : nat) : list (list nat) :=
  map (fun i => seq (i * b + o) l) (seq 0 n).

(** What is left of each block when the window is taken out. *)
Definition window_complements (b o l n : nat) : list (list nat) :=
  map (fun i => seq (i * b) o ++ seq (i * b + o + l) (b - o - l)) (seq 0 n).

(** The [n] consecutive blocks of size [b]. *)
Definition blocks (b n : nat) : list (list nat) :=
  map (fun i => seq (i * b) b) (seq 0 n).

(** The read steps within a block of size [b], as offset and count, that
    the constructor's two branches select for [w] write steps; [None] when
    [starts_with] is neither of the two strings. *)
Definition read_window (sw : pyval) (b w : nat) : option (nat * nat) :=
  if py_eq sw (PyStr "write") then Some (Nat.min w b, b - Nat.min w b)
  else if py_eq sw (PyStr "read") then Some (0, if w =? 0 then 0 else b - w)
  else None.

(** The instance expected of the constructor when the steps divide into
    whole blocks of size [b], one per cycle. *)
Definition partitioned {T : Type} (md : ScanMetadata) (method : string)
    (sens phase_off : T) (sw : pyval) (b : nat) : BERelaxFit T :=
  let cycles := spec_inds_zeros md / 2 in
  let w := VS_num_meas_per_write_step md in
  let window := read_window sw b w in
  {| starts_with := sw;
     fit_method := method;
     no_read_steps := VS_num_meas_per_read_step md;
     no_write_steps := w;
     sensitivity := sens;
     phase_offset := phase_off;
     no_time_steps := num_steps md;
     no_rs_spectra := cycles;
     all_inds_split := blocks b cycles;
     read_inds_split :=
       match window with
       | Some ol => windows b (fst ol) (snd ol) cycles
       | None => []
       end;
     write_inds_split :=
       match window with
       | Some ol => window_complements b (fst ol) (snd ol) cycles
       | None => window_complements b 0 0 cycles
       end;
     no_read_offset := spec_inds_zeros md - cycles |}.

(** ** Instances and sample data, used to run the definitions *)

#[export] Instance R_MixOps : MixOps R :=
  {| tmul := Rmult; tadd := Rplus; tcos := cos |}.

#[export] Instance Z_GtOp : GtOp Z := {| tgtb := Z.gtb |}.

(** One parameter vector per fit, of the dtype's arity: the vector's entries
    become the fields, in order. *)
Definition stack_vectors {T : Type} (vectors : list (list T)) (names : list string)
  : result (list (compound T)) :=
  map_result (fun v => if length v =? length names
                       then Ok (combine names v) else Raise ValueError) vectors.

#[export] Instance Z_UsidLib : UsidLib Z :=
  {| stack_real_to_compound := stack_vectors (T := Z) |}.

(** Fit routines that return their arguments' sizes: enough to tell from a
    result which routine produced it. *)
Definition tag_fit (tag : Z) (x : list Z) (y : list (list Z)) : result (list Z) :=
  Ok [tag; Z.of_nat (length x); Z.of_nat (length y)].

#[export] Instance Z_FitLib : FitLib Z :=
  {| fit_exp_curve := tag_fit 1;
     curve_fit_exp := fun x y p0 => Ok p0;
     fit_double_exp := tag_fit 2;
     fit_str_exp := tag_fit 3;
     fit_sigmoid := tag_fit 4;
     scalar_mul := fun t => (t * 1000)%Z;
     scalar_div := fun t => (t / 1000)%Z |}.

(** A [Double_Exp] store of two pixels and one column, as
    [_create_results_datasets] leaves it (all fields zero, cursor 0), with
    the fit results of both pixels and the chunk [[0, 1)] to commit.  The
    fit of pixel 0 has amplitudes 5 and 3 with time constants 1 and 2. *)
Definition zero_element : compound Z :=
  [("Amplitude [pm]", 0%Z); ("Time_Constant [s]", 0%Z);
   ("Amplitude 2 [pm]", 0%Z); ("Time_Constant 2 [s]", 0%Z); ("Offset [pm]", 0%Z)].

Definition double_exp_names : list string :=
  ["Amplitude [pm]"; "Time_Constant [s]";
   "Amplitude 2 [pm]"; "Time_Constant 2 [s]"; "Offset [pm]"].

Definition store2 : writer_state Z :=
  {| h5_results := [[zero_element]; [zero_element]];
     h5_results_names := double_exp_names;
     h5_results_ncols := 1;
     last_pixel := 0;
     _start_pos := 0;
     _end_pos := 1;
     _results := [[5; 1; 3; 2; 0]; [7; 7; 7; 7; 7]]%Z |}.

(** The same with two columns per pixel. *)
Definition store2x2 : writer_state Z :=
  {| h5_results := [[zero_element; zero_element]; [zero_element; zero_element]];
     h5_results_names := double_exp_names;
     h5_results_ncols := 2;
     last_pixel := 0;
     _start_pos := 0;
     _end_pos := 1;
     _results := [[5; 1; 3; 2; 0]; [1; 1; 2; 2; 0];
                  [7; 7; 7; 7; 7]; [7; 7; 7; 7; 7]]%Z |}.

(** One pixel of 20 steps with amplitude 2 and phase 0 throughout. *)
Definition amp20 : list (list R) := [repeat 2%R 20].
Definition phase20 : list (list R) := [repeat 0%R 20].

(** The scan of the specification's end-to-end scenario: 20 steps, 8 read
    and 2 write steps per cycle, 2 cycles (4 zeros in the index table). *)
Definition md20 : ScanMetadata :=
  {| num_steps := 20; VS_num_meas_per_read_step := 8;
     VS_num_meas_per_write_step := 2; spec_inds_zeros := 4 |}.

(** The instance that the constructor builds for that scan with the default
    [starts_with], sensitivity 1 and phase offset 0. *)
Definition self20 : BERelaxFit R :=
  {| starts_with := PyStr "write";
     fit_method := "Exponential";
     no_read_steps := 8;
     no_write_steps := 2;
     sensitivity := 1%R;
     phase_offset := 0%R;
     no_time_steps := 20;
     no_rs_spectra := 2;
     all_inds_split := [seq 0 10; seq 10 10];
     read_inds_split := [seq 2 8; seq 12 8];
     write_inds_split := [[0; 1]; [10; 11]];
     no_read_offset := 2 |}.

(** 4 steps in 2 cycles of 2 read steps and no write step:
    [(2 + 0) * 2 = 4]. *)
Definition md_no_write : ScanMetadata :=
  {| num_steps := 4; VS_num_meas_per_read_step := 2;
     VS_num_meas_per_write_step := 0; spec_inds_zeros := 4 |}.

(** 20 steps in 2 cycles, with 5 read and 2 write steps declared per cycle:
    [(5 + 2) * 2 = 14], and 7 does not divide 20 either. *)
Definition md_loose : ScanMetadata :=
  {| num_steps := 20; VS_num_meas_per_read_step := 5;
     VS_num_meas_per_write_step := 2; spec_inds_zeros := 4 |}.

(** One pixel of 20 steps with amplitude 1 throughout. *)
Definition ones20 : list (list R) := [repeat 1%R 20].


(* ================================================================== *)
(** * [pycroscopy/io/io_utils.py]                                      *)
(* ================================================================== *)

Module io_utils.

(** [recommendCores], lines 70-103.  [cpu_count] is what
    [multiprocessing.cpu_count()] returns; [requested_cores] is [None] or an
    integer.  The quotients [int(num_jobs / cores)] of two non-negative
    integers are their floor quotients. *)
Definition recommendCores (cpu_count num_jobs : nat) (requested_cores : option Z)
  : result nat :=
  let max_cores := Nat.max 1 (cpu_count - 2) in
  let requested_cores :=
    match requested_cores with
    | None => max_cores
    | Some r => Nat.min (Z.to_nat (Z.abs r)) cpu_count
    end in
  if requested_cores =? 0 then Raise ZeroDivisionError
  else
    let recom_chunks := num_jobs / requested_cores in
    if (1 <? requested_cores) && (recom_chunks <? 10) then
      let recom_chunks := 20 in
      Ok (Nat.min requested_cores (num_jobs / recom_chunks))
    else Ok requested_cores.

(** [np.hstack] of 2-D arrays: the arrays are joined along the second axis,
    row by row; they must have the same number of rows, and there must be
    at least one array. *)
Definition hstack {A : Type} (arrays : list (list (list A))) : result (list (list A)) :=
  match arrays with
  | [] => Raise ValueError
  | first :: others =>
      if forallb (fun a => length a =? length first) others
      then Ok (map (fun i => concat (map (fun a => nth i a []) arrays))
                   (seq 0 (length first)))
      else Raise ValueError
  end.

(** [complex_to_float], lines 105-118, on a 2-D array; a complex number is
    the pair of its real and imaginary parts. *)
Definition complex_to_float {T : Type} (ds_main : list (list (T * T)))
  : result (list (list T)) :=
  hstack [map (map fst) ds_main; map (map snd) ds_main].

(** What [isinstance] tells [compound_to_scalar] about its argument. *)
Inductive container : Type :=
| H5Dataset     (* h5py.Dataset *)
| NdArray       (* np.ndarray *)
| OtherObject.

(** [compound_to_scalar], lines 120-139, on a 2-D array.  [names] is
    [ds_main.dtype.names], which is [None] when the dtype has no fields:
    iterating over it is a [TypeError].  [to_float32] is [np.float32]. *)
Definition compound_to_scalar {T : Type} (to_float32 : T -> T)
    (kind : container) (names : option (list string))
    (ds_main : list (list (compound T))) : result (list (list T)) :=
  match kind with
  | H5Dataset =>
      match names with
      | None => Raise TypeError
      | Some ns =>
          arrays <- map_result
                      (fun name => a <- h5.getitem_field ns ds_main name ;;
                                   Ok (map (map to_float32) a)) ns ;;
          hstack arrays
      end
  | NdArray =>
      match names with
      | None => Raise TypeError
      | Some ns =>
          arrays <- map_result (fun name => h5.getitem_field ns ds_main name) ns ;;
          hstack arrays
      end
  | OtherObject => Raise TypeError
  end.

(** The dtypes that [check_dtype] tells apart; a structured dtype is the
    list of its field names. *)
Inductive dtype : Type :=
| complex64
| complex128
| float32
| float64
| other_scalar          (* integers, booleans, ... *)
| structured (names : list string).

(** [len(dtype)]: the number of fields. *)
Definition dtype_len (dt : dtype) : nat :=
  match dt with
  | structured names => length names
  | _ => 0
  end.

(** The functions that [check_dtype] hands back as [func]. *)
Inductive converter : Type :=
| use_complex_to_float
| use_compound_to_scalar
| use_float32      (* np.float32 *)
| use_float64.     (* np.float64 *)

(** [check_dtype], lines 142-200, on a dataset of the given dtype and shape.
    The returned tuple is
    [(func, is_complex, is_compound, n_features, n_samples, type_mult)].
    Unpacking a shape that has not two entries is a [ValueError]; reading
    [ds_main[0, 0]] of a dataset without elements is an [IndexError] (as
    NumPy and h5py 3 raise it; older h5py raises [ValueError] there).
    [np.complex] is [complex128] (NumPy before 1.24, where the name
    exists). *)
Definition check_dtype (dt : dtype) (shape : list nat)
  : result (converter * bool * bool * nat * nat * nat) :=
  match shape with
  | [n_samples; n_features] =>
      match dt with
      | complex64 | complex128 =>
          if (n_samples =? 0) || (n_features =? 0) then Raise IndexError
          else
            let new_itemsize := match dt with complex64 => 4 | _ => 8 end in
            Ok (use_complex_to_float, true, false,
                n_features * 2, n_samples, new_itemsize * 2)
      | _ =>
          if 1 <? dtype_len dt then
            Ok (use_compound_to_scalar, false, true,
                n_features * dtype_len dt, n_samples, dtype_len dt * 4)
          else
            match dt with
            | float32 => Ok (use_float32, false, false, n_features, n_samples, 4)
            | float64 => Ok (use_float64, false, false, n_features, n_samples, 8)
            | _ => Ok (use_float32, false, false, n_features, n_samples, 4)
            end
      end
  | _ => Raise ValueError
  end.

End io_utils.

(** The pairing that [complex_to_float] undoes: the first half of a row
    holds the real parts, the second half the imaginary parts. *)
Definition float_to_complex {T : Type} (rows : list (list T)) : list (list (T * T)) :=
  map (fun r => combine (firstn (length r / 2) r) (skipn (length r / 2) r)) rows.

(** The number of cores that [recommendCores] starts from. *)
Definition effective_request (cpu_count : nat) (requested_cores : option Z) : nat :=
  match requested_cores with
  | None => Nat.max 1 (cpu_count - 2)
  | Some r => Nat.min (Z.to_nat (Z.abs r)) cpu_count
  end.

(** [a] is the 2-D array of the field [name] of the compound array [ds],
    each value passed through [g]. *)
Definition is_field_array {T : Type} (g : T -> T) (name : string)
    (ds : list (list (compound T))) (a : list (list T)) : Prop :=
  Forall2 (Forall2 (fun c v => exists v0, field name c = Some v0 /\ v = g v0)) ds a.

(** Every element of the compound array has every field of [names]. *)
Definition has_fields {T : Type} (names : list string)
    (ds : list (list (compound T))) : Prop :=
  Forall (Forall (fun c => forall name, In name names -> field name c <> None)) ds.

(** A dataset of two rows and two columns with fields [a] and [b]. *)
Definition ab_dataset : list (list (compound Z)) :=
  [[[("a", 1); ("b", 2)]; [("a", 3); ("b", 4)]];
   [[("a", 5); ("b", 6)]; [("a", 7); ("b", 8)]]]%Z.

(** The size in bytes of an element of the array that the function
    returned by [check_dtype] produces. *)
Definition converted_itemsize (dt : io_utils.dtype) : nat :=
  match dt with
  | io_utils.complex64 => 4
  | io_utils.complex128 => 8
  | io_utils.float64 => 8
  | _ => 4
  end.

(** Every look-up of the loop of [_read_data_chunk] is in range: each of
    the first [no_read_offset] read index sets exists, each of the
    [n_pixels] rows exists in the amplitude and in the phase chunk, and each
    read index is a column of both rows. *)
Definition readable {T : Type} (self : BERelaxFit T) (n_pixels : nat)
    (amp ph : list (list T)) : Prop :=
  forall i j, i < n_pixels -> j < no_read_offset self ->
    exists inds row_a row_p,
      nth_error (read_inds_split self) j = Some inds /\
      nth_error amp i = Some row_a /\ nth_error ph i = Some row_p /\
      Forall (fun s => s < length row_a /\ s < length row_p) inds.

(** The scan [md20] with one more zero in the index table. *)
Definition md_odd : ScanMetadata :=
  {| num_steps := 20; VS_num_meas_per_read_step := 8;
     VS_num_meas_per_write_step := 2; spec_inds_zeros := 5 |}.

(** An [Exponential] store of two pixels and two columns, all fields zero,
    with the four fit results and the chunk [[0, 1)] to commit. *)
Definition exp_names : list string :=
  ["Amplitude [pm]"; "Time_Constant [s]"; "Offset [pm]"].

Definition zero_exp : compound Z :=
  [("Amplitude [pm]", 0%Z); ("Time_Constant [s]", 0%Z); ("Offset [pm]", 0%Z)].

Definition store_exp : writer_state Z :=
  {| h5_results := [[zero_exp; zero_exp]; [zero_exp; zero_exp]];
     h5_results_names := exp_names;
     h5_results_ncols := 2;
     last_pixel := 0;
     _start_pos := 0;
     _end_pos := 1;
     _results := [[5; 1; 0]; [6; 2; 0]; [7; 3; 0]; [8; 4; 0]]%Z |}.

(** ** [BERelaxFit.test], lines 72-80 *)

(** [ar[i]] along the first axis for a Python integer [i]: a negative index
    counts from the end. *)
Definition getitem_int {A : Type} (l : list A) (i : Z) : result A :=
  if (i <? 0)%Z
  then if (i + Z.of_nat (length l) <? 0)%Z then Raise IndexError
       else getitem l (Z.to_nat (i + Z.of_nat (length l)))
  else getitem l (Z.to_nat i).

(** The array appended at line 77-78 for the read offset [j]:
    [amp[read_inds_split[j]] * np.cos(phase[read_inds_split[j]])]. *)
Definition test_spectrum {T : Type} `{MixOps T} (self : BERelaxFit T)
    (amplitude_to_reshape phase_to_reshape : list T) (j : nat) : result (list T) :=
  inds <- getitem (read_inds_split self) j ;;
  a <- take_inds amplitude_to_reshape inds ;;
  inds' <- getitem (read_inds_split self) j ;;
  p <- take_inds phase_to_reshape inds' ;;
  Ok (map (fun ap => tmul (fst ap) (tcos (snd ap))) (combine a p)).

(** [h5_amp] and [h5_phase] are the two fields of [h5_main]; [x] is the time
    axis of [_map_function]. *)
Definition test {T : Type} `{MixOps T} `{FitLib T} (self : BERelaxFit T)
    (x : list T) (h5_amp h5_phase : list (list T)) (pixel_ind : Z)
  : result (list T) :=
  amplitude_to_reshape <- getitem_int h5_amp pixel_ind ;;
  phase_to_reshape <- getitem_int h5_phase pixel_ind ;;
  mixed_signal <-
    for_each (seq 0 (no_read_offset self))
             (fun j mixed_signal =>
                s <- test_spectrum self amplitude_to_reshape phase_to_reshape j ;;
                Ok (mixed_signal ++ [s]))
             [] ;;
  let spectra := mixed_signal in
  snd (_map_function (fit_method self) x spectra).

(** Fit routines over the reals that return the samples they are given, row
    after row: enough to tell from a result what was passed. *)
Definition echo_fit (x : list R) (y : list (list R)) : result (list R) :=
  Ok (concat y).

#[export] Instance R_FitLib : FitLib R :=
  {| fit_exp_curve := echo_fit;
     curve_fit_exp := fun x y p0 => Ok p0;
     fit_double_exp := echo_fit;
     fit_str_exp := echo_fit;
     fit_sigmoid := echo_fit;
     scalar_mul := fun t => (t * 1000)%R;
     scalar_div := fun t => (t / 1000)%R |}.
(* ================================================================== *)
(** * Part II. Theorems                                                *)
(* ================================================================== *)

Unset Implicit Arguments.

(** ** The result monad and the loops *)

Lemma bind_ok_inv {A B : Type} (m : result A) (k : A -> result B) (b : B) :
  (x <- m ;; k x) = Ok b -> exists a, m = Ok a /\ k a = Ok b.
Proof.
  destruct m as [a|cls]; simpl; intros E.
  - exists a. split; [reflexivity | exact E].
  - discriminate E.
Qed.

Ltac bind_inv H :=
  let a := fresh "a" in
  let Ha := fresh "Ha" in
  apply bind_ok_inv in H; destruct H as (a & Ha & H).

(** ** The end-to-end scenario of the specification *)

(** C2.  For 20 steps, 8 read and 2 write steps per cycle, 2 cycles and
    [starts_with = 'write'], the constructor returns, and its write index
    sets are [[0,1],[10,11]] and its read index sets are
    [[2..9],[12..19]]. *)
Theorem partition_scenario_20_8_2 :
  forall (T : Type) (sens phase_off : T) (method : string),
  exists self,
    __init__ md20 method sens phase_off (PyStr "write") = Ok self /\
    no_rs_spectra self = 2 /\
    write_inds_split self = [[0; 1]; [10; 11]] /\
    read_inds_split self =
      [[2; 3; 4; 5; 6; 7; 8; 9]; [12; 13; 14; 15; 16; 17; 18; 19]].
Proof.
  intros T sens phase_off method.
  eexists. split; [reflexivity|]. repeat split.
Qed.

(** ** The two field-name lists *)

Lemma field_names_agree_exponential :
  write_field_names "Exponential" = create_field_names "Exponential".
Proof. reflexivity. Qed.

Lemma field_names_agree_str_exp :
  write_field_names "Str_Exp" = create_field_names "Str_Exp".
Proof. reflexivity. Qed.

Lemma field_names_agree_logistic :
  write_field_names "Logistic" = create_field_names "Logistic".
Proof. reflexivity. Qed.

(** C10.  For [Double_Exp] the field names that [_write_results_chunk]
    rebuilds are not those that [_create_results_datasets] gives the store:
    the second one is ['Time_Constant 1 [s]'] in the former and
    ['Time_Constant [s]'] in the latter. *)
Theorem field_names_differ_double_exp :
  write_field_names "Double_Exp" =
    Some ["Amplitude [pm]"; "Time_Constant 1 [s]";
          "Amplitude 2 [pm]"; "Time_Constant 2 [s]"; "Offset [pm]"] /\
  create_field_names "Double_Exp" =
    Some ["Amplitude [pm]"; "Time_Constant [s]";
          "Amplitude 2 [pm]"; "Time_Constant 2 [s]"; "Offset [pm]"] /\
  write_field_names "Double_Exp" <> create_field_names "Double_Exp".
Proof. repeat split. discriminate. Qed.

(** ** The dispatch *)


Lemma if_model_raised {T : Type} (fit_method name : string)
    (fit : unit -> result (list T)) (s : dispatch_state T) (cls : string) :
  if_model fit_method name fit (s, Raise cls) = (s, Raise cls).
Proof. reflexivity. Qed.

Lemma if_model_other {T : Type} (fit_method name : string)
    (fit : unit -> result (list T)) (st : dispatch_state T * result unit) :
  String.eqb fit_method name = false ->
  if_model fit_method name fit st = st.
Proof.
  intros E. unfold if_model. rewrite E.
  destruct st as [s [u|cls]]; reflexivity.
Qed.

Lemma if_model_enter {T : Type} (name : string)
    (fit : unit -> result (list T)) (s : dispatch_state T) :
  if_model name name fit (s, Ok tt) =
  match fit tt with
  | Ok p => ({| entered := entered s ++ [name]; popt := Some p |}, Ok tt)
  | Raise cls => ({| entered := entered s ++ [name]; popt := popt s |}, Raise cls)
  end.
Proof. unfold if_model. simpl. rewrite String.eqb_refl. reflexivity. Qed.

(** C9, as the code has it.  [_map_function] is the closed switch
    [model_fit] on the four known names: exactly the branch of the name is
    entered, and the outcome of the call is the outcome of that model's fit.
    On every other name no branch is entered and the call fails at
    [return popt] with Python's [UnboundLocalError]. *)
Theorem map_function_dispatch :
  forall (T : Type) (F : FitLib T) (method : string)
         (x : list T) (spectra : list (list T)),
    _map_function method x spectra =
    if existsb (String.eqb method) known_models
    then ([method], model_fit method x spectra)
    else ([], Raise UnboundLocalError).
Proof.
  intros T F method x spectra.
  unfold _map_function, known_models, model_fit. simpl existsb.
  destruct (String.eqb method "Exponential") eqn:E1.
  { apply String.eqb_eq in E1. subst method.
    rewrite if_model_enter. fold (exponential_fit x spectra).
    change (match
               (popt_init <- fit_exp_curve (map scalar_mul x) spectra;;
                a_init <- getitem popt_init 0;;
                tau <- getitem popt_init 1;;
                (let tau_init := scalar_div tau in
                 c_init <- getitem popt_init 2;;
                 curve_fit_exp x spectra [a_init; tau_init; c_init]))
             with
             | Ok p => ?a p
             | Raise cls => ?b cls
             end)
      with (match exponential_fit x spectra with
            | Ok p => a p
            | Raise cls => b cls
            end).
    destruct (exponential_fit x spectra) as [p|cls]; reflexivity. }
  rewrite (if_model_other _ _ _ _ E1).
  destruct (String.eqb method "Double_Exp") eqn:E2.
  { apply String.eqb_eq in E2. subst method.
    rewrite if_model_enter.
    destruct (fit_double_exp x spectra) as [p|cls]; reflexivity. }
  rewrite (if_model_other _ _ _ _ E2).
  destruct (String.eqb method "Str_Exp") eqn:E3.
  { apply String.eqb_eq in E3. subst method.
    rewrite if_model_enter.
    destruct (fit_str_exp x spectra) as [p|cls]; reflexivity. }
  rewrite (if_model_other _ _ _ _ E3).
  destruct (String.eqb method "Logistic") eqn:E4.
  { apply String.eqb_eq in E4. subst method.
    rewrite if_model_enter.
    destruct (fit_sigmoid x spectra) as [p|cls]; reflexivity. }
  rewrite (if_model_other _ _ _ _ E4).
  reflexivity.
Qed.

(** C9, as stated, fails: on the unknown name ['Gaussian'] the call does not
    raise an [UnsupportedModelError]; it raises [UnboundLocalError]. *)
Lemma map_function_unknown_name_error :
  snd (_map_function (T := Z) "Gaussian" [0%Z; 1%Z] [[5%Z; 3%Z]])
    = Raise UnboundLocalError /\
  snd (_map_function (T := Z) "Gaussian" [0%Z; 1%Z] [[5%Z; 3%Z]])
    <> Raise UnsupportedModelError.
Proof. split; [reflexivity | discriminate]. Qed.

Example map_function_double_exp_runs :
  _map_function (T := Z) "Double_Exp" [0%Z; 1%Z] [[5%Z; 3%Z]]
  = (["Double_Exp"], Ok [2%Z; 2%Z; 1%Z]).
Proof. reflexivity. Qed.

Example map_function_exponential_runs :
  _map_function (T := Z) "Exponential" [0%Z; 1%Z] [[5%Z; 3%Z]]
  = (["Exponential"], Ok [1%Z; 0%Z; 1%Z]).
Proof. reflexivity. Qed.

(** ** The chunk commit *)

(** C5.  The [Double_Exp] commit of a fit whose first amplitude (5) exceeds
    its second (3) completes and leaves the pair in the store as it was
    fitted: the swap of lines 223-227 is made on arrays read from the
    dataset and is never written to it.  The first time constant is not
    stored either: the record is packed under ['Time_Constant 1 [s]'], a
    name the store's schema does not have. *)
Theorem double_exp_commit_keeps_fit_order :
  let st' := fst (_write_results_chunk "Double_Exp" store2) in
  snd (_write_results_chunk "Double_Exp" store2) = Ok tt /\
  last_pixel st' = 1 /\
  h5_results st' =
    [[[("Amplitude [pm]", 5%Z); ("Time_Constant [s]", 0%Z);
       ("Amplitude 2 [pm]", 3%Z); ("Time_Constant 2 [s]", 2%Z);
       ("Offset [pm]", 0%Z)]];
     [zero_element]] /\
  map (map (field "Amplitude [pm]")) (h5_results st') = [[Some 5%Z]; [Some 0%Z]] /\
  map (map (field "Amplitude 2 [pm]")) (h5_results st') = [[Some 3%Z]; [Some 0%Z]].
Proof. vm_compute. repeat split. Qed.

Example commit_twice_store2 :
  let first := _write_results_chunk "Double_Exp" store2 in
  let second := _write_results_chunk "Double_Exp" (with_range 0 1 (fst first)) in
  snd first = Ok tt /\ snd second = Ok tt /\
  h5_results (fst second) = h5_results (fst first) /\
  last_pixel (fst second) = 1.
Proof. vm_compute. repeat split. Qed.

(** With more than one column per pixel the comparison of line 223 is
    between two arrays of several elements and has no truth value: the
    commit raises after the rows were written and before the cursor is
    moved. *)
Example double_exp_commit_two_columns :
  let st' := fst (_write_results_chunk "Double_Exp" store2x2) in
  snd (_write_results_chunk "Double_Exp" store2x2) = Raise ValueError /\
  last_pixel st' = 0 /\
  nth_error (h5_results st') 0 <> nth_error (h5_results store2x2) 0.
Proof. vm_compute. repeat split. discriminate. Qed.

Lemma mapi_from_length {A B : Type} (f : nat -> A -> B) (l : list A) (k : nat) :
  length (mapi_from k f l) = length l.
Proof.
  revert k. induction l as [|x l IH]; intros k; simpl; [reflexivity|].
  now rewrite IH.
Qed.

Lemma mapi_from_nth_error {A B : Type} (f : nat -> A -> B) (l : list A) :
  forall k i,
    nth_error (mapi_from k f l) i = option_map (f (k + i)) (nth_error l i).
Proof.
  induction l as [|x l IH]; intros k i; simpl.
  - destruct i; reflexivity.
  - destruct i as [|i]; simpl.
    + now rewrite Nat.add_0_r.
    + rewrite IH. now rewrite Nat.add_succ_r.
Qed.

Lemma mapi_from_idem {A : Type} (f : nat -> A -> A) (l : list A) :
  (forall i x, f i (f i x) = f i x) ->
  forall k, mapi_from k f (mapi_from k f l) = mapi_from k f l.
Proof.
  intros Hf. induction l as [|x l IH]; intros k; simpl; [reflexivity|].
  now rewrite Hf, IH.
Qed.

Lemma slice_length {A : Type} (lo hi : nat) (l : list A) :
  length (slice lo hi l) = Nat.min (hi - lo) (length l - lo).
Proof. unfold slice. now rewrite length_firstn, length_skipn. Qed.

Lemma field_convert {T : Type} (src old : compound T) (name : string) :
  field name (h5.convert src old) =
  match field name old with
  | Some v => Some (match field name src with Some v' => v' | None => v end)
  | None => None
  end.
Proof.
  induction old as [|[n v] old IH]; simpl; [reflexivity|].
  destruct (String.eqb n name) eqn:E.
  - apply String.eqb_eq in E. now subst.
  - exact IH.
Qed.

Lemma convert_idem {T : Type} (src old : compound T) :
  h5.convert src (h5.convert src old) = h5.convert src old.
Proof.
  unfold h5.convert. rewrite map_map. apply map_ext.
  intros [n v]; simpl. destruct (field n src); reflexivity.
Qed.

Lemma write_row_idem {T : Type} (new old : list (compound T)) :
  h5.write_row (h5.write_row old new) new = h5.write_row old new.
Proof.
  unfold h5.write_row. revert new.
  induction old as [|o old IH]; intros [|n new]; simpl; try reflexivity.
  now rewrite convert_idem, IH.
Qed.

Lemma setitem_rows_length {T : Type} (dset : list (list (compound T)))
    (ncols lo hi : nat) (src dset' : list (list (compound T))) :
  h5.setitem_rows dset ncols lo hi src = Ok dset' ->
  length dset' = length dset.
Proof.
  unfold h5.setitem_rows. intros E.
  bind_inv E. bind_inv E. injection E as <-.
  apply mapi_from_length.
Qed.

(** Rows outside the selection are not touched by the assignment. *)
Lemma setitem_rows_frame {T : Type} (dset : list (list (compound T)))
    (ncols lo hi : nat) (src dset' : list (list (compound T))) (i : nat) :
  h5.setitem_rows dset ncols lo hi src = Ok dset' ->
  i < lo \/ hi <= i ->
  nth_error dset' i = nth_error dset i.
Proof.
  unfold h5.setitem_rows. intros E Hi.
  bind_inv E. bind_inv E. injection E as <-.
  rewrite mapi_from_nth_error. simpl.
  destruct (nth_error dset i) as [row|]; simpl; [|reflexivity].
  replace ((lo <=? i) && (i <? hi)) with false; [reflexivity|].
  symmetry. apply andb_false_iff.
  destruct Hi as [Hi|Hi]; [left; apply Nat.leb_gt | right; apply Nat.ltb_ge]; lia.
Qed.

(** Assigning the same source to the same selection again changes nothing. *)
Lemma setitem_rows_idem {T : Type} (dset : list (list (compound T)))
    (ncols lo hi : nat) (src dset' : list (list (compound T))) :
  h5.setitem_rows dset ncols lo hi src = Ok dset' ->
  h5.setitem_rows dset' ncols lo hi src = Ok dset'.
Proof.
  intros E. pose proof (setitem_rows_length _ _ _ _ _ _ E) as Hlen.
  unfold h5.setitem_rows in *.
  rewrite slice_length in *. rewrite Hlen.
  bind_inv E. rewrite Ha. simpl.
  bind_inv E. rewrite Ha0. simpl.
  injection E as <-. f_equal.
  apply mapi_from_idem.
  intros i row. destruct ((lo <=? i) && (i <? hi)); [|reflexivity].
  apply write_row_idem.
Qed.

(** The canonicalisation pass reads the dataset and nothing else. *)
Lemma canonicalise_ext {T : Type} `{GtOp T} (st st' : writer_state T) :
  h5_results st = h5_results st' ->
  h5_results_names st = h5_results_names st' ->
  canonicalise st = canonicalise st'.
Proof.
  intros Hr Hn. unfold canonicalise, canon_body. now rewrite Hr, Hn.
Qed.

Lemma with_range_same {T : Type} (st : writer_state T) :
  with_range (_start_pos st) (_end_pos st) st = st.
Proof. destruct st; reflexivity. Qed.

Ltac proj_simpl :=
  cbn [with_range h5_results h5_results_names h5_results_ncols last_pixel
       _start_pos _end_pos _results fst snd] in *.

(** C6.  Committing a chunk and then committing the same pixel range again
    with the same fit results leaves the rows of the result store and the
    [last_pixel] attribute as the first commit left them, and the second
    commit ends as the first did. *)
Theorem commit_twice_idempotent :
  forall (T : Type) (G : GtOp T) (U : UsidLib T) (method : string)
         (st : writer_state T),
    let first := _write_results_chunk method st in
    let second :=
      _write_results_chunk method
        (with_range (_start_pos st) (_end_pos st) (fst first)) in
    h5_results (fst second) = h5_results (fst first) /\
    last_pixel (fst second) = last_pixel (fst first) /\
    snd second = snd first.
Proof.
  intros T G U method st. cbv zeta.
  destruct (_write_results_chunk method st) as [st1 out1] eqn:E1.
  simpl fst. simpl snd.
  unfold _write_results_chunk in E1.
  destruct (write_field_names method) as [names|] eqn:Hn.
  2:{ injection E1 as <- <-. rewrite with_range_same.
      unfold _write_results_chunk. rewrite Hn. auto. }
  destruct (flat <- stack_real_to_compound (_results st) names ;;
            reshape_rows flat (length (h5_results st))) as [results|cls] eqn:Hs.
  2:{ injection E1 as <- <-. rewrite with_range_same.
      unfold _write_results_chunk. rewrite Hn, Hs. auto. }
  destruct (h5.setitem_rows (h5_results st) (h5_results_ncols st)
              (_start_pos st) (_end_pos st)
              (slice (_start_pos st) (_end_pos st) results))
    as [rows'|cls] eqn:Hw.
  2:{ injection E1 as <- <-. rewrite with_range_same.
      unfold _write_results_chunk. rewrite Hn, Hs, Hw. auto. }
  pose proof (setitem_rows_length _ _ _ _ _ _ Hw) as Hlen.
  pose proof (setitem_rows_idem _ _ _ _ _ _ Hw) as Hidem.
  proj_simpl.
  match type of E1 with
  | match (if _ then canonicalise ?X else _) with _ => _ end = _ =>
      assert (Hc : forall st' : writer_state T,
                 h5_results st' = rows' ->
                 h5_results_names st' = h5_results_names st ->
                 (if String.eqb method "Double_Exp"
                  then canonicalise st' else Ok tt)
                 = (if String.eqb method "Double_Exp"
                    then canonicalise X else Ok tt))
        by (intros st' Hr Hn'; destruct (String.eqb method "Double_Exp");
            [apply canonicalise_ext; assumption | reflexivity])
  end.
  destruct (if String.eqb method "Double_Exp" then canonicalise _ else Ok tt)
    as [u|cls] eqn:Hcan; injection E1 as <- <-;
    unfold _write_results_chunk; proj_simpl;
    rewrite Hn, Hlen, Hs, Hidem; proj_simpl;
    rewrite Hc by reflexivity; proj_simpl; auto.
Qed.

(** C7.  A chunk commit leaves every row of the result store outside the
    chunk's pixel range [[_start_pos, _end_pos)] as it was, for every model
    and also when the commit raises part-way. *)
Theorem commit_frame :
  forall (T : Type) (G : GtOp T) (U : UsidLib T) (method : string)
         (st : writer_state T) (i : nat),
    i < _start_pos st \/ _end_pos st <= i ->
    nth_error (h5_results (fst (_write_results_chunk method st))) i
    = nth_error (h5_results st) i.
Proof.
  intros T G U method st i Hi.
  unfold _write_results_chunk.
  destruct (write_field_names method) as [names|]; [|reflexivity].
  destruct (flat <- stack_real_to_compound (_results st) names ;;
            reshape_rows flat (length (h5_results st))) as [results|cls];
    [|reflexivity].
  destruct (h5.setitem_rows (h5_results st) (h5_results_ncols st)
              (_start_pos st) (_end_pos st)
              (slice (_start_pos st) (_end_pos st) results))
    as [rows'|cls] eqn:Hw; [|reflexivity].
  pose proof (setitem_rows_frame _ _ _ _ _ _ i Hw Hi) as Hframe.
  destruct (if String.eqb method "Double_Exp" then canonicalise _ else Ok tt);
    proj_simpl; exact Hframe.
Qed.

(** C7 on the two-pixel store: pixel 1 is outside [[0, 1)]. *)
Lemma commit_frame_store2 :
  nth_error (h5_results (fst (_write_results_chunk "Double_Exp" store2))) 1
  = nth_error (h5_results store2) 1.
Proof.
  apply (commit_frame Z _ _ "Double_Exp" store2 1).
  right. apply le_n.
Defined.

(** ** Signal reconstruction *)

Example init_self20 :
  __init__ md20 "Exponential" 1%R 0%R (PyStr "write") = Ok self20.
Proof. reflexivity. Qed.

Lemma for_each_invariant {S I : Type} (P : S -> Prop) (body : I -> S -> result S) :
  (forall x s s', P s -> body x s = Ok s' -> P s') ->
  forall xs s s', P s -> for_each xs body s = Ok s' -> P s'.
Proof.
  intros Hbody xs. induction xs as [|x xs IH]; simpl; intros s s' Hs E.
  - now injection E as <-.
  - bind_inv E. eauto.
Qed.

Lemma read_body_write_signal {T : Type} `{MixOps T} (self : BERelaxFit T)
    (amp ph : list (list T)) (name : string) (i j : nat) (s s' : chunk_locals T) :
  starts_with self = PyStr name ->
  read_body self amp ph i j s = Ok s' ->
  mixed_signal_write s' = mixed_signal_write s.
Proof.
  intros Hsw E. unfold read_body in E. rewrite Hsw in E. simpl in E.
  repeat bind_inv E. now injection E as <-.
Qed.

(** When [starts_with] is a string, neither write branch of
    [_read_data_chunk] is entered, since both compare it with an integer:
    the write-branch signal stays empty. *)
Lemma write_spectra_empty_for_string_flag {T : Type} `{MixOps T}
    (self : BERelaxFit T) (name : string) (start_pos n_pixels : nat)
    (amp ph : list (list T)) (out : chunk_result T) :
  starts_with self = PyStr name ->
  _read_data_chunk self start_pos n_pixels amp ph = Ok (Some out) ->
  write_spectra out = [].
Proof.
  intros Hsw E.
  unfold _read_data_chunk in E.
  destruct (start_pos <? n_pixels); [|discriminate E].
  bind_inv E. injection E as <-. simpl.
  revert Ha.
  apply (for_each_invariant (fun s => mixed_signal_write s = [])); [|reflexivity].
  intros i s s' Hs.
  apply (for_each_invariant (fun s => mixed_signal_write s = [])); [|exact Hs].
  intros j s1 s2 Hs1 Hb.
  rewrite (read_body_write_signal self amp ph name i j s1 s2 Hsw Hb). exact Hs1.
Qed.

(** Without read index sets the first look-up of the loop fails. *)
Lemma read_data_chunk_no_reads {T : Type} `{MixOps T}
    (self : BERelaxFit T) (start_pos n_pixels : nat) (amp ph : list (list T)) :
  read_inds_split self = [] ->
  0 < no_read_offset self ->
  start_pos < n_pixels ->
  _read_data_chunk self start_pos n_pixels amp ph = Raise IndexError.
Proof.
  intros Hreads Hnro Hstart. unfold _read_data_chunk.
  apply Nat.ltb_lt in Hstart. rewrite Hstart. apply Nat.ltb_lt in Hstart.
  destruct n_pixels as [|n]; [lia|].
  destruct (no_read_offset self) as [|m]; [lia|].
  cbn [seq for_each]. unfold read_body at 1. rewrite Hreads. reflexivity.
Qed.

(** With the docstring's encoding ([1] for write) the constructor enters
    neither of its branches, which test for the strings: no read index set
    is built, and the first look-up of [_read_data_chunk] fails. *)
Example integer_flag_scenario :
  exists self,
    __init__ md20 "Exponential" 1%R 0%R (PyInt 1) = Ok self /\
    read_inds_split self = [] /\
    _read_data_chunk self 0 1 amp20 phase20 = Raise IndexError.
Proof. eexists. repeat split. Qed.

(** What a loop appends to a list it carries. *)
Lemma for_each_appends {S I A : Type} (proj : S -> list A)
    (body : I -> S -> result S) (G : I -> result (list A)) :
  (forall x s s', body x s = Ok s' -> exists l, G x = Ok l /\ proj s' = proj s ++ l) ->
  forall xs s s',
    for_each xs body s = Ok s' ->
    exists ls, map_result G xs = Ok ls /\ proj s' = proj s ++ concat ls.
Proof.
  intros Hbody xs. induction xs as [|x xs IH]; simpl; intros s s' E.
  - injection E as <-. exists []. split; [reflexivity|]. simpl. now rewrite app_nil_r.
  - bind_inv E. destruct (Hbody _ _ _ Ha) as (l & Hl & Hp).
    destruct (IH _ _ E) as (ls & Hls & Hp').
    exists (l :: ls). rewrite Hl, Hls. simpl. split; [reflexivity|].
    now rewrite Hp', Hp, app_assoc.
Qed.

Lemma map_result_length {A B : Type} (f : A -> result B) (xs : list A) (ys : list B) :
  map_result f xs = Ok ys -> length ys = length xs.
Proof.
  revert ys. induction xs as [|x xs IH]; simpl; intros ys E.
  - now injection E as <-.
  - bind_inv E. bind_inv E. injection E as <-. simpl. f_equal. now apply IH.
Qed.

Lemma map_result_nth_error {A B : Type} (f : A -> result B) (xs : list A) (ys : list B) :
  map_result f xs = Ok ys ->
  forall k x, nth_error xs k = Some x ->
              exists y, f x = Ok y /\ nth_error ys k = Some y.
Proof.
  revert ys. induction xs as [|x xs IH]; simpl; intros ys E k x' Hk.
  - destruct k; discriminate Hk.
  - bind_inv E. bind_inv E. injection E as <-.
    destruct k as [|k]; simpl in *.
    + injection Hk as <-. eauto.
    + eauto.
Qed.

Lemma map_result_total {A B : Type} (f : A -> result B) (xs : list A) :
  (forall x, In x xs -> exists y, f x = Ok y) ->
  exists ys, map_result f xs = Ok ys.
Proof.
  induction xs as [|x xs IH]; simpl; intros Hf.
  - eauto.
  - destruct (Hf x (or_introl eq_refl)) as (y & Hy).
    destruct IH as (ys & Hys); [intros; apply Hf; now right|].
    rewrite Hy, Hys. simpl. eauto.
Qed.

Lemma nth_error_concat_uniform {A : Type} (n : nat) (ls : list (list A)) :
  Forall (fun l => length l = n) ls ->
  forall i j l, nth_error ls i = Some l -> j < n ->
                nth_error (concat ls) (i * n + j) = nth_error l j.
Proof.
  induction 1 as [|l0 ls Hl0 Hls IH]; intros i j l Hi Hj.
  - destruct i; discriminate Hi.
  - destruct i as [|i]; simpl in *.
    + injection Hi as <-. apply nth_error_app1. lia.
    + rewrite nth_error_app2 by lia.
      replace (n + i * n + j - length l0) with (i * n + j) by lia.
      now apply IH.
Qed.

Lemma concat_length_uniform {A : Type} (n : nat) (ls : list (list A)) :
  Forall (fun l => length l = n) ls ->
  length (concat ls) = length ls * n.
Proof.
  induction 1 as [|l0 ls Hl0 Hls IH]; simpl; [reflexivity|].
  rewrite length_app. lia.
Qed.

(** Indexing a constant row yields a constant row. *)
Lemma take_inds_constant {A : Type} (c : A) (row : list A) (inds : list nat) (a : list A) :
  Forall (eq c) row ->
  take_inds row inds = Ok a ->
  a = repeat c (length inds).
Proof.
  intros Hrow. unfold take_inds. revert a.
  induction inds as [|k inds IH]; simpl; intros a E.
  - now injection E as <-.
  - bind_inv E. bind_inv E. injection E as <-.
    unfold getitem in Ha. destruct (nth_error row k) as [v|] eqn:Hk; [|discriminate Ha].
    injection Ha as <-.
    rewrite Forall_forall in Hrow.
    rewrite <- (Hrow v (nth_error_In _ _ Hk)).
    f_equal. now apply IH.
Qed.

Lemma mix_constant {T : Type} `{MixOps T} (sens po a p : T) (n : nat) :
  mix sens po (repeat a n) (repeat p n)
  = repeat (tmul (tmul a sens) (tcos (tadd p po))) n.
Proof.
  unfold mix. induction n as [|n IH]; simpl; [reflexivity|]. now rewrite IH.
Qed.

Lemma mix_rows_nth_error {T : Type} `{MixOps T} (sens po : T)
    (amps phases : list (list T)) (k : nat) (a p : list T) :
  nth_error amps k = Some a ->
  nth_error phases k = Some p ->
  nth_error (mix_rows sens po amps phases) k = Some (mix sens po a p).
Proof.
  unfold mix_rows. revert phases k.
  induction amps as [|a0 amps IH]; intros [|p0 phases] [|k] Ha Hp;
    simpl in *; try discriminate.
  - now injection Ha as <-; injection Hp as <-.
  - now apply IH.
Qed.

Lemma mix_rows_length {T : Type} `{MixOps T} (sens po : T)
    (amps phases : list (list T)) :
  length (mix_rows sens po amps phases) = Nat.min (length amps) (length phases).
Proof. unfold mix_rows. now rewrite length_map, length_combine. Qed.

Lemma for_each_appends_one {S I A : Type} (proj : S -> list A)
    (body : I -> S -> result S) (g : I -> result A) :
  (forall x s s', body x s = Ok s' -> exists a, g x = Ok a /\ proj s' = proj s ++ [a]) ->
  forall xs s s',
    for_each xs body s = Ok s' ->
    exists l, map_result g xs = Ok l /\ proj s' = proj s ++ l.
Proof.
  intros Hbody xs. induction xs as [|x xs IH]; simpl; intros s s' E.
  - injection E as <-. exists []. split; [reflexivity|]. now rewrite app_nil_r.
  - bind_inv E. destruct (Hbody _ _ _ Ha) as (a0 & Hg & Hp).
    destruct (IH _ _ E) as (l & Hl & Hp').
    exists (a0 :: l). rewrite Hg, Hl. simpl. split; [reflexivity|].
    rewrite Hp', Hp, <- app_assoc. reflexivity.
Qed.

Lemma for_each_total {S I : Type} (body : I -> S -> result S) (xs : list I) :
  (forall x s, In x xs -> exists s', body x s = Ok s') ->
  forall s, exists s', for_each xs body s = Ok s'.
Proof.
  induction xs as [|x xs IH]; simpl; intros Hbody s.
  - eauto.
  - destruct (Hbody x s (or_introl eq_refl)) as (s1 & Hs1). rewrite Hs1. simpl.
    apply IH. intros; apply Hbody; now right.
Qed.

(** One pass through the body of the loop of [_read_data_chunk]. *)
Lemma read_body_spec {T : Type} `{MixOps T} (self : BERelaxFit T)
    (amp ph : list (list T)) (i j : nat) (s s' : chunk_locals T) :
  read_body self amp ph i j s = Ok s' ->
  exists a p,
    gather (read_inds_split self) amp i j = Ok a /\
    gather (read_inds_split self) ph i j = Ok p /\
    amplitude_reshaped s' = amplitude_reshaped s ++ [a] /\
    phase_reshaped s' = phase_reshaped s ++ [p] /\
    mixed_signal s' =
      mix_rows (sensitivity self) (phase_offset self)
               (amplitude_reshaped s') (phase_reshaped s').
Proof.
  unfold read_body, gather. intros E.
  bind_inv E. rename a into inds, Ha into Hinds.
  bind_inv E. rename a into amp_row, Ha into Harow.
  bind_inv E. rename Ha into Htake_a.
  bind_inv E. rename a0 into phase_row, Ha into Hprow.
  bind_inv E. rename a0 into p, Ha into Htake_p.
  exists a, p. rewrite Hinds, Harow, Hprow. simpl. rewrite Htake_a, Htake_p.
  injection E as <-.
  destruct (py_eq (starts_with self) (PyInt 1));
    destruct (py_eq (starts_with self) (PyInt 0)); simpl; repeat split.
Qed.

Lemma read_body_total {T : Type} `{MixOps T} (self : BERelaxFit T)
    (amp ph : list (list T)) (i j : nat) (s : chunk_locals T) (a p : list T) :
  gather (read_inds_split self) amp i j = Ok a ->
  gather (read_inds_split self) ph i j = Ok p ->
  exists s', read_body self amp ph i j s = Ok s'.
Proof.
  unfold read_body, gather. intros Ea Ep.
  bind_inv Ea. rename a0 into inds, Ha into Hinds.
  bind_inv Ea. rename a0 into amp_row, Ha into Harow.
  rewrite Hinds in Ep. simpl in Ep.
  bind_inv Ep. rename a0 into phase_row, Ha into Hprow.
  rewrite Hinds, Harow. simpl. rewrite Ea. simpl. rewrite Hprow. simpl.
  rewrite Ep. simpl. eauto.
Qed.

Lemma gather_total {T : Type} (reads : list (list nat)) (chunk : list (list T))
    (n i j : nat) :
  i < length chunk ->
  j < length reads ->
  Forall (fun row => length row = n) chunk ->
  Forall (Forall (fun k => k < n)) reads ->
  exists a, gather reads chunk i j = Ok a.
Proof.
  intros Hi Hj Hrows Hreads. unfold gather, getitem.
  destruct (nth_error reads j) as [inds|] eqn:Ej;
    [|apply nth_error_None in Ej; lia].
  destruct (nth_error chunk i) as [row|] eqn:Ei;
    [|apply nth_error_None in Ei; lia].
  simpl. unfold take_inds. apply map_result_total.
  intros k Hk.
  rewrite Forall_forall in Hrows, Hreads.
  pose proof (Hrows row (nth_error_In _ _ Ei)) as Hlen.
  pose proof (Hreads inds (nth_error_In _ _ Ej)) as Hb.
  rewrite Forall_forall in Hb. specialize (Hb k Hk).
  unfold getitem. destruct (nth_error row k) as [v|] eqn:Ek; [eauto|].
  apply nth_error_None in Ek. lia.
Qed.

(** What a successful [_read_data_chunk] leaves: the gathered samples of
    every pixel and cycle, pixel-major, and their mix. *)
Lemma read_data_chunk_spec {T : Type} `{MixOps T} (self : BERelaxFit T)
    (start_pos n_pixels : nat) (amp ph : list (list T)) (out : chunk_result T) :
  _read_data_chunk self start_pos n_pixels amp ph = Ok (Some out) ->
  exists lsA lsP,
    map_result (fun i => map_result (gather (read_inds_split self) amp i)
                                    (seq 0 (no_read_offset self)))
               (seq 0 n_pixels) = Ok lsA /\
    map_result (fun i => map_result (gather (read_inds_split self) ph i)
                                    (seq 0 (no_read_offset self)))
               (seq 0 n_pixels) = Ok lsP /\
    amplitude out = concat lsA /\
    phase out = concat lsP /\
    data out = mix_rows (sensitivity self) (phase_offset self)
                        (concat lsA) (concat lsP).
Proof.
  unfold _read_data_chunk. intros E.
  destruct (start_pos <? n_pixels); [|discriminate E].
  bind_inv E. injection E as <-. simpl. rename a into s, Ha into Hloop.
  assert (HA : exists lsA,
             map_result (fun i => map_result (gather (read_inds_split self) amp i)
                                             (seq 0 (no_read_offset self)))
                        (seq 0 n_pixels) = Ok lsA /\
             amplitude_reshaped s = [] ++ concat lsA).
  { revert Hloop.
    apply (for_each_appends (@amplitude_reshaped T)).
    intros i s1 s2.
    apply (for_each_appends_one (@amplitude_reshaped T)).
    intros j s3 s4 Hb.
    destruct (read_body_spec self amp ph i j s3 s4 Hb) as (a & p & Ga & _ & Ea & _).
    eauto. }
  assert (HP : exists lsP,
             map_result (fun i => map_result (gather (read_inds_split self) ph i)
                                             (seq 0 (no_read_offset self)))
                        (seq 0 n_pixels) = Ok lsP /\
             phase_reshaped s = [] ++ concat lsP).
  { revert Hloop.
    apply (for_each_appends (@phase_reshaped T)).
    intros i s1 s2.
    apply (for_each_appends_one (@phase_reshaped T)).
    intros j s3 s4 Hb.
    destruct (read_body_spec self amp ph i j s3 s4 Hb) as (a & p & _ & Gp & _ & Ep & _).
    eauto. }
  assert (HM : mixed_signal s =
               mix_rows (sensitivity self) (phase_offset self)
                        (amplitude_reshaped s) (phase_reshaped s)).
  { revert Hloop.
    pose (P := fun s : chunk_locals T =>
                 mixed_signal s =
                 mix_rows (sensitivity self) (phase_offset self)
                          (amplitude_reshaped s) (phase_reshaped s)).
    apply (for_each_invariant P); [|reflexivity].
    intros i s1 s2 Hs1.
    apply (for_each_invariant P); [|exact Hs1].
    intros j s3 s4 _ Hb. unfold P.
    now destruct (read_body_spec self amp ph i j s3 s4 Hb) as (a & p & _ & _ & _ & _ & Em). }
  destruct HA as (lsA & HlsA & EA). destruct HP as (lsP & HlsP & EP).
  simpl in EA, EP. exists lsA, lsP. rewrite HM, EA, EP. repeat split; assumption.
Qed.

(** The call returns when the chunk has the declared shape and the read
    index sets exist and lie within the steps. *)
Lemma read_data_chunk_returns {T : Type} `{MixOps T} (self : BERelaxFit T)
    (start_pos n_pixels : nat) (amp ph : list (list T)) :
  start_pos < n_pixels ->
  length amp = n_pixels -> length ph = n_pixels ->
  Forall (fun row => length row = no_time_steps self) amp ->
  Forall (fun row => length row = no_time_steps self) ph ->
  no_read_offset self <= length (read_inds_split self) ->
  Forall (Forall (fun k => k < no_time_steps self)) (read_inds_split self) ->
  exists out, _read_data_chunk self start_pos n_pixels amp ph = Ok (Some out).
Proof.
  intros Hstart Hla Hlp Hra Hrp Hnro Hreads. unfold _read_data_chunk.
  apply Nat.ltb_lt in Hstart. rewrite Hstart.
  match goal with
  | |- exists out, (s <- for_each ?xs ?body ?s0 ;; _) = _ =>
      destruct (for_each_total body xs) with (s := s0) as (s & Hs)
  end.
  - intros i s Hi. apply in_seq in Hi.
    apply for_each_total. intros j s1 Hj. apply in_seq in Hj.
    destruct (gather_total (read_inds_split self) amp (no_time_steps self) i j)
      as (a & Ga); try assumption; try lia.
    destruct (gather_total (read_inds_split self) ph (no_time_steps self) i j)
      as (p & Gp); try assumption; try lia.
    exact (read_body_total self amp ph i j s1 a p Ga Gp).
  - rewrite Hs. simpl. eauto.
Qed.

Lemma map_result_Forall {A B : Type} (Q : B -> Prop) (f : A -> result B)
    (xs : list A) (ys : list B) :
  (forall x y, f x = Ok y -> Q y) ->
  map_result f xs = Ok ys -> Forall Q ys.
Proof.
  intros Hf. revert ys. induction xs as [|x xs IH]; simpl; intros ys E.
  - injection E as <-. constructor.
  - bind_inv E. bind_inv E. injection E as <-. constructor; eauto.
Qed.

Lemma gathered_nth_error {T : Type} (reads : list (list nat)) (chunk : list (list T))
    (n_pixels nro : nat) (ls : list (list (list T))) (i j : nat) :
  map_result (fun i => map_result (gather reads chunk i) (seq 0 nro))
             (seq 0 n_pixels) = Ok ls ->
  i < n_pixels -> j < nro ->
  exists a, gather reads chunk i j = Ok a /\
            nth_error (concat ls) (i * nro + j) = Some a.
Proof.
  intros E Hi Hj.
  assert (Hlen : Forall (fun l => length l = nro) ls).
  { eapply map_result_Forall; [|exact E].
    intros x y Hy. simpl in Hy. apply map_result_length in Hy.
    now rewrite length_seq in Hy. }
  destruct (map_result_nth_error _ _ _ E i i) as (l & Hl & Hnth).
  { rewrite nth_error_nth' with (d := 0) by (rewrite length_seq; lia).
    now rewrite seq_nth. }
  destruct (map_result_nth_error _ _ _ Hl j j) as (a & Ha & Hnth').
  { rewrite nth_error_nth' with (d := 0) by (rewrite length_seq; lia).
    now rewrite seq_nth. }
  exists a. split; [exact Ha|].
  rewrite (nth_error_concat_uniform nro ls Hlen i j l Hnth Hj). exact Hnth'.
Qed.

Lemma gather_constant {T : Type} (reads : list (list nat)) (chunk : list (list T))
    (c : T) (i j : nat) (row a : list T) :
  nth_error chunk i = Some row ->
  Forall (eq c) row ->
  gather reads chunk i j = Ok a ->
  exists inds, nth_error reads j = Some inds /\ a = repeat c (length inds).
Proof.
  intros Hrow Hc E. unfold gather in E.
  bind_inv E. rename a0 into inds. bind_inv E.
  unfold getitem in Ha, Ha0. rewrite Hrow in Ha0. injection Ha0 as <-.
  destruct (nth_error reads j) as [inds'|]; [|discriminate Ha].
  injection Ha as <-. exists inds'. split; [reflexivity|].
  exact (take_inds_constant c row inds' a Hc E).
Qed.

(** The read-branch signal of a pixel of amplitude 1 and phase 0, in a run
    of [_read_data_chunk] that returned. *)
Lemma read_signal_constant_of_run {T : Type} `{MixOps T} (one zero : T)
    (self : BERelaxFit T) (start_pos n_pixels : nat) (amp ph : list (list T))
    (out : chunk_result T) (i j : nat) (row_a row_p : list T) :
  (forall x, tmul one x = x) ->
  (forall x, tadd zero x = x) ->
  _read_data_chunk self start_pos n_pixels amp ph = Ok (Some out) ->
  i < n_pixels -> j < no_read_offset self ->
  nth_error amp i = Some row_a -> Forall (eq one) row_a ->
  nth_error ph i = Some row_p -> Forall (eq zero) row_p ->
  exists inds,
    nth_error (read_inds_split self) j = Some inds /\
    nth_error (data out) (i * no_read_offset self + j)
    = Some (repeat (tmul (sensitivity self) (tcos (phase_offset self)))
                   (length inds)).
Proof.
  intros Hmul Hadd E Hi Hj Hra Hone Hrp Hzero.
  destruct (read_data_chunk_spec self start_pos n_pixels amp ph out E)
    as (lsA & lsP & HlsA & HlsP & _ & _ & Hdata).
  destruct (gathered_nth_error _ _ _ _ _ i j HlsA Hi Hj) as (a & Ga & Na).
  destruct (gathered_nth_error _ _ _ _ _ i j HlsP Hi Hj) as (p & Gp & Np).
  destruct (gather_constant _ _ one i j row_a a Hra Hone Ga) as (inds & Hinds & ->).
  destruct (gather_constant _ _ zero i j row_p p Hrp Hzero Gp) as (inds' & Hinds' & ->).
  rewrite Hinds in Hinds'. injection Hinds' as <-.
  exists inds. split; [exact Hinds|].
  rewrite Hdata.
  rewrite (mix_rows_nth_error _ _ _ _ _ _ _ Na Np).
  now rewrite mix_constant, Hmul, Hadd.
Qed.

(** ** NumPy: sorting, [unique] and [setxor1d] *)

Lemma increasing_nondecreasing (l : list nat) : increasing l -> nondecreasing l.
Proof.
  induction 1 as [|x l Hl IH Hx]; constructor; [exact IH|].
  eapply Forall_impl; [|exact Hx]. intros; lia.
Qed.

Lemma increasing_NoDup (l : list nat) : increasing l -> NoDup l.
Proof.
  induction 1 as [|x l Hl IH Hx]; constructor; [|exact IH].
  intros Hin. rewrite Forall_forall in Hx. specialize (Hx x Hin). lia.
Qed.

Lemma increasing_seq (start len : nat) : increasing (seq start len).
Proof.
  revert start. induction len as [|len IH]; intros start; simpl; constructor.
  - apply IH.
  - apply Forall_forall. intros x Hx. apply in_seq in Hx. lia.
Qed.

Lemma increasing_filter (f : nat -> bool) (l : list nat) :
  increasing l -> increasing (filter f l).
Proof.
  induction 1 as [|x l Hl IH Hx]; simpl; [constructor|].
  destruct (f x); [|exact IH].
  constructor; [exact IH|].
  rewrite Forall_forall in *. intros y Hy. apply filter_In in Hy. now apply Hx.
Qed.

(** Two increasing lists with the same elements are the same list. *)
Lemma increasing_ext (l1 l2 : list nat) :
  increasing l1 -> increasing l2 ->
  (forall x, In x l1 <-> In x l2) -> l1 = l2.
Proof.
  intros H1. revert l2.
  induction H1 as [|x1 t1 Ht1 IH Hx1]; intros l2 H2 Hin.
  - destruct l2 as [|x2 t2]; [reflexivity|].
    exfalso. apply (proj2 (Hin x2)). now left.
  - destruct H2 as [|x2 t2 Ht2 Hx2].
    + exfalso. apply (proj1 (Hin x1)). now left.
    + rewrite Forall_forall in Hx1, Hx2.
      assert (x1 = x2) as <-.
      { destruct (proj1 (Hin x1) (or_introl eq_refl)) as [E|Hin1]; [now symmetry|].
        destruct (proj2 (Hin x2) (or_introl eq_refl)) as [E|Hin2]; [exact E|].
        specialize (Hx1 _ Hin2). specialize (Hx2 _ Hin1). lia. }
      f_equal. apply IH; [exact Ht2|].
      intros y. split; intros Hy.
      * destruct (proj1 (Hin y) (or_intror Hy)) as [E|Hy']; [|exact Hy'].
        specialize (Hx1 _ Hy). lia.
      * destruct (proj2 (Hin y) (or_intror Hy)) as [E|Hy']; [|exact Hy'].
        specialize (Hx2 _ Hy). lia.
Qed.

Lemma insert_perm (x : nat) (l : list nat) : Permutation (np.insert x l) (x :: l).
Proof.
  induction l as [|y l IH]; simpl; [reflexivity|].
  destruct (x <=? y); [reflexivity|].
  rewrite IH. apply perm_swap.
Qed.

Lemma sort_perm (l : list nat) : Permutation (np.sort l) l.
Proof.
  induction l as [|x l IH]; simpl; [reflexivity|].
  rewrite insert_perm. now constructor.
Qed.

Lemma insert_nondecreasing (x : nat) (l : list nat) :
  nondecreasing l -> nondecreasing (np.insert x l).
Proof.
  induction 1 as [|y l Hl IH Hy]; simpl.
  - repeat constructor.
  - destruct (x <=? y) eqn:E.
    + apply Nat.leb_le in E. constructor.
      * now constructor.
      * constructor; [exact E|].
        eapply Forall_impl; [|exact Hy]. intros; lia.
    + apply Nat.leb_gt in E. constructor; [exact IH|].
      rewrite Forall_forall in *. intros z Hz.
      apply (Permutation_in _ (insert_perm x l)) in Hz.
      destruct Hz as [<-|Hz]; [lia | now apply Hy].
Qed.

Lemma sort_nondecreasing (l : list nat) : nondecreasing (np.sort l).
Proof.
  induction l as [|x l IH]; simpl; [constructor|].
  now apply insert_nondecreasing.
Qed.

Lemma sort_sorted (l : list nat) : nondecreasing l -> np.sort l = l.
Proof.
  induction 1 as [|x l Hl IH Hx]; simpl; [reflexivity|].
  rewrite IH. destruct l as [|y l]; simpl; [reflexivity|].
  inversion Hx as [|? ? Hxy _]; subst.
  apply Nat.leb_le in Hxy. now rewrite Hxy.
Qed.

(** [unique] after the sort: the elements that differ from their
    predecessor. *)
Lemma dedup_tail_spec (t : list nat) :
  forall x, nondecreasing (x :: t) ->
    increasing (np.select_mask (np.adjacent_ne (x :: t)) t) /\
    Forall (lt x) (np.select_mask (np.adjacent_ne (x :: t)) t) /\
    (forall z, In z (np.select_mask (np.adjacent_ne (x :: t)) t) <-> In z t /\ z <> x).
Proof.
  induction t as [|y t IH]; intros x Hs.
  - simpl. split; [constructor|]. split; [constructor|].
    intros z. split; [intros [] | intros [[] _]].
  - inversion Hs as [|? ? Hs' Hx]; subst.
    destruct (IH y Hs') as (Hinc & Hlt & Hin).
    inversion Hx as [|? ? Hxy Hxt]; subst.
    change (np.adjacent_ne (x :: y :: t))
      with (negb (y =? x) :: np.adjacent_ne (y :: t)).
    destruct (y =? x) eqn:E; simpl negb; cbn [np.select_mask].
    + apply Nat.eqb_eq in E. subst y.
      split; [exact Hinc|]. split; [exact Hlt|].
      intros z. split.
      * intros Hz. apply Hin in Hz. destruct Hz as (Hz & Hne).
        split; [now right | exact Hne].
      * intros (Hz & Hne). apply Hin. destruct Hz as [<-|Hz]; [congruence|].
        now split.
    + apply Nat.eqb_neq in E.
      split; [now constructor|]. split.
      { constructor; [lia|]. eapply Forall_impl; [|exact Hlt]. intros; lia. }
      intros z. split.
      * intros [<-|Hz].
        -- split; [now left | exact E].
        -- pose proof Hz as Hz'. apply Hin in Hz'. destruct Hz' as (Hzt & _).
           split; [now right|].
           rewrite Forall_forall in Hlt. specialize (Hlt _ Hz). lia.
      * intros ([<-|Hz] & Hne); [now left|].
        destruct (Nat.eq_dec z y) as [->|Hzy]; [now left|].
        right. apply Hin. now split.
Qed.

Lemma unique_spec (l : list nat) :
  increasing (np.unique l) /\ (forall z, In z (np.unique l) <-> In z l).
Proof.
  unfold np.unique.
  pose proof (sort_nondecreasing l) as Hs.
  pose proof (sort_perm l) as Hp.
  destruct (np.sort l) as [|x t].
  - simpl. split; [constructor|]. intros z. split; [intros []|].
    intros Hz. apply (Permutation_in _ (Permutation_sym Hp)) in Hz. exact Hz.
  - destruct (dedup_tail_spec t x Hs) as (Hinc & Hlt & Hin).
    cbn [np.select_mask]. split.
    + now constructor.
    + intros z. split.
      * intros [<-|Hz].
        -- apply (Permutation_in _ Hp). now left.
        -- apply (Permutation_in _ Hp). right. now apply Hin.
      * intros Hz. apply (Permutation_in _ (Permutation_sym Hp)) in Hz.
        destruct Hz as [<-|Hz]; [now left|].
        destruct (Nat.eq_dec z x) as [->|Hzx]; [now left|].
        right. apply Hin. now split.
Qed.

Lemma unique_increasing (l : list nat) : increasing l -> np.unique l = l.
Proof.
  intros Hl. destruct (unique_spec l) as (Hinc & Hin).
  now apply increasing_ext.
Qed.

Lemma count_occ_above (x : nat) (l : list nat) :
  Forall (lt x) l -> count_occ Nat.eq_dec l x = 0.
Proof.
  intros Hl. apply count_occ_not_In. intros Hin.
  rewrite Forall_forall in Hl. specialize (Hl _ Hin). lia.
Qed.

(** The selection of [setxor1d] after the sort: the elements that differ
    from both neighbours, i.e. that occur once.  [p] stands for the flag of
    the first element. *)
Lemma singles_spec (l : list nat) :
  forall p, nondecreasing l ->
    increasing (np.select_mask
                  (np.zip_and (np.adjacent_ne l ++ [true]) (p :: np.adjacent_ne l)) l) /\
    (forall z,
        In z (np.select_mask
                (np.zip_and (np.adjacent_ne l ++ [true]) (p :: np.adjacent_ne l)) l)
        <-> count_occ Nat.eq_dec l z = 1 /\ (p = true \/ hd_error l <> Some z)).
Proof.
  induction l as [|x l IH]; intros p Hs.
  - simpl. split; [constructor|]. intros z. split; [intros [] | intros [E _]; discriminate E].
  - inversion Hs as [|? ? Hs' Hx]; subst.
    destruct l as [|y t].
    + simpl. destruct p; simpl.
      * split; [repeat constructor|]. intros z. split.
        -- intros [<-|[]]. destruct (Nat.eq_dec x x); [auto | congruence].
        -- intros [E _]. destruct (Nat.eq_dec x z); [now left | discriminate E].
      * split; [constructor|]. intros z. split; [intros []|].
        intros [E [Hp|Hne]]; [discriminate Hp|].
        destruct (Nat.eq_dec x z); [congruence | discriminate E].
    + destruct (IH (negb (y =? x)) Hs') as (Hinc & Hin). clear IH.
      inversion Hx as [|? ? Hxy Hxt]; subst.
      change (np.adjacent_ne (x :: y :: t))
        with (negb (y =? x) :: np.adjacent_ne (y :: t)).
      cbn [app np.zip_and np.select_mask].
      set (sel := np.select_mask
                  (np.zip_and (np.adjacent_ne (y :: t) ++ [true])
                              (negb (y =? x) :: np.adjacent_ne (y :: t))) (y :: t)) in *.
      destruct (y =? x) eqn:E; simpl negb in *; cbn [andb].
      * (* y = x: the head is not selected, nor is its copy *)
        apply Nat.eqb_eq in E. subst y.
        split; [exact Hinc|]. intros z. rewrite Hin.
        cbn [count_occ hd_error].
        destruct (Nat.eq_dec x z) as [->|Hne].
        -- split.
           ++ intros [_ [Hf|Hf]]; [discriminate Hf | congruence].
           ++ intros [Hc _]. lia.
        -- split.
           ++ intros [Hc _]. split; [exact Hc|]. right. congruence.
           ++ intros [Hc _]. split; [exact Hc|]. right. congruence.
      * (* x < y *)
        apply Nat.eqb_neq in E.
        assert (Hlt : Forall (lt x) (y :: t)).
        { constructor; [lia|].
          inversion Hs' as [|? ? _ Hyt]; subst.
          eapply Forall_impl; [|exact Hyt]. intros; lia. }
        assert (Hsel : Forall (lt x) sel).
        { rewrite Forall_forall in *. intros z Hz. apply Hin in Hz.
          destruct Hz as [Hc _]. apply Hlt.
          apply (count_occ_In Nat.eq_dec). lia. }
        assert (Hin' : forall z, In z sel <-> count_occ Nat.eq_dec (y :: t) z = 1).
        { intros z. rewrite Hin. split; [now intros [Hc _] | auto]. }
        destruct p.
        -- split; [now constructor|]. intros z. simpl In. rewrite Hin'.
           change (count_occ Nat.eq_dec (x :: y :: t) z)
             with (if Nat.eq_dec x z then S (count_occ Nat.eq_dec (y :: t) z)
                   else count_occ Nat.eq_dec (y :: t) z).
           destruct (Nat.eq_dec x z) as [->|Hne].
           ++ rewrite (count_occ_above z (y :: t) Hlt). split; auto.
           ++ split.
              ** intros [Hf|Hc]; [congruence | auto].
              ** intros [Hc _]. now right.
        -- split; [exact Hinc|]. intros z. rewrite Hin'.
           change (count_occ Nat.eq_dec (x :: y :: t) z)
             with (if Nat.eq_dec x z then S (count_occ Nat.eq_dec (y :: t) z)
                   else count_occ Nat.eq_dec (y :: t) z).
           cbn [hd_error].
           destruct (Nat.eq_dec x z) as [->|Hne].
           ++ rewrite (count_occ_above z (y :: t) Hlt). split.
              ** intros Hf; discriminate Hf.
              ** intros [_ [Hf|Hf]]; [discriminate Hf | congruence].
           ++ split.
              ** intros Hc. split; [exact Hc|]. right. congruence.
              ** now intros [Hc _].
Qed.

Lemma existsb_eqb_In (z : nat) (l : list nat) :
  existsb (Nat.eqb z) l = true <-> In z l.
Proof.
  rewrite existsb_exists. split.
  - intros (x & Hx & E). apply Nat.eqb_eq in E. now subst.
  - intros Hz. exists z. split; [exact Hz | apply Nat.eqb_refl].
Qed.

Lemma count_occ_NoDup (l : list nat) (z : nat) :
  NoDup l -> count_occ Nat.eq_dec l z = if in_dec Nat.eq_dec z l then 1 else 0.
Proof.
  intros Hnd.
  destruct (in_dec Nat.eq_dec z l) as [Hin|Hout].
  - apply (count_occ_In Nat.eq_dec) in Hin.
    pose proof (proj1 (NoDup_count_occ Nat.eq_dec l) Hnd z). lia.
  - now apply count_occ_not_In.
Qed.

(** [setxor1d] of an increasing array and an array of elements of it: the
    elements of the first that are not in the second, in order. *)
Lemma setxor1d_flat_subset (a b : list nat) :
  increasing a -> incl b a ->
  np.setxor1d_flat a b = filter (fun x => negb (existsb (Nat.eqb x) b)) a.
Proof.
  intros Ha Hb. unfold np.setxor1d_flat.
  rewrite (unique_increasing a Ha).
  destruct (unique_spec b) as (Hu & Hinu).
  destruct (singles_spec (np.sort (a ++ np.unique b)) true (sort_nondecreasing _))
    as (Hinc & Hin).
  apply increasing_ext; [exact Hinc | now apply increasing_filter |].
  intros z. rewrite Hin, filter_In.
  rewrite (proj1 (Permutation_count_occ Nat.eq_dec _ _) (sort_perm _) z).
  rewrite count_occ_app.
  rewrite (count_occ_NoDup a z (increasing_NoDup a Ha)).
  rewrite (count_occ_NoDup (np.unique b) z (increasing_NoDup _ Hu)).
  rewrite negb_true_iff.
  destruct (in_dec Nat.eq_dec z a) as [Hza|Hza];
    destruct (in_dec Nat.eq_dec z (np.unique b)) as [Hzb|Hzb].
  - split; [intros [E _]; discriminate E|].
    intros [_ E]. apply Hinu in Hzb. apply existsb_eqb_In in Hzb. congruence.
  - split; [|auto]. intros _. split; [exact Hza|].
    destruct (existsb (Nat.eqb z) b) eqn:E; [|reflexivity].
    apply existsb_eqb_In in E. apply Hinu in E. contradiction.
  - exfalso. apply Hza, Hb. now apply Hinu.
  - split; [intros [E _]; discriminate E | intros [Hf _]; contradiction].
Qed.

(** ** NumPy: [array_split] and [split] *)

Lemma list_sum_repeat (x n : nat) : list_sum (repeat x n) = n * x.
Proof. induction n as [|n IH]; simpl; [reflexivity|]. now rewrite IH. Qed.

Lemma firstn_repeat_min {A : Type} (x : A) (k n : nat) :
  firstn k (repeat x n) = repeat x (Nat.min k n).
Proof.
  revert k. induction n as [|n IH]; intros [|k]; simpl; try reflexivity.
  now rewrite IH.
Qed.

Lemma cumsum_from_nth (l : list nat) :
  forall acc i, i < length l ->
    nth i (np.cumsum_from acc l) 0 = acc + list_sum (firstn (S i) l).
Proof.
  induction l as [|x l IH]; intros acc i Hi; simpl in Hi; [lia|].
  destruct i as [|i].
  - simpl. destruct l; simpl; lia.
  - change (nth (S i) (np.cumsum_from acc (x :: l)) 0)
      with (nth i (np.cumsum_from (acc + x) l) 0).
    rewrite IH by lia.
    change (firstn (S (S i)) (x :: l)) with (x :: firstn (S i) l).
    simpl list_sum. lia.
Qed.

Lemma div_points_nth (q e m i : nat) :
  i <= e + m ->
  nth i (np.cumsum (0 :: repeat (q + 1) e ++ repeat q m)) 0 = split_point q e i.
Proof.
  intros Hi. unfold np.cumsum.
  rewrite cumsum_from_nth
    by (simpl; rewrite length_app, !repeat_length; lia).
  change (firstn (S i) (0 :: repeat (q + 1) e ++ repeat q m))
    with (0 :: firstn i (repeat (q + 1) e ++ repeat q m)).
  simpl list_sum.
  rewrite firstn_app, list_sum_app, !firstn_repeat_min, !list_sum_repeat, repeat_length.
  unfold split_point.
  replace (Nat.min (i - e) m) with (i - e) by lia. reflexivity.
Qed.

Lemma array_split_spec {A : Type} (ary : list A) (sections : nat) :
  sections <> 0 ->
  np.array_split ary sections =
  Ok (map (fun i => slice (split_point (length ary / sections)
                                       (length ary mod sections) i)
                          (split_point (length ary / sections)
                                       (length ary mod sections) (i + 1)) ary)
          (seq 0 sections)).
Proof.
  intros Hs. unfold np.array_split.
  apply Nat.eqb_neq in Hs. rewrite Hs. apply Nat.eqb_neq in Hs.
  f_equal. apply map_ext_in. intros i Hi. apply in_seq in Hi.
  pose proof (Nat.mod_upper_bound (length ary) sections Hs) as He.
  rewrite !div_points_nth by lia. reflexivity.
Qed.

Lemma firstn_seq_min (k start n : nat) :
  firstn k (seq start n) = seq start (Nat.min k n).
Proof.
  revert k start. induction n as [|n IH]; intros [|k] start; simpl; try reflexivity.
  now rewrite IH.
Qed.

Lemma slice_seq (lo hi n : nat) :
  slice lo hi (seq 0 n) = seq lo (Nat.min (hi - lo) (n - lo)).
Proof.
  unfold slice. rewrite skipn_seq. simpl.
  apply firstn_seq_min.
Qed.

Lemma split_point_exact (q i : nat) : split_point q 0 i = i * q.
Proof. unfold split_point. rewrite Nat.min_0_r, Nat.sub_0_r. lia. Qed.

(** An array whose length is a multiple of the number of sections is cut
    into consecutive sub-arrays of one size. *)
Lemma array_split_exact {A : Type} (ary : list A) (sections q : nat) :
  sections <> 0 -> length ary = sections * q ->
  np.array_split ary sections =
  Ok (map (fun i => slice (i * q) ((i + 1) * q) ary) (seq 0 sections)).
Proof.
  intros Hs Hlen. rewrite array_split_spec by exact Hs.
  rewrite Hlen, Nat.mul_comm, Nat.div_mul by exact Hs.
  rewrite Nat.Div0.mod_mul.
  f_equal. apply map_ext. intros i. now rewrite !split_point_exact.
Qed.

Lemma arange_split_exact (sections q : nat) :
  sections <> 0 ->
  np.array_split (np.arange (sections * q)) sections =
  Ok (map (fun i => seq (i * q) q) (seq 0 sections)).
Proof.
  intros Hs. unfold np.arange.
  rewrite (array_split_exact _ sections q Hs) by apply length_seq.
  f_equal. apply map_ext_in. intros i Hi. apply in_seq in Hi.
  rewrite slice_seq. f_equal. nia.
Qed.

Lemma slice_concat_uniform {A : Type} (n : nat) (ls : list (list A)) :
  Forall (fun l => length l = n) ls ->
  map (fun i => slice (i * n) ((i + 1) * n) (concat ls)) (seq 0 (length ls)) = ls.
Proof.
  induction 1 as [|l0 ls Hl0 Hls IH]; [reflexivity|].
  cbn [length seq map concat]. f_equal.
  - unfold slice. simpl. rewrite Nat.add_0_r, Nat.sub_0_r.
    rewrite firstn_app, Hl0, Nat.sub_diag, firstn_all2 by lia.
    simpl. apply app_nil_r.
  - rewrite <- seq_shift, map_map. rewrite <- IH at 2.
    apply map_ext. intros i. unfold slice.
    rewrite skipn_app, Hl0.
    rewrite (skipn_all2 l0) by lia. simpl.
    f_equal; [lia | f_equal; lia].
Qed.

(** [np.split] gives back the rows of a flattened array whose rows have
    one length. *)
Lemma split_concat_uniform {A : Type} (n : nat) (ls : list (list A)) :
  ls <> [] ->
  Forall (fun l => length l = n) ls ->
  np.split (concat ls) (length ls) = Ok ls.
Proof.
  intros Hne Hls. unfold np.split.
  assert (Hc : length ls <> 0) by (destruct ls; simpl; congruence).
  apply Nat.eqb_neq in Hc. rewrite Hc. apply Nat.eqb_neq in Hc.
  rewrite (concat_length_uniform n ls Hls), (Nat.mul_comm (length ls) n),
    Nat.Div0.mod_mul. simpl.
  rewrite (array_split_exact _ (length ls) n Hc (concat_length_uniform n ls Hls)).
  f_equal. now apply slice_concat_uniform.
Qed.

Lemma concat_blocks (b n : nat) :
  concat (map (fun i => seq (i * b) b) (seq 0 n)) = seq 0 (n * b).
Proof.
  induction n as [|n IH]; [reflexivity|].
  rewrite seq_S, map_app, concat_app, IH. simpl.
  rewrite app_nil_r. replace (b + n * b) with (n * b + b) by lia.
  now rewrite seq_app.
Qed.

Lemma same_length_uniform {A : Type} (n : nat) (rows : list (list A)) :
  Forall (fun r => length r = n) rows -> np.same_length rows = true.
Proof.
  intros H. destruct H as [|r rows Hr Hrows]; [reflexivity|].
  simpl. apply forallb_forall. intros r' Hr'.
  rewrite Forall_forall in Hrows. apply Nat.eqb_eq. rewrite Hr. now apply Hrows.
Qed.

Lemma same_length_inv {A : Type} (rows : list (list A)) (r1 r2 : list A) :
  np.same_length rows = true -> In r1 rows -> In r2 rows -> length r1 = length r2.
Proof.
  destruct rows as [|r rows]; [intros _ []|].
  simpl. intros H H1 H2. rewrite forallb_forall in H.
  assert (Hall : forall r', In r' (r :: rows) -> length r' = length r).
  { intros r' [<-|Hr']; [reflexivity|]. apply Nat.eqb_eq. now apply H. }
  rewrite (Hall _ H1), (Hall _ H2). reflexivity.
Qed.

Lemma ravel_uniform {A : Type} (n : nat) (rows : list (list A)) :
  Forall (fun r => length r = n) rows -> np.ravel rows = Ok (concat rows).
Proof. intros H. unfold np.ravel. now rewrite (same_length_uniform n rows H). Qed.

Lemma windows_length (b o l n : nat) : length (windows b o l n) = n.
Proof. unfold windows. now rewrite length_map, length_seq. Qed.

Lemma windows_uniform (b o l n : nat) :
  Forall (fun r => length r = l) (windows b o l n).
Proof.
  unfold windows. apply Forall_forall. intros r Hr.
  apply in_map_iff in Hr. destruct Hr as (i & <- & _). apply length_seq.
Qed.

Lemma window_complements_uniform (b o l n : nat) :
  o + l <= b ->
  Forall (fun r => length r = b - l) (window_complements b o l n).
Proof.
  intros Hb. unfold window_complements. apply Forall_forall. intros r Hr.
  apply in_map_iff in Hr. destruct Hr as (i & <- & _).
  rewrite length_app, !length_seq. lia.
Qed.

Lemma in_windows (b o l n x : nat) :
  In x (concat (windows b o l n)) <->
  exists i, i < n /\ i * b + o <= x < i * b + o + l.
Proof.
  rewrite in_concat. unfold windows. split.
  - intros (r & Hr & Hx). apply in_map_iff in Hr. destruct Hr as (i & <- & Hi).
    apply in_seq in Hi. apply in_seq in Hx. exists i. lia.
  - intros (i & Hi & Hx). exists (seq (i * b + o) l). split.
    + apply in_map_iff. exists i. split; [reflexivity|]. apply in_seq. lia.
    + apply in_seq. lia.
Qed.

Lemma block_index_unique (b i j x : nat) :
  i * b <= x < i * b + b -> j * b <= x < j * b + b -> i = j.
Proof.
  intros Hi Hj.
  destruct (Nat.lt_trichotomy i j) as [Hlt|[E|Hlt]]; [|exact E|].
  - assert ((i + 1) * b <= j * b) by (apply Nat.mul_le_mono_r; lia). lia.
  - assert ((j + 1) * b <= i * b) by (apply Nat.mul_le_mono_r; lia). lia.
Qed.

Lemma filter_all {A : Type} (f : A -> bool) (l : list A) :
  (forall x, In x l -> f x = true) -> filter f l = l.
Proof. intros H. apply forallb_filter_id. now apply forallb_forall. Qed.

Lemma filter_none {A : Type} (f : A -> bool) (l : list A) :
  (forall x, In x l -> f x = false) -> filter f l = [].
Proof.
  induction l as [|x l IH]; intros H; simpl; [reflexivity|].
  rewrite (H x (or_introl eq_refl)). apply IH. intros; apply H; now right.
Qed.

Lemma filter_out_interval (s n lo hi : nat) :
  s <= lo -> lo <= hi -> hi <= s + n ->
  filter (fun x => negb ((lo <=? x) && (x <? hi))) (seq s n)
  = seq s (lo - s) ++ seq hi (s + n - hi).
Proof.
  intros H1 H2 H3.
  replace n with ((lo - s) + ((hi - lo) + (s + n - hi))) at 1 by lia.
  rewrite !seq_app, !filter_app.
  replace (s + (lo - s)) with lo by lia.
  replace (lo + (hi - lo)) with hi by lia.
  rewrite filter_all, filter_none, filter_all; [reflexivity| | |];
    intros x Hx; apply in_seq in Hx.
  - apply negb_true_iff, andb_false_iff. right. apply Nat.ltb_ge. lia.
  - apply negb_false_iff, andb_true_iff.
    split; [apply Nat.leb_le | apply Nat.ltb_lt]; lia.
  - apply negb_true_iff, andb_false_iff. left. apply Nat.leb_gt. lia.
Qed.

Lemma windows_zero (b n : nat) : windows b 0 b n = blocks b n.
Proof.
  unfold windows, blocks. apply map_ext. intros i. now rewrite Nat.add_0_r.
Qed.

Lemma windows_empty (b o n : nat) : concat (windows b o 0 n) = [].
Proof.
  unfold windows. induction (seq 0 n) as [|i l IH]; simpl; [reflexivity|exact IH].
Qed.

(** The symmetric difference of the blocks and of one window per block is
    what the windows leave of the blocks, block after block. *)
Lemma setxor1d_blocks (b n o l : nat) (reads : list (list nat)) :
  o + l <= b ->
  np.ravel reads = Ok (concat (windows b o l n)) ->
  np.setxor1d (blocks b n) reads = Ok (concat (window_complements b o l n)).
Proof.
  intros Hb Hreads. unfold np.setxor1d.
  rewrite (ravel_uniform b (blocks b n))
    by (rewrite <- windows_zero; apply windows_uniform).
  rewrite Hreads. simpl. f_equal.
  unfold blocks at 1. rewrite concat_blocks.
  rewrite setxor1d_flat_subset.
  - rewrite <- (concat_blocks b n), <- concat_filter_map, map_map.
    f_equal. unfold window_complements. apply map_ext_in.
    intros i Hi. apply in_seq in Hi.
    transitivity (filter (fun x => negb ((i * b + o <=? x) && (x <? i * b + o + l)))
                         (seq (i * b) b)).
    + apply filter_ext_in. intros x Hx. apply in_seq in Hx. f_equal.
      destruct ((i * b + o <=? x) && (x <? i * b + o + l)) eqn:E.
      * apply andb_true_iff in E. destruct E as [E1 E2].
        apply Nat.leb_le in E1. apply Nat.ltb_lt in E2.
        apply existsb_eqb_In, in_windows. exists i. lia.
      * destruct (existsb (Nat.eqb x) (concat (windows b o l n))) eqn:E'; [|reflexivity].
        apply existsb_eqb_In, in_windows in E'. destruct E' as (j & Hj & Hx').
        assert (i = j) as <- by (apply (block_index_unique b i j x); lia).
        apply andb_false_iff in E.
        destruct E as [E|E]; [apply Nat.leb_gt in E | apply Nat.ltb_ge in E]; lia.
    + rewrite filter_out_interval by lia. f_equal; f_equal; lia.
  - apply increasing_seq.
  - intros x Hx. apply in_windows in Hx. destruct Hx as (i & Hi & Hx).
    apply in_seq.
    assert ((i + 1) * b <= n * b) by (apply Nat.mul_le_mono_r; lia). lia.
Qed.

(** ** The constructor's partition *)

Lemma norm_bound_nonneg (w len : nat) : norm_bound (Z.of_nat w) len = Nat.min w len.
Proof.
  unfold norm_bound.
  destruct (Z.ltb_spec (Z.of_nat w) 0) as [H|H]; [lia|].
  now rewrite Nat2Z.id.
Qed.

Lemma norm_bound_negated (w len : nat) :
  norm_bound (- Z.of_nat w) len = if w =? 0 then 0 else len - w.
Proof.
  unfold norm_bound. destruct (Nat.eqb_spec w 0) as [->|Hw].
  - reflexivity.
  - destruct (Z.ltb_spec (- Z.of_nat w) 0) as [H|H]; lia.
Qed.

Lemma slice_from_seq (w s b : nat) :
  slice_from (Z.of_nat w) (seq s b) = seq (s + Nat.min w b) (b - Nat.min w b).
Proof.
  unfold slice_from. rewrite length_seq, norm_bound_nonneg. apply skipn_seq.
Qed.

Lemma slice_to_negated_seq (w s b : nat) :
  slice_to (- Z.of_nat w) (seq s b) = seq s (if w =? 0 then 0 else b - w).
Proof.
  unfold slice_to. rewrite length_seq, norm_bound_negated, firstn_seq_min.
  f_equal. destruct (w =? 0); lia.
Qed.

Lemma py_eq_str (sw : pyval) (name : string) :
  py_eq sw (PyStr name) = true -> sw = PyStr name.
Proof.
  destruct sw as [s|z]; simpl; [|discriminate].
  intros E. apply String.eqb_eq in E. now subst.
Qed.

Lemma nth_blocks (b n i : nat) : i < n -> nth i (blocks b n) [] = seq (i * b) b.
Proof.
  intros Hi. unfold blocks.
  rewrite (nth_indep _ [] (seq (0 * b) b)) by (rewrite length_map, length_seq; lia).
  rewrite (map_nth (fun i => seq (i * b) b)). now rewrite seq_nth.
Qed.

Lemma window_complements_length (b o l n : nat) :
  length (window_complements b o l n) = n.
Proof. unfold window_complements. now rewrite length_map, length_seq. Qed.

Lemma split_window_complements (b o l n : nat) :
  n <> 0 -> o + l <= b ->
  np.split (concat (window_complements b o l n)) n
  = Ok (window_complements b o l n).
Proof.
  intros Hn Hb.
  rewrite <- (window_complements_length b o l n) at 2.
  apply (split_concat_uniform (b - l)).
  - intros E. apply (f_equal (@length _)) in E.
    rewrite window_complements_length in E. simpl in E. contradiction.
  - now apply window_complements_uniform.
Qed.

(** When the steps divide into one block of [b] steps per cycle, the
    constructor returns, and the partition is made of the blocks, of one
    window of read steps per block and of what the windows leave. *)
Theorem init_exact :
  forall (T : Type) (md : ScanMetadata) (method : string) (sens phase_off : T)
         (sw : pyval) (b : nat),
    spec_inds_zeros md / 2 <> 0 ->
    num_steps md = spec_inds_zeros md / 2 * b ->
    __init__ md method sens phase_off sw
    = Ok (partitioned md method sens phase_off sw b).
Proof.
  intros T md method sens phase_off sw b HC HN.
  unfold __init__, partitioned. rewrite HN.
  set (C := spec_inds_zeros md / 2) in *.
  set (w := VS_num_meas_per_write_step md).
  rewrite (arange_split_exact C b HC). fold (blocks b C). simpl bind.
  assert (Hw : map (fun i => slice_from (Z.of_nat w) (nth i (blocks b C) []))
                   (seq 0 C)
               = windows b (Nat.min w b) (b - Nat.min w b) C).
  { unfold windows. apply map_ext_in. intros i Hi. apply in_seq in Hi.
    rewrite nth_blocks by lia. apply slice_from_seq. }
  assert (Hr : map (fun i => slice_to (- Z.of_nat w) (nth i (blocks b C) []))
                   (seq 0 C)
               = windows b 0 (if w =? 0 then 0 else b - w) C).
  { unfold windows. apply map_ext_in. intros i Hi. apply in_seq in Hi.
    rewrite nth_blocks by lia. rewrite slice_to_negated_seq.
    now rewrite Nat.add_0_r. }
  rewrite Hw, Hr. unfold read_window. fold w.
  destruct (py_eq sw (PyStr "write")) eqn:E1.
  - apply py_eq_str in E1. subst sw. simpl py_eq. cbn [fst snd].
    rewrite (setxor1d_blocks b C (Nat.min w b) (b - Nat.min w b)) by
      (try lia; apply (ravel_uniform (b - Nat.min w b)), windows_uniform).
    simpl bind.
    rewrite split_window_complements by (try assumption; lia).
    reflexivity.
  - destruct (py_eq sw (PyStr "read")) eqn:E2.
    + cbn [fst snd app].
      assert (Hle : 0 + (if w =? 0 then 0 else b - w) <= b)
        by (destruct (w =? 0); lia).
      rewrite (setxor1d_blocks b C 0 (if w =? 0 then 0 else b - w)) by
        (try assumption; apply (ravel_uniform (if w =? 0 then 0 else b - w)),
                         windows_uniform).
      simpl bind.
      rewrite split_window_complements by assumption.
      reflexivity.
    + rewrite (setxor1d_blocks b C 0 0) by
        (try lia; rewrite windows_empty; reflexivity).
      simpl bind.
      rewrite split_window_complements by (try assumption; lia).
      reflexivity.
Qed.

Lemma array_split_zero_sections {A : Type} (ary : list A) :
  np.array_split ary 0 = Raise ValueError.
Proof. reflexivity. Qed.

(** When the number of sections does not divide the length of [arange], the
    first sub-array is longer than the last. *)
Lemma arange_split_ragged (n sections : nat) :
  sections <> 0 -> n mod sections <> 0 ->
  exists rows,
    np.array_split (np.arange n) sections = Ok rows /\
    np.same_length rows = false.
Proof.
  intros Hs He. eexists. split; [apply (array_split_spec _ _ Hs)|].
  unfold np.arange. rewrite length_seq.
  set (q := n / sections). set (e := n mod sections) in *.
  assert (Hn : n = sections * q + e) by apply Nat.div_mod_eq.
  assert (Hlt : e < sections) by (apply Nat.mod_upper_bound; exact Hs).
  match goal with |- np.same_length ?rows = false =>
    destruct (np.same_length rows) eqn:E; [exfalso|reflexivity];
    assert (Hfirst : In (slice (split_point q e 0) (split_point q e (0 + 1))
                               (seq 0 n)) rows)
      by (apply in_map_iff; exists 0; split;
          [reflexivity | apply in_seq; lia]);
    assert (Hlast : In (slice (split_point q e (sections - 1))
                              (split_point q e (sections - 1 + 1)) (seq 0 n)) rows)
      by (apply in_map_iff; exists (sections - 1); split;
          [reflexivity | apply in_seq; lia]);
    pose proof (same_length_inv rows _ _ E Hfirst Hlast) as Hlen'
  end.
  clear Hfirst Hlast.
  rewrite !slice_seq, !length_seq in Hlen'.
  assert (H0 : split_point q e 0 = 0) by reflexivity.
  assert (H1 : split_point q e (0 + 1) = q + 1).
  { unfold split_point. change (0 + 1) with 1.
    rewrite (Nat.min_l 1 e) by lia.
    replace (1 - e) with 0 by lia. lia. }
  assert (H2 : split_point q e (sections - 1) = n - q).
  { unfold split_point.
    rewrite (Nat.min_r (sections - 1) e) by lia. nia. }
  assert (H3 : split_point q e (sections - 1 + 1) = n).
  { unfold split_point. replace (sections - 1 + 1) with sections by lia.
    rewrite (Nat.min_r sections e) by lia. nia. }
  rewrite H0, H1, H2, H3 in Hlen'.
  assert (q + 1 <= n) by nia.
  lia.
Qed.

Lemma init_zero_cycles {T : Type} (md : ScanMetadata) (method : string)
    (sens phase_off : T) (sw : pyval) :
  spec_inds_zeros md / 2 = 0 ->
  __init__ md method sens phase_off sw = Raise ValueError.
Proof. intros HC. unfold __init__. rewrite HC. reflexivity. Qed.

Lemma init_ragged {T : Type} (md : ScanMetadata) (method : string)
    (sens phase_off : T) (sw : pyval) :
  spec_inds_zeros md / 2 <> 0 ->
  num_steps md mod (spec_inds_zeros md / 2) <> 0 ->
  __init__ md method sens phase_off sw = Raise ValueError.
Proof.
  intros HC HN. unfold __init__.
  destruct (arange_split_ragged _ _ HC HN) as (rows & Hrows & Hragged).
  rewrite Hrows. simpl bind. unfold np.setxor1d, np.ravel at 1.
  rewrite Hragged. reflexivity.
Qed.

(** What a returned instance is. *)
Lemma init_inv {T : Type} (md : ScanMetadata) (method : string)
    (sens phase_off : T) (sw : pyval) (self : BERelaxFit T) :
  __init__ md method sens phase_off sw = Ok self ->
  spec_inds_zeros md / 2 <> 0 /\
  num_steps md
    = spec_inds_zeros md / 2 * (num_steps md / (spec_inds_zeros md / 2)) /\
  self = partitioned md method sens phase_off sw
                     (num_steps md / (spec_inds_zeros md / 2)).
Proof.
  intros Hinit.
  destruct (Nat.eq_dec (spec_inds_zeros md / 2) 0) as [HC|HC].
  { rewrite init_zero_cycles in Hinit by exact HC. discriminate Hinit. }
  destruct (Nat.eq_dec (num_steps md mod (spec_inds_zeros md / 2)) 0) as [HN|HN].
  2:{ rewrite init_ragged in Hinit by assumption. discriminate Hinit. }
  apply Nat.Div0.div_exact in HN.
  rewrite (init_exact T md method sens phase_off sw _ HC HN) in Hinit.
  injection Hinit as <-. auto.
Qed.

(** C8, as the code has it.  The constructor compares [num_steps] with
    nothing: it fails, with NumPy's [ValueError], exactly when the number of
    cycles is zero or does not divide [num_steps]; otherwise it returns,
    with blocks of [num_steps / cycles] steps, whatever the numbers of read
    and write steps per cycle are. *)
Theorem init_outcome :
  forall (T : Type) (md : ScanMetadata) (method : string) (sens phase_off : T)
         (sw : pyval),
    __init__ md method sens phase_off sw =
    if (spec_inds_zeros md / 2 =? 0)
       || negb (num_steps md mod (spec_inds_zeros md / 2) =? 0)
    then Raise ValueError
    else Ok (partitioned md method sens phase_off sw
                         (num_steps md / (spec_inds_zeros md / 2))).
Proof.
  intros T md method sens phase_off sw.
  destruct (Nat.eqb_spec (spec_inds_zeros md / 2) 0) as [HC|HC]; cbn [orb].
  - now apply init_zero_cycles.
  - destruct (Nat.eqb_spec (num_steps md mod (spec_inds_zeros md / 2)) 0)
      as [HN|HN]; cbn [negb].
    + apply init_exact; [exact HC|].
      now apply Nat.Div0.div_exact.
    + now apply init_ragged.
Qed.

(** C8, as stated, fails: with 20 steps, 2 cycles and 5 + 2 steps declared
    per cycle the constructor returns, with read sets of 8 steps. *)
Lemma init_accepts_inconsistent_steps :
  (VS_num_meas_per_read_step md_loose + VS_num_meas_per_write_step md_loose)
    * (spec_inds_zeros md_loose / 2) <> num_steps md_loose /\
  num_steps md_loose
    mod (VS_num_meas_per_read_step md_loose + VS_num_meas_per_write_step md_loose)
    <> 0 /\
  __init__ md_loose "Exponential" 1%R 0%R (PyStr "write")
    <> Raise ConfigurationError /\
  exists self,
    __init__ md_loose "Exponential" 1%R 0%R (PyStr "write") = Ok self /\
    read_inds_split self = [seq 2 8; seq 12 8].
Proof.
  split; [discriminate|]. split; [discriminate|]. split; [discriminate|].
  eexists. split; reflexivity.
Qed.

(** C1 fails on a scan without write steps that starts with a read: the
    metadata are valid ([(2 + 0) * 2 = 4]), and the read index sets come out
    empty, the write index sets holding every step, since [block[:-0]] is
    the empty slice. *)
Theorem partition_read_start_no_write_steps :
  forall (T : Type) (sens phase_off : T) (method : string),
    (VS_num_meas_per_read_step md_no_write
       + VS_num_meas_per_write_step md_no_write)
      * (spec_inds_zeros md_no_write / 2) = num_steps md_no_write /\
    exists self,
      __init__ md_no_write method sens phase_off (PyStr "read") = Ok self /\
      read_inds_split self = [[]; []] /\
      write_inds_split self = [[0; 1]; [2; 3]].
Proof.
  intros T sens phase_off method. split; [reflexivity|].
  eexists. split; [reflexivity|]. split; reflexivity.
Qed.

Example partition_write_start_no_write_steps :
  exists self,
    __init__ md_no_write "Exponential" 1%R 0%R (PyStr "write") = Ok self /\
    read_inds_split self = [[0; 1]; [2; 3]] /\
    write_inds_split self = [[]; []].
Proof. eexists. split; [reflexivity|]. split; reflexivity. Qed.

Lemma nth_windows (b o l n c : nat) :
  c < n -> nth c (windows b o l n) [] = seq (c * b + o) l.
Proof.
  intros Hc. unfold windows.
  rewrite (nth_indep _ [] (seq (0 * b + o) l)) by (rewrite length_map, length_seq; lia).
  rewrite (map_nth (fun i => seq (i * b + o) l)). now rewrite seq_nth.
Qed.

Lemma nth_window_complements (b o l n c : nat) :
  c < n ->
  nth c (window_complements b o l n) []
  = seq (c * b) o ++ seq (c * b + o + l) (b - o - l).
Proof.
  intros Hc. unfold window_complements.
  rewrite (nth_indep _ [] (seq (0 * b) o ++ seq (0 * b + o + l) (b - o - l)))
    by (rewrite length_map, length_seq; lia).
  rewrite (map_nth (fun i => seq (i * b) o ++ seq (i * b + o + l) (b - o - l))).
  now rewrite seq_nth.
Qed.

(** X1 (C1 where it holds).  When [(reads + writes) * cycles] is
    [num_steps] and the scan starts with a write, or starts with a read and
    has write steps, the constructor returns, and for each cycle the
    read and the write index arrays are duplicate-free, disjoint, of
    [reads] and [writes] elements, and hold between them exactly the steps
    of the cycle's block. *)
Theorem partition_sound :
  forall (T : Type) (md : ScanMetadata) (method : string) (sens phase_off : T)
         (sw : pyval),
    let r := VS_num_meas_per_read_step md in
    let w := VS_num_meas_per_write_step md in
    let cycles := spec_inds_zeros md / 2 in
    cycles <> 0 ->
    (r + w) * cycles = num_steps md ->
    sw = PyStr "write" \/ (sw = PyStr "read" /\ w <> 0) ->
    exists self,
      __init__ md method sens phase_off sw = Ok self /\
      length (read_inds_split self) = cycles /\
      length (write_inds_split self) = cycles /\
      forall c, c < cycles ->
        let reads := nth c (read_inds_split self) [] in
        let writes := nth c (write_inds_split self) [] in
        length reads = r /\ length writes = w /\
        NoDup reads /\ NoDup writes /\
        (forall x, In x reads -> ~ In x writes) /\
        (forall x, In x reads \/ In x writes
                   <-> c * (r + w) <= x < (c + 1) * (r + w)) /\
        (forall x, In x reads \/ In x writes -> x < num_steps md).
Proof.
  intros T md method sens phase_off sw r w cycles HC HN Hsw.
  exists (partitioned md method sens phase_off sw (r + w)).
  split; [apply init_exact; [exact HC | fold cycles; lia]|].
  unfold partitioned. cbn [read_inds_split write_inds_split].
  fold cycles. fold w.
  assert (Hwin : read_window sw (r + w) w = Some (if py_eq sw (PyStr "write")
                                                  then w else 0, r)).
  { unfold read_window. destruct Hsw as [->|[-> Hw]]; simpl py_eq; cbn iota.
    - f_equal. f_equal; lia.
    - apply Nat.eqb_neq in Hw. rewrite Hw. f_equal. f_equal. lia. }
  rewrite Hwin. cbn [fst snd].
  set (o := if py_eq sw (PyStr "write") then w else 0).
  assert (Ho : o = 0 \/ o = w) by (unfold o; destruct (py_eq _ _); auto).
  split; [apply windows_length|]. split; [apply window_complements_length|].
  intros c Hc. cbv zeta.
  rewrite nth_windows, nth_window_complements by exact Hc.
  assert (Hblock : (c + 1) * (r + w) <= num_steps md).
  { rewrite <- HN, (Nat.mul_comm (r + w) cycles).
    apply Nat.mul_le_mono_r. lia. }
  assert (Hexp : (c + 1) * (r + w) = c * (r + w) + (r + w)) by lia.
  split; [apply length_seq|].
  split; [rewrite length_app, !length_seq; lia|].
  split; [apply seq_NoDup|].
  split.
  { apply increasing_NoDup.
    destruct Ho as [Ho|Ho]; rewrite Ho.
    - simpl app. apply increasing_seq.
    - replace (r + w - w - r) with 0 by lia. simpl. rewrite app_nil_r.
      apply increasing_seq. }
  split.
  { intros x Hr Hwr. apply in_seq in Hr. apply in_app_iff in Hwr.
    destruct Hwr as [Hwr|Hwr]; apply in_seq in Hwr; lia. }
  split.
  { intros x. rewrite in_app_iff, !in_seq. lia. }
  intros x. rewrite in_app_iff, !in_seq. lia.
Qed.

Lemma read_window_fits (sw : pyval) (b w o l : nat) :
  read_window sw b w = Some (o, l) -> o + l <= b.
Proof.
  unfold read_window.
  destruct (py_eq sw (PyStr "write")); [intros E; injection E as <- <-; lia|].
  destruct (py_eq sw (PyStr "read")); [|discriminate].
  intros E; injection E as <- <-. destruct (w =? 0); lia.
Qed.

Lemma windows_bounded (b o l n : nat) :
  o + l <= b ->
  Forall (Forall (fun k => k < n * b)) (windows b o l n).
Proof.
  intros Hb. apply Forall_forall. intros r Hr.
  unfold windows in Hr. apply in_map_iff in Hr. destruct Hr as (i & <- & Hi).
  apply in_seq in Hi. apply Forall_forall. intros k Hk. apply in_seq in Hk.
  assert ((i + 1) * b <= n * b) by (apply Nat.mul_le_mono_r; lia). lia.
Qed.

Lemma half_of_even (k : nat) : Nat.even k = true -> k - k / 2 = k / 2.
Proof.
  intros E. apply Nat.even_spec in E. destruct E as (m & ->).
  rewrite (Nat.mul_comm 2 m), Nat.div_mul by lia. lia.
Qed.

(** C4.  Take an instance that the constructor returned for one of the two
    values of [starts_with], an even number of zeros in the index table (so
    that there are as many read offsets as cycles), and a chunk of the
    declared shape.  Then [_read_data_chunk] returns, and for every pixel
    whose amplitude is 1 and whose phase is 0 at every step, the read-branch
    signal of every cycle is [sensitivity * cos(phase_offset)] at every read
    index of the cycle.  Of the arithmetic on samples the proof uses only
    [1 * x = x] and [0 + x = x]. *)
Theorem read_signal_constant :
  forall (T : Type) (M : MixOps T) (one zero : T)
         (md : ScanMetadata) (method : string) (sens phase_off : T) (sw : pyval)
         (self : BERelaxFit T) (start_pos n_pixels : nat)
         (amp ph : list (list T)),
    (forall x, tmul one x = x) ->
    (forall x, tadd zero x = x) ->
    __init__ md method sens phase_off sw = Ok self ->
    Nat.even (spec_inds_zeros md) = true ->
    sw = PyStr "write" \/ sw = PyStr "read" ->
    start_pos < n_pixels ->
    length amp = n_pixels -> length ph = n_pixels ->
    Forall (fun row => length row = num_steps md) amp ->
    Forall (fun row => length row = num_steps md) ph ->
    exists out,
      _read_data_chunk self start_pos n_pixels amp ph = Ok (Some out) /\
      forall i j row_a row_p,
        i < n_pixels -> j < no_rs_spectra self ->
        nth_error amp i = Some row_a -> Forall (eq one) row_a ->
        nth_error ph i = Some row_p -> Forall (eq zero) row_p ->
        exists inds,
          nth_error (read_inds_split self) j = Some inds /\
          nth_error (data out) (i * no_rs_spectra self + j)
          = Some (repeat (tmul sens (tcos phase_off)) (length inds)).
Proof.
  intros T M one zero md method sens phase_off sw self start_pos n_pixels amp ph
         Hmul Hadd Hinit Heven Hsw Hstart Hla Hlp Hra Hrp.
  destruct (init_inv md method sens phase_off sw self Hinit) as (HC & HNb & ->).
  set (C := spec_inds_zeros md / 2) in *.
  set (b := num_steps md / C) in *.
  set (self := partitioned md method sens phase_off sw b).
  assert (Hnro : no_read_offset self = C) by (apply half_of_even; exact Heven).
  assert (Hsteps : no_time_steps self = num_steps md) by reflexivity.
  destruct (read_window sw b (VS_num_meas_per_write_step md)) as [[o l]|] eqn:Hwin.
  2:{ unfold read_window in Hwin.
      destruct Hsw as [-> | ->]; simpl in Hwin; discriminate Hwin. }
  assert (Hreads : read_inds_split self = windows b o l C).
  { unfold self, partitioned. cbn [read_inds_split]. fold C. now rewrite Hwin. }
  pose proof (read_window_fits _ _ _ _ _ Hwin) as Hfit.
  destruct (read_data_chunk_returns self start_pos n_pixels amp ph) as (out & Hout);
    try assumption.
  - rewrite Hnro, Hreads, windows_length. lia.
  - rewrite Hsteps, Hreads, HNb. now apply windows_bounded.
  - exists out. split; [exact Hout|].
    intros i j row_a row_p Hi Hj Ha Hone Hp Hzero.
    assert (Hj' : j < no_read_offset self) by (rewrite Hnro; exact Hj).
    destruct (read_signal_constant_of_run one zero self start_pos n_pixels amp ph
                out i j row_a row_p Hmul Hadd Hout Hi Hj' Ha Hone Hp Hzero)
      as (inds & Hinds & Hval).
    exists inds. split; [exact Hinds|].
    rewrite Hnro in Hval. exact Hval.
Qed.

(** C4 on the scenario's instance and a pixel of amplitude 1 and phase 0,
    over the reals: the call returns, and the signal of each of the two
    cycles is [1 * cos 0] at its 8 read indices. *)
Lemma read_signal_constant_self20 :
  exists out,
    _read_data_chunk self20 0 1 ones20 phase20 = Ok (Some out) /\
    nth_error (data out) 0 = Some (repeat (1 * cos 0)%R 8) /\
    nth_error (data out) 1 = Some (repeat (1 * cos 0)%R 8).
Proof.
  destruct (read_signal_constant R R_MixOps 1%R 0%R md20 "Exponential" 1%R 0%R
              (PyStr "write") self20 0 1 ones20 phase20)
    as (out & Hrun & Hsig).
  - exact Rmult_1_l.
  - exact Rplus_0_l.
  - reflexivity.
  - reflexivity.
  - left. reflexivity.
  - apply Nat.lt_0_1.
  - reflexivity.
  - reflexivity.
  - repeat constructor.
  - repeat constructor.
  - exists out. split; [exact Hrun|].
    assert (Hones : Forall (eq 1%R) (repeat 1%R 20)) by repeat constructor.
    assert (Hzeros : Forall (eq 0%R) (repeat 0%R 20)) by repeat constructor.
    split.
    + destruct (Hsig 0 0 _ _ Nat.lt_0_1 Nat.lt_0_2 eq_refl Hones eq_refl Hzeros)
        as (inds & Hinds & Hval).
      injection Hinds as <-. exact Hval.
    + destruct (Hsig 0 1 _ _ Nat.lt_0_1 Nat.lt_1_2 eq_refl Hones eq_refl Hzeros)
        as (inds & Hinds & Hval).
      injection Hinds as <-. exact Hval.
Defined.

Example read_signal_self20_value :
  exists out,
    _read_data_chunk self20 0 1 ones20 phase20 = Ok (Some out) /\
    data out = [repeat (1 * 1 * cos (0 + 0))%R 8; repeat (1 * 1 * cos (0 + 0))%R 8].
Proof. eexists. split; reflexivity. Qed.

(** C3.  On an instance that the constructor returned, a call of
    [_read_data_chunk] that returns leaves an empty write-branch signal,
    whatever the number of write steps is.  With [starts_with] a string, as
    the constructor tests it, the write branches, which test it against
    [1] and [0], are not entered; with any other value the constructor has
    built no read index set and the call raises. *)
Theorem write_spectra_never_filled :
  forall (T : Type) (M : MixOps T) (md : ScanMetadata) (method : string)
         (sens phase_off : T) (sw : pyval) (self : BERelaxFit T)
         (start_pos n_pixels : nat) (amp ph : list (list T))
         (out : chunk_result T),
    __init__ md method sens phase_off sw = Ok self ->
    _read_data_chunk self start_pos n_pixels amp ph = Ok (Some out) ->
    write_spectra out = [].
Proof.
  intros T M md method sens phase_off sw self start_pos n_pixels amp ph out
         Hinit Hrun.
  destruct sw as [name|z].
  - apply (write_spectra_empty_for_string_flag self name start_pos n_pixels amp ph);
      [|exact Hrun].
    now destruct (init_inv md method sens phase_off _ self Hinit) as (_ & _ & ->).
  - exfalso.
    destruct (init_inv md method sens phase_off _ self Hinit) as (HC & _ & ->).
    destruct (Nat.ltb_spec start_pos n_pixels) as [Hstart|Hstart].
    2:{ unfold _read_data_chunk in Hrun.
        apply Nat.ltb_ge in Hstart. rewrite Hstart in Hrun. discriminate Hrun. }
    rewrite (read_data_chunk_no_reads _ start_pos n_pixels amp ph) in Hrun.
    + discriminate Hrun.
    + reflexivity.
    + cbn [partitioned no_read_offset].
      pose proof (Nat.Div0.mul_div_le (spec_inds_zeros md) 2).
      assert (spec_inds_zeros md / 2 <= spec_inds_zeros md) by lia.
      assert (2 * (spec_inds_zeros md / 2) <= spec_inds_zeros md) by lia.
      lia.
    + exact Hstart.
Qed.

(** C3 on the scenario's instance, which has two write steps per cycle:
    the call returns, and the write-branch signal is empty. *)
Lemma write_spectra_empty_self20 :
  exists out,
    _read_data_chunk self20 0 1 amp20 phase20 = Ok (Some out) /\
    0 < no_write_steps self20 /\
    write_spectra out = [].
Proof.
  eexists. split; [reflexivity|]. split; [apply Nat.lt_0_succ|].
  apply (write_spectra_never_filled R _ md20 "Exponential" 1%R 0%R (PyStr "write")
           self20 0 1 amp20 phase20);
    reflexivity.
Defined.

(** X1 on the scenario's scan. *)
Lemma partition_sound_md20 :
  exists self,
    __init__ md20 "Exponential" 1%R 0%R (PyStr "write") = Ok self /\
    length (read_inds_split self) = 2 /\
    length (write_inds_split self) = 2 /\
    forall c, c < 2 ->
      let reads := nth c (read_inds_split self) [] in
      let writes := nth c (write_inds_split self) [] in
      length reads = 8 /\ length writes = 2 /\
      NoDup reads /\ NoDup writes /\
      (forall x, In x reads -> ~ In x writes) /\
      (forall x, In x reads \/ In x writes <-> c * (8 + 2) <= x < (c + 1) * (8 + 2)) /\
      (forall x, In x reads \/ In x writes -> x < 20).
Proof.
  apply (partition_sound R md20 "Exponential" 1%R 0%R (PyStr "write")).
  - discriminate.
  - reflexivity.
  - left. reflexivity.
Defined.

(* ================================================================== *)
(** * Part III. More of the code                                       *)
(* ================================================================== *)

(** ** [io_utils.recommendCores] *)

Lemma recommendCores_cases (cpu_count num_jobs : nat) (requested_cores : option Z) :
  let eff := effective_request cpu_count requested_cores in
  io_utils.recommendCores cpu_count num_jobs requested_cores =
  if eff =? 0 then Raise ZeroDivisionError
  else if (1 <? eff) && (num_jobs / eff <? 10)
       then Ok (Nat.min eff (num_jobs / 20))
       else Ok eff.
Proof. destruct requested_cores; reflexivity. Qed.

(** X2.  Whenever [recommendCores] recommends more than one core, every
    core gets at least ten jobs. *)
Theorem recommendCores_jobs_per_core :
  forall (cpu_count num_jobs : nat) (requested_cores : option Z) (n : nat),
    io_utils.recommendCores cpu_count num_jobs requested_cores = Ok n ->
    1 < n ->
    10 <= num_jobs / n.
Proof.
  intros cpu_count num_jobs requested_cores n E Hn.
  rewrite recommendCores_cases in E. cbv zeta in E.
  set (eff := effective_request cpu_count requested_cores) in *.
  destruct (Nat.eqb_spec eff 0) as [H0|H0]; [discriminate E|].
  destruct (Nat.ltb_spec 1 eff) as [H1|H1]; cbn [andb] in E.
  - destruct (Nat.ltb_spec (num_jobs / eff) 10) as [H10|H10];
      injection E as <-;
      change (fst (Nat.divmod num_jobs 19 0 19)) with (num_jobs / 20) in *.
    + pose proof (Nat.Div0.mul_div_le num_jobs 20) as H20.
      assert (Hle : Nat.min eff (num_jobs / 20) <= num_jobs / 20) by lia.
      set (m := Nat.min eff (num_jobs / 20)) in *. clearbody m.
      apply Nat.div_le_lower_bound; lia.
    + exact H10.
  - injection E as <-. lia.
Qed.

(** X2 with 8 processors, 100 jobs and no request: 6 cores, 16 jobs each. *)
Lemma recommendCores_jobs_per_core_8_100 : 10 <= 100 / 6.
Proof.
  apply (recommendCores_jobs_per_core 8 100 None 6); [reflexivity|].
  apply Nat.lt_succ_r, Nat.lt_0_succ.
Defined.

(** X3.  What [recommendCores] returns is at most the number of cores it
    starts from (the request cut down to [cpu_count], or by default
    [max(1, cpu_count - 2)]), and it is zero exactly when that number is
    above one and there are fewer than 20 jobs. *)
Theorem recommendCores_bound_and_zero :
  forall (cpu_count num_jobs : nat) (requested_cores : option Z) (n : nat),
    io_utils.recommendCores cpu_count num_jobs requested_cores = Ok n ->
    n <= effective_request cpu_count requested_cores /\
    (n = 0 <-> 1 < effective_request cpu_count requested_cores /\ num_jobs < 20).
Proof.
  intros cpu_count num_jobs requested_cores n E.
  rewrite recommendCores_cases in E. cbv zeta in E.
  set (eff := effective_request cpu_count requested_cores) in *.
  destruct (Nat.eqb_spec eff 0) as [H0|H0]; [discriminate E|].
  destruct (Nat.ltb_spec 1 eff) as [H1|H1]; cbn [andb] in E.
  - destruct (Nat.ltb_spec (num_jobs / eff) 10) as [H10|H10];
      injection E as <-;
      change (fst (Nat.divmod num_jobs 19 0 19)) with (num_jobs / 20) in *.
    + split; [lia|]. split.
      * intros Hz. split; [exact H1|].
        assert (num_jobs / 20 = 0) by lia.
        apply Nat.div_small_iff in H; lia.
      * intros [_ Hj]. rewrite (Nat.div_small num_jobs 20 Hj). lia.
    + split; [lia|]. split; [lia|].
      intros [_ Hj]. exfalso.
      assert (num_jobs / eff <= num_jobs) by (apply Nat.Div0.div_le_upper_bound; nia).
      assert (Hlt : num_jobs / eff < 10); [|lia].
      apply Nat.Div0.div_lt_upper_bound. nia.
  - injection E as <-. split; [lia|]. split; lia.
Qed.

(** X3 with 4 processors, 15 jobs and no request: no core at all. *)
Lemma recommendCores_zero_4_15 :
  0 <= effective_request 4 None /\
  (0 = 0 <-> 1 < effective_request 4 None /\ 15 < 20).
Proof.
  apply (recommendCores_bound_and_zero 4 15 None 0). reflexivity.
Defined.

(** X4.  [recommendCores] fails, with a [ZeroDivisionError], exactly when
    zero cores are requested or a request meets a [cpu_count] of zero;
    without a request it always returns. *)
Theorem recommendCores_raises :
  forall (cpu_count num_jobs : nat) (requested_cores : option Z),
    (io_utils.recommendCores cpu_count num_jobs requested_cores
       = Raise ZeroDivisionError
     <-> exists r, requested_cores = Some r /\ (r = 0%Z \/ cpu_count = 0)) /\
    (forall cls,
        io_utils.recommendCores cpu_count num_jobs requested_cores = Raise cls ->
        cls = ZeroDivisionError).
Proof.
  intros cpu_count num_jobs requested_cores.
  rewrite recommendCores_cases. cbv zeta.
  set (eff := effective_request cpu_count requested_cores).
  assert (Heff : eff = 0 <-> exists r, requested_cores = Some r
                                       /\ (r = 0%Z \/ cpu_count = 0)).
  { unfold eff, effective_request. destruct requested_cores as [r|].
    - split.
      + intros H. exists r. split; [reflexivity|]. lia.
      + intros (r' & E & H). injection E as <-. lia.
    - split; [lia|]. intros (r' & E & _). discriminate E. }
  destruct (Nat.eqb_spec eff 0) as [H0|H0].
  - split; [|intros cls E; now injection E as <-].
    split; [intros _; now apply Heff | reflexivity].
  - split.
    + split.
      * intros E. destruct ((1 <? eff) && (num_jobs / eff <? 10)); discriminate E.
      * intros H. apply Heff in H. contradiction.
    + intros cls E.
      destruct ((1 <? eff) && (num_jobs / eff <? 10)); discriminate E.
Qed.

(** ** [io_utils.complex_to_float], [compound_to_scalar], [check_dtype] *)

Lemma map_seq_nth {A B : Type} (f : A -> B) (d : A) (l : list A) :
  map (fun i => f (nth i l d)) (seq 0 (length l)) = map f l.
Proof.
  induction l as [|x l IH]; [reflexivity|].
  cbn [length seq map nth]. f_equal.
  rewrite <- seq_shift, map_map. exact IH.
Qed.

Lemma complex_to_float_rows {T : Type} (ds_main : list (list (T * T))) :
  io_utils.complex_to_float ds_main
  = Ok (map (fun row => map fst row ++ map snd row) ds_main).
Proof.
  unfold io_utils.complex_to_float, io_utils.hstack.
  cbn [forallb]. rewrite !length_map, Nat.eqb_refl. cbn [andb]. f_equal.
  cbn [map concat]. 
  rewrite <- (map_seq_nth (fun row => map fst row ++ map snd row) [] ds_main).
  apply map_ext_in. intros i Hi. apply in_seq in Hi.
  rewrite app_nil_r.
  rewrite (nth_indep (map (map (@fst T T)) ds_main) [] (map (@fst T T) []))
    by (rewrite length_map; lia).
  rewrite (map_nth (map (@fst T T))).
  rewrite (nth_indep (map (map (@snd T T)) ds_main) [] (map (@snd T T) []))
    by (rewrite length_map; lia).
  rewrite (map_nth (map (@snd T T))). reflexivity.
Qed.

Lemma combine_fst_snd {A B : Type} (l : list (A * B)) :
  combine (map fst l) (map snd l) = l.
Proof.
  induction l as [|[a b] l IH]; simpl; [reflexivity|]. now rewrite IH.
Qed.

(** X5.  [complex_to_float] always returns; each row of the result is the
    real parts of the row followed by its imaginary parts, hence twice as
    long, and pairing the two halves of every row gives the complex array
    back. *)
Theorem complex_to_float_round_trip :
  forall (T : Type) (ds_main : list (list (T * T))),
  exists out,
    io_utils.complex_to_float ds_main = Ok out /\
    length out = length ds_main /\
    (forall i row, nth_error ds_main i = Some row ->
                   nth_error out i = Some (map fst row ++ map snd row)) /\
    float_to_complex out = ds_main.
Proof.
  intros T ds_main. eexists. split; [apply complex_to_float_rows|].
  split; [apply length_map|]. split.
  - intros i row Hi. now rewrite nth_error_map, Hi.
  - unfold float_to_complex. rewrite map_map.
    rewrite <- (map_id ds_main) at 2. apply map_ext. intros row.
    rewrite length_app, !length_map.
    replace ((length row + length row) / 2) with (length row)
      by (replace (length row + length row) with (length row * 2) by lia;
          now rewrite Nat.div_mul).
    rewrite firstn_app, skipn_app, !length_map, Nat.sub_diag.
    rewrite firstn_all2, skipn_all2 by (rewrite length_map; lia).
    simpl. rewrite app_nil_r. apply combine_fst_snd.
Qed.

Lemma map_result_Forall2 {A B : Type} (f : A -> result B) (xs : list A) (ys : list B) :
  map_result f xs = Ok ys -> Forall2 (fun x y => f x = Ok y) xs ys.
Proof.
  revert ys. induction xs as [|x xs IH]; simpl; intros ys E.
  - injection E as <-. constructor.
  - bind_inv E. bind_inv E. injection E as <-. constructor; auto.
Qed.

Lemma Forall2_nth_error_l {A B : Type} (R : A -> B -> Prop) (l : list A) (l' : list B) :
  Forall2 R l l' ->
  forall i x, nth_error l i = Some x -> exists y, nth_error l' i = Some y /\ R x y.
Proof.
  induction 1 as [|x y l l' Hxy Hl IH]; intros i x0 Hi.
  - destruct i; discriminate Hi.
  - destruct i as [|i]; simpl in *.
    + injection Hi as <-. eauto.
    + eauto.
Qed.

Lemma getitem_field_array {T : Type} (names : list string)
    (ds : list (list (compound T))) (name : string) :
  In name names -> has_fields names ds ->
  exists a, h5.getitem_field names ds name = Ok a /\
            is_field_array (fun v => v) name ds a.
Proof.
  intros Hin Hwf. unfold h5.getitem_field.
  assert (Hex : existsb (String.eqb name) names = true).
  { apply existsb_exists. exists name. split; [exact Hin | apply String.eqb_refl]. }
  rewrite Hex.
  match goal with |- exists a, map_result ?f ds = _ /\ _ =>
    destruct (map_result_total f ds) as (a & Ha)
  end.
  - intros row Hrow. apply map_result_total. intros c Hc.
    unfold has_fields in Hwf. rewrite Forall_forall in Hwf.
    specialize (Hwf row Hrow). rewrite Forall_forall in Hwf.
    specialize (Hwf c Hc name Hin).
    destruct (field name c) as [v|]; [eauto | contradiction].
  - exists a. split; [exact Ha|].
    apply map_result_Forall2 in Ha. unfold is_field_array.
    eapply Forall2_impl; [|exact Ha].
    intros row arow Hr. simpl in Hr. apply map_result_Forall2 in Hr.
    eapply Forall2_impl; [|exact Hr].
    intros c v Hv. simpl in Hv.
    destruct (field name c) as [v0|]; [|discriminate Hv].
    injection Hv as <-. eauto.
Qed.

Lemma is_field_array_map {T : Type} (g : T -> T) (name : string)
    (ds : list (list (compound T))) (a : list (list T)) :
  is_field_array (fun v => v) name ds a ->
  is_field_array g name ds (map (map g) a).
Proof.
  unfold is_field_array. induction 1 as [|row arow ds a Hrow Hds IH]; simpl.
  - constructor.
  - constructor; [|exact IH].
    clear -Hrow. induction Hrow as [|c v row arow (v0 & Hf & ->) Hrow IH]; simpl.
    + constructor.
    + constructor; [eauto | exact IH].
Qed.

Lemma Forall2_length_eq {A B : Type} (R : A -> B -> Prop) (l : list A) (l' : list B) :
  Forall2 R l l' -> length l = length l'.
Proof. induction 1; simpl; congruence. Qed.

(** The arrays of the fields, one per name, joined side by side. *)
Lemma hstack_field_arrays {T : Type} (g : T -> T) (names : list string)
    (ds : list (list (compound T))) (arrays : list (list (list T))) (n : nat) :
  names <> [] ->
  Forall (fun row => length row = n) ds ->
  Forall2 (fun name a => is_field_array g name ds a) names arrays ->
  exists out,
    io_utils.hstack arrays = Ok out /\
    length out = length ds /\
    Forall (fun r => length r = length names * n) out /\
    forall i j k row c name v,
      nth_error ds i = Some row -> nth_error row j = Some c ->
      nth_error names k = Some name -> field name c = Some v ->
      exists orow, nth_error out i = Some orow /\
                   nth_error orow (k * n + j) = Some (g v).
Proof.
  intros Hne Hn Harr.
  assert (Hlen : Forall (fun a => length a = length ds) arrays).
  { clear -Harr. induction Harr as [|name a names arrays Ha _ IH]; constructor.
    - symmetry. exact (Forall2_length_eq _ _ _ Ha).
    - exact IH. }
  assert (Hrows : forall i row, nth_error ds i = Some row ->
            Forall2 (fun name r =>
                       Forall2 (fun c v => exists v0, field name c = Some v0 /\ v = g v0)
                               row r)
                    names (map (fun a => nth i a []) arrays)).
  { intros i row Hi. clear -Harr Hi.
    induction Harr as [|name a names arrays Ha _ IH]; simpl; constructor.
    - destruct (Forall2_nth_error_l _ _ _ Ha i row Hi) as (r & Hr & HR).
      now rewrite (nth_error_nth _ _ [] Hr).
    - exact IH. }
  destruct arrays as [|first others].
  { inversion Harr; subst. contradiction. }
  unfold io_utils.hstack.
  inversion Hlen as [|? ? Hfirst Hothers]; subst.
  assert (Hfb : forallb (fun a => length a =? length first) others = true).
  { apply forallb_forall. intros a Ha. rewrite Forall_forall in Hothers.
    apply Nat.eqb_eq. rewrite (Hothers a Ha). now symmetry. }
  rewrite Hfb. eexists. split; [reflexivity|].
  split; [now rewrite length_map, length_seq|].
  assert (Hwidth : forall i row, nth_error ds i = Some row ->
            Forall (fun r => length r = n)
                   (map (fun a => nth i a []) (first :: others))).
  { intros i row Hi. specialize (Hrows i row Hi).
    rewrite Forall_forall in Hn.
    pose proof (Hn row (nth_error_In _ _ Hi)) as Hrn.
    clear -Hrows Hrn. induction Hrows as [|name r names rs Hr _ IH]; constructor.
    - rewrite <- (Forall2_length_eq _ _ _ Hr). exact Hrn.
    - exact IH. }
  split.
  - apply Forall_forall. intros r Hr. apply in_map_iff in Hr.
    destruct Hr as (i & <- & Hi). apply in_seq in Hi.
    destruct (nth_error ds i) as [row|] eqn:Ei;
      [|apply nth_error_None in Ei; lia].
    rewrite (concat_length_uniform n _ (Hwidth i row Ei)).
    rewrite length_map. now rewrite <- (Forall2_length_eq _ _ _ Harr).
  - intros i j k row c name v Hi Hj Hk Hf.
    assert (Hil : i < length first).
    { rewrite Hfirst. apply nth_error_Some. congruence. }
    eexists. split.
    + rewrite nth_error_map.
      rewrite (nth_error_nth' (seq 0 (length first)) 0)
        by (rewrite length_seq; exact Hil).
      rewrite seq_nth by exact Hil. reflexivity.
    + simpl Nat.add.
      destruct (Forall2_nth_error_l _ _ _ (Hrows i row Hi) k name Hk)
        as (r & Hr & HR).
      assert (Hjn : j < n).
      { rewrite Forall_forall in Hn.
        rewrite <- (Hn row (nth_error_In _ _ Hi)).
        apply nth_error_Some. congruence. }
      rewrite (nth_error_concat_uniform n _ (Hwidth i row Hi) k j r Hr Hjn).
      destruct (Forall2_nth_error_l _ _ _ HR j c Hj) as (v' & Hv' & v0 & Hf0 & ->).
      rewrite Hf in Hf0. injection Hf0 as <-. exact Hv'.
Qed.

Lemma field_arrays_exist {T : Type} (g : T -> T) (names : list string)
    (ds : list (list (compound T)))
    (F : string -> result (list (list T))) :
  has_fields names ds ->
  (forall name a, h5.getitem_field names ds name = Ok a ->
                  F name = Ok (map (map g) a)) ->
  forall sub, incl sub names ->
    exists arrays,
      map_result F sub = Ok arrays /\
      Forall2 (fun name a => is_field_array g name ds a) sub arrays.
Proof.
  intros Hwf HF sub. induction sub as [|name sub IH]; intros Hincl.
  - exists []. split; [reflexivity | constructor].
  - destruct IH as (arrays & Harr & Hall); [intros x Hx; apply Hincl; now right|].
    destruct (getitem_field_array names ds name (Hincl name (or_introl eq_refl)) Hwf)
      as (a & Ha & Hfa).
    exists (map (map g) a :: arrays). simpl.
    rewrite (HF name a Ha), Harr. simpl. split; [reflexivity|].
    constructor; [now apply is_field_array_map | exact Hall].
Qed.

Lemma map_map_id {A : Type} (a : list (list A)) : map (map (fun v => v)) a = a.
Proof.
  induction a as [|r a IH]; simpl; [reflexivity|]. now rewrite map_id, IH.
Qed.

(** X6.  On a compound array of [n] columns whose elements have all the
    fields of the dtype, [compound_to_scalar] returns an array with as many
    rows and [len(names) * n] columns: the block of columns
    [[k*n, (k+1)*n)] holds the field of the [k]-th name, converted to
    [float32] when the array is an HDF5 dataset. *)
Theorem compound_to_scalar_layout :
  forall (T : Type) (to_float32 : T -> T) (kind : io_utils.container)
         (names : list string) (ds_main : list (list (compound T))) (n : nat),
    kind <> io_utils.OtherObject ->
    names <> [] ->
    Forall (fun row => length row = n) ds_main ->
    has_fields names ds_main ->
    exists out,
      io_utils.compound_to_scalar to_float32 kind (Some names) ds_main = Ok out /\
      length out = length ds_main /\
      Forall (fun r => length r = length names * n) out /\
      forall i j k row c name v,
        nth_error ds_main i = Some row -> nth_error row j = Some c ->
        nth_error names k = Some name -> field name c = Some v ->
        exists orow,
          nth_error out i = Some orow /\
          nth_error orow (k * n + j)
          = Some (match kind with io_utils.H5Dataset => to_float32 v | _ => v end).
Proof.
  intros T to_float32 kind names ds_main n Hkind Hne Hn Hwf.
  destruct kind; [| |contradiction]; unfold io_utils.compound_to_scalar.
  - destruct (field_arrays_exist to_float32 names ds_main
                (fun name => a <- h5.getitem_field names ds_main name ;;
                             Ok (map (map to_float32) a)) Hwf)
      with (sub := names) as (arrays & Harr & Hall).
    + intros name a Ha. now rewrite Ha.
    + apply incl_refl.
    + rewrite Harr. simpl bind.
      exact (hstack_field_arrays to_float32 names ds_main arrays n Hne Hn Hall).
  - destruct (field_arrays_exist (fun v => v) names ds_main
                (fun name => h5.getitem_field names ds_main name) Hwf)
      with (sub := names) as (arrays & Harr & Hall).
    + intros name a Ha. now rewrite map_map_id.
    + apply incl_refl.
    + rewrite Harr. simpl bind.
      exact (hstack_field_arrays (fun v => v) names ds_main arrays n Hne Hn Hall).
Qed.

(** X6 on a 2 x 2 array with fields [a] and [b]: the rows come out as
    [[1, 3, 2, 4]] and [[5, 7, 6, 8]]. *)
Lemma compound_to_scalar_layout_ab :
  exists out,
    io_utils.compound_to_scalar (fun v => v) io_utils.NdArray (Some ["a"; "b"])
                                ab_dataset = Ok out /\
    nth_error out 0 = Some [1; 3; 2; 4]%Z /\
    nth_error out 1 = Some [5; 7; 6; 8]%Z.
Proof.
  destruct (compound_to_scalar_layout Z (fun v => v) io_utils.NdArray ["a"; "b"]
              ab_dataset 2) as (out & Hrun & _ & _ & _).
  - discriminate.
  - discriminate.
  - repeat constructor.
  - repeat constructor; intros name [<-|[<-|[]]]; discriminate.
  - exists out. split; [exact Hrun|].
    vm_compute in Hrun. injection Hrun as <-. split; reflexivity.
Defined.

Example compound_to_scalar_unsupported :
  io_utils.compound_to_scalar (fun v => v) io_utils.OtherObject (Some ["a"; "b"])
                              ab_dataset = Raise TypeError /\
  io_utils.compound_to_scalar (fun v => v) io_utils.NdArray None ab_dataset
    = Raise TypeError.
Proof. split; reflexivity. Qed.

(** X7.  When [check_dtype] hands back [complex_to_float], the dataset is
    complex and not compound, and the [n_samples] and [n_features] it
    returns are the shape of [complex_to_float(ds_main)]. *)
Theorem check_dtype_complex_shape :
  forall (T : Type) (dt : io_utils.dtype) (ds_main : list (list (T * T)))
         (n : nat) (ic icp : bool) (nf ns tm : nat),
    io_utils.check_dtype dt [length ds_main; n]
      = Ok (io_utils.use_complex_to_float, ic, icp, nf, ns, tm) ->
    Forall (fun row => length row = n) ds_main ->
    ic = true /\ icp = false /\
    exists out,
      io_utils.complex_to_float ds_main = Ok out /\
      length out = ns /\
      Forall (fun r => length r = nf) out.
Proof.
  intros T dt ds_main n ic icp nf ns tm E Hn.
  assert (Hres : ic = true /\ icp = false /\ nf = n * 2 /\ ns = length ds_main).
  { unfold io_utils.check_dtype in E.
    destruct dt; try (destruct ((length ds_main =? 0) || (n =? 0));
                      [discriminate E | injection E as <- <- <- <- <-; auto]);
      try (destruct (1 <? io_utils.dtype_len _); discriminate E). }
  destruct Hres as (-> & -> & -> & ->).
  split; [reflexivity|]. split; [reflexivity|].
  eexists. split; [apply complex_to_float_rows|].
  split; [apply length_map|].
  apply Forall_forall. intros r Hr. apply in_map_iff in Hr.
  destruct Hr as (row & <- & Hrow).
  rewrite Forall_forall in Hn. rewrite length_app, !length_map, (Hn row Hrow). lia.
Qed.

(** X7 on a complex128 array of one row and two columns. *)
Lemma check_dtype_complex_shape_1x2 :
  true = true /\ false = false /\
  exists out,
    io_utils.complex_to_float [[(1, 2); (3, 4)]]%Z = Ok out /\
    length out = 1 /\
    Forall (fun r => length r = 4) out.
Proof.
  apply (check_dtype_complex_shape Z io_utils.complex128 [[(1, 2); (3, 4)]]%Z
           2 true false 4 1 16).
  - reflexivity.
  - repeat constructor.
Defined.

Lemma compound_to_scalar_arrays {T : Type} (to_float32 : T -> T)
    (kind : io_utils.container) (names : list string)
    (ds_main : list (list (compound T))) :
  kind <> io_utils.OtherObject ->
  has_fields names ds_main ->
  exists arrays,
    io_utils.compound_to_scalar to_float32 kind (Some names) ds_main
      = io_utils.hstack arrays /\
    Forall2 (fun name a =>
               is_field_array (match kind with
                               | io_utils.H5Dataset => to_float32
                               | _ => fun v => v
                               end) name ds_main a) names arrays.
Proof.
  intros Hkind Hwf.
  destruct kind; [| |contradiction]; unfold io_utils.compound_to_scalar.
  - destruct (field_arrays_exist to_float32 names ds_main
                (fun name => a <- h5.getitem_field names ds_main name ;;
                             Ok (map (map to_float32) a)) Hwf)
      with (sub := names) as (arrays & Harr & Hall).
    + intros name a Ha. now rewrite Ha.
    + apply incl_refl.
    + exists arrays. rewrite Harr. split; [reflexivity | exact Hall].
  - destruct (field_arrays_exist (fun v => v) names ds_main
                (fun name => h5.getitem_field names ds_main name) Hwf)
      with (sub := names) as (arrays & Harr & Hall).
    + intros name a Ha. now rewrite map_map_id.
    + apply incl_refl.
    + exists arrays. rewrite Harr. split; [reflexivity | exact Hall].
Qed.

(** X8.  When [check_dtype] hands back [compound_to_scalar] for a compound
    dataset whose elements have all the fields of the dtype, the
    [n_samples] and [n_features] it returns are the shape of
    [compound_to_scalar(ds_main)], and the dataset is reported as compound
    and not complex. *)
Theorem check_dtype_compound_shape :
  forall (T : Type) (to_float32 : T -> T) (kind : io_utils.container)
         (names : list string) (ds_main : list (list (compound T)))
         (n : nat) (ic icp : bool) (nf ns tm : nat),
    io_utils.check_dtype (io_utils.structured names) [length ds_main; n]
      = Ok (io_utils.use_compound_to_scalar, ic, icp, nf, ns, tm) ->
    kind <> io_utils.OtherObject ->
    Forall (fun row => length row = n) ds_main ->
    has_fields names ds_main ->
    ic = false /\ icp = true /\ 2 <= length names /\
    exists out,
      io_utils.compound_to_scalar to_float32 kind (Some names) ds_main = Ok out /\
      length out = ns /\
      Forall (fun r => length r = nf) out.
Proof.
  intros T to_float32 kind names ds_main n ic icp nf ns tm E Hkind Hn Hwf.
  unfold io_utils.check_dtype in E. cbn [io_utils.dtype_len] in E.
  destruct (Nat.ltb_spec 1 (length names)) as [Hlen|Hlen]; [|discriminate E].
  injection E as <- <- <- <- <-.
  split; [reflexivity|]. split; [reflexivity|]. split; [exact Hlen|].
  destruct (compound_to_scalar_arrays to_float32 kind names ds_main Hkind Hwf)
    as (arrays & -> & Hall).
  assert (Hne : names <> []) by (destruct names; [simpl in Hlen; lia | discriminate]).
  destruct (hstack_field_arrays _ names ds_main arrays n Hne Hn Hall)
    as (out & Hout & Hrows & Hcols & _).
  exists out. split; [exact Hout|]. split; [exact Hrows|].
  eapply Forall_impl; [|exact Hcols]. intros r Hr. simpl in Hr. lia.
Qed.

(** X8 on the 2 x 2 array with fields [a] and [b]. *)
Lemma check_dtype_compound_shape_ab :
  false = false /\ true = true /\ 2 <= length ["a"; "b"] /\
  exists out,
    io_utils.compound_to_scalar (fun v => v) io_utils.H5Dataset (Some ["a"; "b"])
                                ab_dataset = Ok out /\
    length out = 2 /\
    Forall (fun r => length r = 4) out.
Proof.
  apply (check_dtype_compound_shape Z (fun v => v) io_utils.H5Dataset ["a"; "b"]
           ab_dataset 2 false true 4 2 8).
  - reflexivity.
  - discriminate.
  - repeat constructor.
  - repeat constructor; intros name [<-|[<-|[]]]; discriminate.
Defined.

(** X9.  In what [check_dtype] returns, [n_samples] is the first entry of
    the shape, and [type_mult] times the number of columns of the dataset is
    the size in bytes of a row of the converted array ([n_features] elements
    of the converted type).  The dataset is reported as complex exactly
    when its dtype is [complex64] or [complex128], and as compound exactly
    when its dtype has at least two fields: a structured dtype with a
    single field is treated as a plain one and handed to [np.float32]. *)
Theorem check_dtype_result :
  forall (dt : io_utils.dtype) (shape : list nat) (func : io_utils.converter)
         (ic icp : bool) (nf ns tm : nat),
    io_utils.check_dtype dt shape = Ok (func, ic, icp, nf, ns, tm) ->
    (exists n, shape = [ns; n] /\ tm * n = converted_itemsize dt * nf) /\
    (ic = true <-> dt = io_utils.complex64 \/ dt = io_utils.complex128) /\
    (icp = true <-> 2 <= io_utils.dtype_len dt) /\
    (func = io_utils.use_complex_to_float <-> ic = true) /\
    (func = io_utils.use_compound_to_scalar <-> icp = true).
Proof.
  intros dt shape func ic icp nf ns tm E.
  unfold io_utils.check_dtype in E.
  destruct shape as [|n_samples [|n_features [|]]]; try discriminate E.
  destruct dt as [| | | | |names];
    try (destruct ((n_samples =? 0) || (n_features =? 0)); [discriminate E|]);
    try (cbn [io_utils.dtype_len] in E;
         destruct (Nat.ltb_spec 1 (length names)) as [Hlen|Hlen]);
    cbn in E; injection E as <- <- <- <- <- <-;
    (split; [exists n_features; split; [reflexivity | cbn; lia]|]);
    cbn [io_utils.dtype_len];
    repeat split; intros; try discriminate; try lia; auto;
    try (match goal with H : _ \/ _ |- _ => destruct H; discriminate end).
Qed.

(** X9 on a dataset of 3 rows and 5 columns whose dtype has the single
    field [a]: reported as neither complex nor compound. *)
Lemma check_dtype_result_one_field :
  (exists n, [3; 5] = [3; n] /\ 4 * n = converted_itemsize (io_utils.structured ["a"]) * 5) /\
  (false = true <-> io_utils.structured ["a"] = io_utils.complex64
                    \/ io_utils.structured ["a"] = io_utils.complex128) /\
  (false = true <-> 2 <= io_utils.dtype_len (io_utils.structured ["a"])) /\
  (io_utils.use_float32 = io_utils.use_complex_to_float <-> false = true) /\
  (io_utils.use_float32 = io_utils.use_compound_to_scalar <-> false = true).
Proof.
  apply (check_dtype_result (io_utils.structured ["a"]) [3; 5]
           io_utils.use_float32 false false 5 3 4).
  reflexivity.
Defined.

(** ** More on the constructor's partition *)

Lemma window_complements_nothing (b n : nat) :
  window_complements b 0 0 n = blocks b n.
Proof.
  unfold window_complements, blocks. apply map_ext. intros i.
  change (seq (i * b) 0) with (@nil nat).
  now rewrite app_nil_l, !Nat.add_0_r, !Nat.sub_0_r.
Qed.

Lemma block_split (s b o l : nat) :
  o + l <= b ->
  seq s b = seq s o ++ seq (s + o) l ++ seq (s + o + l) (b - o - l).
Proof.
  intros H. replace b with (o + (l + (b - o - l))) at 1 by lia.
  now rewrite !seq_app.
Qed.

(** X10.  Whenever the constructor returns, whatever the metadata and
    [starts_with] are, the blocks of [all_inds_split] tile the steps
    [0 .. num_steps - 1] in order, and in every cycle the read and the write
    index sets together are exactly the cycle's block, each step in one of
    the two. *)
Theorem partition_invariant :
  forall (T : Type) (md : ScanMetadata) (method : string) (sens phase_off : T)
         (sw : pyval) (self : BERelaxFit T),
    __init__ md method sens phase_off sw = Ok self ->
    concat (all_inds_split self) = seq 0 (num_steps md) /\
    length (all_inds_split self) = no_rs_spectra self /\
    length (write_inds_split self) = no_rs_spectra self /\
    forall c, c < no_rs_spectra self ->
      NoDup (nth c (all_inds_split self) []) /\
      Permutation (nth c (read_inds_split self) []
                     ++ nth c (write_inds_split self) [])
                  (nth c (all_inds_split self) []).
Proof.
  intros T md method sens phase_off sw self Hinit.
  destruct (init_inv md method sens phase_off sw self Hinit) as (HC & HN & ->).
  set (C := spec_inds_zeros md / 2) in *.
  set (b := num_steps md / C) in *.
  unfold partitioned.
  cbn [all_inds_split read_inds_split write_inds_split no_rs_spectra].
  fold C.
  split; [unfold blocks; rewrite concat_blocks; now rewrite <- HN|].
  split; [unfold blocks; now rewrite length_map, length_seq|].
  split.
  { destruct (read_window sw b (VS_num_meas_per_write_step md));
      apply window_complements_length. }
  intros c Hc. rewrite nth_blocks by exact Hc.
  split; [apply seq_NoDup|].
  destruct (read_window sw b (VS_num_meas_per_write_step md)) as [[o l]|] eqn:Hwin.
  - pose proof (read_window_fits _ _ _ _ _ Hwin) as Hfit. cbn [fst snd].
    rewrite nth_windows, nth_window_complements by exact Hc.
    rewrite (block_split (c * b) b o l Hfit).
    apply Permutation_app_swap_app.
  - rewrite window_complements_nothing, nth_blocks by exact Hc.
    destruct c; reflexivity.
Qed.

(** X11.  When [starts_with] is neither ['write'] nor ['read'] (the
    integers of the docstring, for one) and the constructor returns, it has
    built no read index set, and every block is a write index set. *)
Theorem init_unrecognised_flag :
  forall (T : Type) (md : ScanMetadata) (method : string) (sens phase_off : T)
         (sw : pyval) (self : BERelaxFit T),
    __init__ md method sens phase_off sw = Ok self ->
    py_eq sw (PyStr "write") = false ->
    py_eq sw (PyStr "read") = false ->
    read_inds_split self = [] /\
    write_inds_split self = all_inds_split self.
Proof.
  intros T md method sens phase_off sw self Hinit Hw Hr.
  destruct (init_inv md method sens phase_off sw self Hinit) as (_ & _ & ->).
  unfold partitioned, read_window. rewrite Hw, Hr.
  cbn [read_inds_split write_inds_split all_inds_split].
  split; [reflexivity | apply window_complements_nothing].
Qed.

(** X11 on the scenario's scan with [starts_with = 1]. *)
Lemma init_unrecognised_flag_md20 :
  exists self,
    __init__ md20 "Exponential" 1%R 0%R (PyInt 1) = Ok self /\
    read_inds_split self = [] /\
    write_inds_split self = all_inds_split self.
Proof.
  eexists. split; [reflexivity|].
  apply (init_unrecognised_flag R md20 "Exponential" 1%R 0%R (PyInt 1));
    reflexivity.
Defined.

(** X10 on the scenario's scan. *)
Lemma partition_invariant_md20 :
  concat (all_inds_split self20) = seq 0 (num_steps md20) /\
  length (all_inds_split self20) = no_rs_spectra self20 /\
  length (write_inds_split self20) = no_rs_spectra self20 /\
  forall c, c < no_rs_spectra self20 ->
    NoDup (nth c (all_inds_split self20) []) /\
    Permutation (nth c (read_inds_split self20) []
                   ++ nth c (write_inds_split self20) [])
                (nth c (all_inds_split self20) []).
Proof.
  apply (partition_invariant R md20 "Exponential" 1%R 0%R (PyStr "write") self20).
  reflexivity.
Defined.

(** ** More on the signal reconstruction *)

Lemma take_inds_nth_error {A : Type} (row : list A) (inds : list nat) (a : list A) :
  take_inds row inds = Ok a ->
  length a = length inds /\
  forall k s, nth_error inds k = Some s ->
              exists v, nth_error row s = Some v /\ nth_error a k = Some v.
Proof.
  intros E. unfold take_inds in E. split; [exact (map_result_length _ _ _ E)|].
  intros k s Hk.
  destruct (map_result_nth_error _ _ _ E k s Hk) as (v & Hv & Hnth).
  exists v. split; [|exact Hnth].
  unfold getitem in Hv. destruct (nth_error row s); [now injection Hv as -> | discriminate].
Qed.

Lemma mix_nth_error {T : Type} `{MixOps T} (sens po : T) (a p : list T)
    (k : nat) (x y : T) :
  nth_error a k = Some x -> nth_error p k = Some y ->
  nth_error (mix sens po a p) k = Some (tmul (tmul x sens) (tcos (tadd y po))).
Proof.
  unfold mix. revert p k.
  induction a as [|a0 a IH]; intros [|p0 p] [|k] Ha Hp; simpl in *; try discriminate.
  - now injection Ha as ->; injection Hp as ->.
  - now apply IH.
Qed.

Lemma mix_length {T : Type} `{MixOps T} (sens po : T) (a p : list T) :
  length (mix sens po a p) = Nat.min (length a) (length p).
Proof. unfold mix. now rewrite length_map, length_combine. Qed.

Lemma gathered_length {T : Type} (reads : list (list nat)) (chunk : list (list T))
    (n_pixels nro : nat) (ls : list (list (list T))) :
  map_result (fun i => map_result (gather reads chunk i) (seq 0 nro))
             (seq 0 n_pixels) = Ok ls ->
  length (concat ls) = n_pixels * nro.
Proof.
  intros E.
  assert (Hlen : Forall (fun l => length l = nro) ls).
  { eapply map_result_Forall; [|exact E].
    intros x y Hy. simpl in Hy. apply map_result_length in Hy.
    now rewrite length_seq in Hy. }
  rewrite (concat_length_uniform nro ls Hlen).
  apply map_result_length in E. now rewrite E, length_seq.
Qed.

Lemma gather_inv {T : Type} (reads : list (list nat)) (chunk : list (list T))
    (i j : nat) (a : list T) :
  gather reads chunk i j = Ok a ->
  exists inds row,
    nth_error reads j = Some inds /\ nth_error chunk i = Some row /\
    take_inds row inds = Ok a.
Proof.
  unfold gather, getitem. intros E.
  destruct (nth_error reads j) as [inds|]; [|discriminate E].
  destruct (nth_error chunk i) as [row|]; [|discriminate E].
  simpl in E. eauto.
Qed.

(** X12.  After a call of [_read_data_chunk] that returned, the signal has
    one row per pixel and read offset, pixel after pixel; the row of pixel
    [i] and offset [j] has one sample per read index of cycle [j], and its
    [k]-th sample is [amp * sensitivity * cos(phase + phase_offset)] for the
    amplitude and phase of pixel [i] at the [k]-th read step of cycle [j]:
    no sample of another pixel or cycle enters it. *)
Theorem read_data_chunk_samples :
  forall (T : Type) (M : MixOps T) (self : BERelaxFit T)
         (start_pos n_pixels : nat) (amp ph : list (list T))
         (out : chunk_result T),
    _read_data_chunk self start_pos n_pixels amp ph = Ok (Some out) ->
    length (data out) = n_pixels * no_read_offset self /\
    forall i j, i < n_pixels -> j < no_read_offset self ->
      exists row_a row_p inds sig,
        nth_error amp i = Some row_a /\ nth_error ph i = Some row_p /\
        nth_error (read_inds_split self) j = Some inds /\
        nth_error (data out) (i * no_read_offset self + j) = Some sig /\
        length sig = length inds /\
        forall k s, nth_error inds k = Some s ->
          exists a p,
            nth_error row_a s = Some a /\ nth_error row_p s = Some p /\
            nth_error sig k
            = Some (tmul (tmul a (sensitivity self))
                         (tcos (tadd p (phase_offset self)))).
Proof.
  intros T M self start_pos n_pixels amp ph out E.
  destruct (read_data_chunk_spec self start_pos n_pixels amp ph out E)
    as (lsA & lsP & HlsA & HlsP & _ & _ & Hdata).
  split.
  { rewrite Hdata, mix_rows_length.
    rewrite (gathered_length _ _ _ _ _ HlsA), (gathered_length _ _ _ _ _ HlsP).
    apply Nat.min_id. }
  intros i j Hi Hj.
  destruct (gathered_nth_error _ _ _ _ _ i j HlsA Hi Hj) as (a & Ga & Na).
  destruct (gathered_nth_error _ _ _ _ _ i j HlsP Hi Hj) as (p & Gp & Np).
  destruct (gather_inv _ _ _ _ _ Ga) as (inds & row_a & Hinds & Hrow_a & Ta).
  destruct (gather_inv _ _ _ _ _ Gp) as (inds' & row_p & Hinds' & Hrow_p & Tp).
  rewrite Hinds in Hinds'. injection Hinds' as <-.
  destruct (take_inds_nth_error _ _ _ Ta) as (La & Ha).
  destruct (take_inds_nth_error _ _ _ Tp) as (Lp & Hp).
  exists row_a, row_p, inds,
    (mix (sensitivity self) (phase_offset self) a p).
  split; [exact Hrow_a|]. split; [exact Hrow_p|]. split; [exact Hinds|].
  split; [rewrite Hdata; now apply mix_rows_nth_error|].
  split; [rewrite mix_length; lia|].
  intros k s Hk.
  destruct (Ha k s Hk) as (va & Hva & Hka).
  destruct (Hp k s Hk) as (vp & Hvp & Hkp).
  exists va, vp. split; [exact Hva|]. split; [exact Hvp|].
  now apply mix_nth_error.
Qed.

(** The scenario's instance on a pixel of amplitude 2 and phase 0: sample 3
    of the second cycle is taken at step 15. *)
Lemma read_data_chunk_samples_self20 :
  exists out sig,
    _read_data_chunk self20 0 1 amp20 phase20 = Ok (Some out) /\
    length (data out) = 2 /\
    nth_error (data out) 1 = Some sig /\
    length sig = 8 /\
    nth_error sig 3 = Some (2 * 1 * cos (0 + 0))%R.
Proof.
  assert (E : exists out, _read_data_chunk self20 0 1 amp20 phase20 = Ok (Some out))
    by (eexists; vm_compute; reflexivity).
  destruct E as (out & E).
  destruct (read_data_chunk_samples R R_MixOps self20 0 1 amp20 phase20 out E)
    as (Hlen & Hrows).
  destruct (Hrows 0 1 Nat.lt_0_1 Nat.lt_1_2)
    as (row_a & row_p & inds & sig & Ha & Hp & Hi & Hsig & Hl & Hk).
  cbn in Ha, Hp, Hi. injection Ha as <-. injection Hp as <-. injection Hi as <-.
  destruct (Hk 3 15 eq_refl) as (a & p & Hva & Hvp & Hv).
  cbn in Hva, Hvp. injection Hva as <-. injection Hvp as <-.
  exists out, sig. split; [exact E|]. split; [exact Hlen|].
  split; [exact Hsig|]. split; [exact Hl|]. exact Hv.
Defined.

(** ** When [_read_data_chunk] returns and when it raises *)

Lemma bind_raise_inv {A B : Type} (m : result A) (k : A -> result B) (c : string) :
  bind m k = Raise c -> m = Raise c \/ exists a, m = Ok a /\ k a = Raise c.
Proof.
  destruct m as [a|c']; simpl; intros E; [right; eauto | left].
  now injection E as ->.
Qed.

Lemma getitem_raise {A : Type} (l : list A) (i : nat) (c : string) :
  getitem l i = Raise c -> c = IndexError.
Proof. unfold getitem. destruct (nth_error l i); [discriminate|]. now intros [= <-]. Qed.

Lemma map_result_raise {A B : Type} (f : A -> result B) (cls : string) :
  (forall x c, f x = Raise c -> c = cls) ->
  forall xs c, map_result f xs = Raise c -> c = cls.
Proof.
  intros Hf xs. induction xs as [|x xs IH]; simpl; intros c E; [discriminate E|].
  apply bind_raise_inv in E. destruct E as [E | (y & _ & E)]; [eauto|].
  apply bind_raise_inv in E. destruct E as [E | (ys & _ & E)]; [eauto | discriminate E].
Qed.

Lemma for_each_raise {S I : Type} (body : I -> S -> result S) (cls : string) :
  (forall x s c, body x s = Raise c -> c = cls) ->
  forall xs s c, for_each xs body s = Raise c -> c = cls.
Proof.
  intros Hb xs. induction xs as [|x xs IH]; simpl; intros s c E; [discriminate E|].
  apply bind_raise_inv in E. destruct E as [E | (s' & _ & E)]; eauto.
Qed.

Lemma take_inds_raise {A : Type} (row : list A) (inds : list nat) (c : string) :
  take_inds row inds = Raise c -> c = IndexError.
Proof.
  unfold take_inds. apply map_result_raise. intros x c'. apply getitem_raise.
Qed.

Lemma read_body_raise {T : Type} `{MixOps T} (self : BERelaxFit T)
    (amp ph : list (list T)) (i j : nat) (s : chunk_locals T) (c : string) :
  read_body self amp ph i j s = Raise c -> c = IndexError.
Proof.
  unfold read_body. intros E.
  apply bind_raise_inv in E. destruct E as [E | (inds & _ & E)];
    [exact (getitem_raise _ _ _ E)|].
  apply bind_raise_inv in E. destruct E as [E | (amp_row & _ & E)];
    [exact (getitem_raise _ _ _ E)|].
  apply bind_raise_inv in E. destruct E as [E | (a & _ & E)];
    [exact (take_inds_raise _ _ _ E)|].
  apply bind_raise_inv in E. destruct E as [E | (phase_row & _ & E)];
    [exact (getitem_raise _ _ _ E)|].
  apply bind_raise_inv in E. destruct E as [E | (p & _ & E)];
    [exact (take_inds_raise _ _ _ E)|].
  discriminate E.
Qed.

Lemma read_data_chunk_raises_IndexError {T : Type} `{MixOps T} (self : BERelaxFit T)
    (start_pos n_pixels : nat) (amp ph : list (list T)) (c : string) :
  _read_data_chunk self start_pos n_pixels amp ph = Raise c -> c = IndexError.
Proof.
  unfold _read_data_chunk. destruct (start_pos <? n_pixels); [|discriminate].
  intros E. apply bind_raise_inv in E. destruct E as [E | (s & _ & E)];
    [|discriminate E].
  revert E. apply for_each_raise. intros i s0 c0.
  apply for_each_raise. intros j s1 c1. apply read_body_raise.
Qed.

Lemma read_data_chunk_ok_readable {T : Type} `{MixOps T} (self : BERelaxFit T)
    (start_pos n_pixels : nat) (amp ph : list (list T)) (out : chunk_result T) :
  _read_data_chunk self start_pos n_pixels amp ph = Ok (Some out) ->
  readable self n_pixels amp ph.
Proof.
  intros E i j Hi Hj.
  destruct (read_data_chunk_spec self start_pos n_pixels amp ph out E)
    as (lsA & lsP & HlsA & HlsP & _).
  destruct (gathered_nth_error _ _ _ _ _ i j HlsA Hi Hj) as (a & Ga & _).
  destruct (gathered_nth_error _ _ _ _ _ i j HlsP Hi Hj) as (p & Gp & _).
  destruct (gather_inv _ _ _ _ _ Ga) as (inds & row_a & Hinds & Hrow_a & Ta).
  destruct (gather_inv _ _ _ _ _ Gp) as (inds' & row_p & Hinds' & Hrow_p & Tp).
  rewrite Hinds in Hinds'. injection Hinds' as <-.
  destruct (take_inds_nth_error _ _ _ Ta) as (_ & Ha).
  destruct (take_inds_nth_error _ _ _ Tp) as (_ & Hp).
  exists inds, row_a, row_p. repeat split; try assumption.
  apply Forall_forall. intros s Hs.
  destruct (In_nth_error _ _ Hs) as (k & Hk).
  destruct (Ha k s Hk) as (va & Hva & _). destruct (Hp k s Hk) as (vp & Hvp & _).
  split; apply nth_error_Some; congruence.
Qed.

Lemma take_inds_total {A : Type} (row : list A) (inds : list nat) :
  Forall (fun s => s < length row) inds -> exists a, take_inds row inds = Ok a.
Proof.
  intros Hin. unfold take_inds. apply map_result_total. intros s Hs.
  rewrite Forall_forall in Hin. specialize (Hin s Hs). unfold getitem.
  destruct (nth_error row s) eqn:E; [eauto|]. apply nth_error_None in E. lia.
Qed.

Lemma read_data_chunk_readable_ok {T : Type} `{MixOps T} (self : BERelaxFit T)
    (start_pos n_pixels : nat) (amp ph : list (list T)) :
  start_pos < n_pixels ->
  readable self n_pixels amp ph ->
  exists out, _read_data_chunk self start_pos n_pixels amp ph = Ok (Some out).
Proof.
  intros Hstart Hr. unfold _read_data_chunk.
  apply Nat.ltb_lt in Hstart. rewrite Hstart.
  match goal with
  | |- exists out, (s <- for_each ?xs ?body ?s0 ;; _) = _ =>
      destruct (for_each_total body xs) with (s := s0) as (s & Hs)
  end.
  - intros i s Hi. apply in_seq in Hi.
    apply for_each_total. intros j s1 Hj. apply in_seq in Hj.
    destruct (Hr i j) as (inds & row_a & row_p & Hinds & Ha & Hp & Hin); [lia..|].
    destruct (take_inds_total row_a inds) as (a & Ta).
    { eapply Forall_impl; [|exact Hin]. now intros ? []. }
    destruct (take_inds_total row_p inds) as (p & Tp).
    { eapply Forall_impl; [|exact Hin]. now intros ? []. }
    apply (read_body_total self amp ph i j s1 a p); unfold gather, getitem.
    + now rewrite Hinds, Ha.
    + now rewrite Hinds, Hp.
  - rewrite Hs. simpl. eauto.
Qed.

Lemma read_data_chunk_not_readable {T : Type} `{MixOps T} (self : BERelaxFit T)
    (start_pos n_pixels : nat) (amp ph : list (list T)) :
  start_pos < n_pixels ->
  ~ readable self n_pixels amp ph ->
  _read_data_chunk self start_pos n_pixels amp ph = Raise IndexError.
Proof.
  intros Hstart Hn.
  destruct (_read_data_chunk self start_pos n_pixels amp ph) as [[out|]|c] eqn:E.
  - exfalso. apply Hn. exact (read_data_chunk_ok_readable _ _ _ _ _ _ E).
  - exfalso. unfold _read_data_chunk in E.
    apply Nat.ltb_lt in Hstart. rewrite Hstart in E.
    destruct (for_each _ _ _); discriminate E.
  - now rewrite (read_data_chunk_raises_IndexError _ _ _ _ _ _ E).
Qed.

(** X13.  A call of [_read_data_chunk] with pixels left to read returns
    exactly when every look-up of its loop is in range: the read index set
    of each read offset exists, the chunk has a row for each of the
    [h5_main.shape[0]] pixels, and each read index is a column of that row.
    In every other case it raises [IndexError], and it raises nothing
    else. *)
Theorem read_data_chunk_outcome :
  forall (T : Type) (M : MixOps T) (self : BERelaxFit T)
         (start_pos n_pixels : nat) (amp ph : list (list T)),
    start_pos < n_pixels ->
    ((exists out, _read_data_chunk self start_pos n_pixels amp ph = Ok (Some out))
     <-> readable self n_pixels amp ph) /\
    (_read_data_chunk self start_pos n_pixels amp ph = Raise IndexError
     <-> ~ readable self n_pixels amp ph) /\
    (forall cls, _read_data_chunk self start_pos n_pixels amp ph = Raise cls ->
                 cls = IndexError).
Proof.
  intros T M self start_pos n_pixels amp ph Hstart. split; [split|split; [split|]].
  - intros (out & E). exact (read_data_chunk_ok_readable _ _ _ _ _ _ E).
  - now apply read_data_chunk_readable_ok.
  - intros E Hr.
    destruct (read_data_chunk_readable_ok self start_pos n_pixels amp ph Hstart Hr)
      as (out & E').
    rewrite E in E'. discriminate E'.
  - now apply read_data_chunk_not_readable.
  - intros cls. apply read_data_chunk_raises_IndexError.
Qed.

(** X13 on the scenario's instance and a chunk of one pixel: the call
    returns, so every look-up is in range. *)
Lemma read_data_chunk_outcome_self20 :
  (exists out, _read_data_chunk self20 0 1 amp20 phase20 = Ok (Some out)) /\
  readable self20 1 amp20 phase20.
Proof.
  assert (E : exists out, _read_data_chunk self20 0 1 amp20 phase20 = Ok (Some out))
    by (eexists; vm_compute; reflexivity).
  split; [exact E|].
  exact (proj1 (proj1 (read_data_chunk_outcome R R_MixOps self20 0 1 amp20 phase20
                         Nat.lt_0_1)) E).
Defined.

(** X14.  The loop of [_read_data_chunk] runs over all [h5_main.shape[0]]
    pixels of the dataset and indexes the chunk with the pixel number: when
    the chunk that was read has fewer rows than the dataset has pixels, and
    there is a read offset, the call raises [IndexError]. *)
Theorem read_data_chunk_short_chunk :
  forall (T : Type) (M : MixOps T) (self : BERelaxFit T)
         (start_pos n_pixels : nat) (amp ph : list (list T)),
    start_pos < n_pixels ->
    0 < no_read_offset self ->
    length amp < n_pixels \/ length ph < n_pixels ->
    _read_data_chunk self start_pos n_pixels amp ph = Raise IndexError.
Proof.
  intros T M self start_pos n_pixels amp ph Hstart Hnro Hshort.
  apply read_data_chunk_not_readable; [exact Hstart|].
  intros Hr. destruct Hshort as [Hs|Hs].
  - destruct (Hr (length amp) 0 Hs Hnro) as (inds & row_a & row_p & _ & Ha & _).
    assert (nth_error amp (length amp) = None) by (apply nth_error_None; lia).
    congruence.
  - destruct (Hr (length ph) 0 Hs Hnro) as (inds & row_a & row_p & _ & _ & Hp & _).
    assert (nth_error ph (length ph) = None) by (apply nth_error_None; lia).
    congruence.
Qed.

(** X14 on the scenario's instance: a dataset of two pixels of which one
    was read into the chunk. *)
Lemma read_data_chunk_short_chunk_self20 :
  _read_data_chunk self20 0 2 amp20 phase20 = Raise IndexError.
Proof.
  apply (read_data_chunk_short_chunk R R_MixOps self20 0 2 amp20 phase20).
  - apply Nat.lt_0_2.
  - apply Nat.lt_0_2.
  - left. apply Nat.lt_1_2.
Defined.

(** X15.  From the constructor to the first read: for an instance that the
    constructor returned and a chunk of the declared shape, a call of
    [_read_data_chunk] returns when the index table has an even number of
    zeros and [starts_with] is one of the strings ['write'] and ['read'];
    in every other case (an odd number of zeros, which gives one read offset
    more than there are cycles, or any other [starts_with], such as the [1]
    and [0] of the docstring) it raises [IndexError]. *)
Theorem init_then_read_outcome :
  forall (T : Type) (M : MixOps T) (md : ScanMetadata) (method : string)
         (sens phase_off : T) (sw : pyval) (self : BERelaxFit T)
         (start_pos n_pixels : nat) (amp ph : list (list T)),
    __init__ md method sens phase_off sw = Ok self ->
    start_pos < n_pixels ->
    length amp = n_pixels -> length ph = n_pixels ->
    Forall (fun row => length row = num_steps md) amp ->
    Forall (fun row => length row = num_steps md) ph ->
    if Nat.even (spec_inds_zeros md)
       && (py_eq sw (PyStr "write") || py_eq sw (PyStr "read"))
    then exists out, _read_data_chunk self start_pos n_pixels amp ph = Ok (Some out)
    else _read_data_chunk self start_pos n_pixels amp ph = Raise IndexError.
Proof.
  intros T M md method sens phase_off sw self start_pos n_pixels amp ph
         Hinit Hstart Hla Hlp Hra Hrp.
  destruct (init_inv md method sens phase_off sw self Hinit) as (HC & HNb & ->).
  set (C := spec_inds_zeros md / 2) in *.
  set (b := num_steps md / C) in *.
  set (self := partitioned md method sens phase_off sw b).
  assert (Hlen : length (read_inds_split self)
                 = if py_eq sw (PyStr "write") || py_eq sw (PyStr "read")
                   then C else 0).
  { unfold self, partitioned, read_window. cbn [read_inds_split]. fold C.
    destruct (py_eq sw (PyStr "write")); [cbn [orb fst snd]; apply windows_length|].
    destruct (py_eq sw (PyStr "read")); [cbn [orb fst snd]; apply windows_length|].
    reflexivity. }
  assert (Hnro : no_read_offset self = spec_inds_zeros md - C) by reflexivity.
  assert (Hfail : length (read_inds_split self) < no_read_offset self ->
                  _read_data_chunk self start_pos n_pixels amp ph = Raise IndexError).
  { intros Hlt. apply read_data_chunk_not_readable; [exact Hstart|].
    intros Hr.
    destruct (Hr 0 (length (read_inds_split self))) as (inds & _ & _ & Hinds & _);
      [lia | exact Hlt |].
    assert (nth_error (read_inds_split self) (length (read_inds_split self)) = None)
      by (apply nth_error_None; lia).
    congruence. }
  destruct (Nat.even (spec_inds_zeros md)) eqn:Heven.
  - pose proof (half_of_even _ Heven) as Hhalf. fold C in Hhalf.
    destruct (py_eq sw (PyStr "write") || py_eq sw (PyStr "read")) eqn:Hsw;
      cbn [andb].
    + destruct (read_window sw b (VS_num_meas_per_write_step md)) as [[o l]|] eqn:Hwin.
      2:{ unfold read_window in Hwin.
          destruct (py_eq sw (PyStr "write")); [discriminate Hwin|].
          destruct (py_eq sw (PyStr "read")); discriminate. }
      assert (Hreads : read_inds_split self = windows b o l C).
      { unfold self, partitioned. cbn [read_inds_split]. fold C. now rewrite Hwin. }
      pose proof (read_window_fits _ _ _ _ _ Hwin) as Hfit.
      apply read_data_chunk_returns; try assumption.
      * rewrite Hnro, Hhalf, Hreads, windows_length. lia.
      * change (no_time_steps self) with (num_steps md).
        rewrite Hreads, HNb. now apply windows_bounded.
    + apply Hfail. rewrite Hlen, Hnro, Hhalf. lia.
  - cbn [andb]. apply Hfail. rewrite Hlen, Hnro.
    assert (Hodd : Nat.odd (spec_inds_zeros md) = true)
      by (rewrite <- Nat.negb_even, Heven; reflexivity).
    apply Nat.odd_spec in Hodd. destruct Hodd as (m & Hm).
    assert (C = m).
    { unfold C. rewrite Hm.
      replace (2 * m + 1) with (1 + m * 2) by lia.
      rewrite Nat.div_add by lia. reflexivity. }
    destruct (py_eq sw (PyStr "write") || py_eq sw (PyStr "read")); lia.
Qed.

(** X15 on the scan of the scenario with [starts_with = 1], as the docstring
    asks for: the constructor returns and the first read raises. *)
Lemma init_then_read_outcome_flag_1 :
  exists self,
    __init__ md20 "Exponential" 1%R 0%R (PyInt 1) = Ok self /\
    _read_data_chunk self 0 1 amp20 phase20 = Raise IndexError.
Proof.
  eexists. split; [reflexivity|].
  apply (init_then_read_outcome R R_MixOps md20 "Exponential" 1%R 0%R (PyInt 1)
           _ 0 1 amp20 phase20).
  - reflexivity.
  - apply Nat.lt_0_1.
  - reflexivity.
  - reflexivity.
  - repeat constructor.
  - repeat constructor.
Defined.

(** With five zeros in the index table the constructor builds two cycles
    and three read offsets, and the first read raises. *)
Example init_then_read_odd_zeros :
  exists self,
    __init__ md_odd "Exponential" 1%R 0%R (PyStr "write") = Ok self /\
    no_read_offset self = 3 /\ length (read_inds_split self) = 2 /\
    _read_data_chunk self 0 1 amp20 phase20 = Raise IndexError.
Proof. eexists. split; [reflexivity|]. repeat split. Qed.

(** ** More on the chunk commit *)

Lemma map_result_nth_error_r {A B : Type} (f : A -> result B)
    (xs : list A) (ys : list B) :
  map_result f xs = Ok ys ->
  forall k y, nth_error ys k = Some y ->
              exists x, nth_error xs k = Some x /\ f x = Ok y.
Proof.
  revert ys. induction xs as [|x xs IH]; simpl; intros ys E k y Hk.
  - injection E as <-. destruct k; discriminate Hk.
  - bind_inv E. bind_inv E. injection E as <-.
    destruct k as [|k]; simpl in *.
    + injection Hk as Hk. subst. eauto.
    + eauto.
Qed.

Lemma getitem_field_row_length {T : Type} (names : list string)
    (ds : list (list (compound T))) (name : string) (a : list (list T)) :
  h5.getitem_field names ds name = Ok a ->
  length a = length ds /\
  forall i r, nth_error a i = Some r ->
              exists row, nth_error ds i = Some row /\ length r = length row.
Proof.
  unfold h5.getitem_field. destruct (existsb _ names); [|discriminate].
  intros E. split; [exact (map_result_length _ _ _ E)|].
  intros i r Hi.
  destruct (map_result_nth_error_r _ _ _ E i r Hi) as (row & Hrow & Hr).
  exists row. split; [exact Hrow|]. exact (map_result_length _ _ _ Hr).
Qed.

Lemma broadcast_length {A : Type} (n : nat) (src out : list A) :
  h5.broadcast n src = Ok out -> length out = n.
Proof.
  unfold h5.broadcast. destruct (length src =? n) eqn:E.
  - intros [= <-]. now apply Nat.eqb_eq.
  - destruct src as [|c [|]]; try discriminate. intros [= <-]. apply repeat_length.
Qed.

Lemma broadcast_In {A : Type} (n : nat) (src out : list A) (x : A) :
  h5.broadcast n src = Ok out -> In x out -> In x src.
Proof.
  unfold h5.broadcast. destruct (length src =? n).
  - now intros [= <-].
  - destruct src as [|c [|]]; try discriminate. intros [= <-] Hx.
    apply repeat_spec in Hx. subst. now left.
Qed.

Lemma broadcast_same {A : Type} (n : nat) (src : list A) :
  length src = n -> h5.broadcast n src = Ok src.
Proof. intros <-. unfold h5.broadcast. now rewrite Nat.eqb_refl. Qed.

Lemma write_row_length {T : Type} (old new : list (compound T)) :
  length (h5.write_row old new) = Nat.min (length old) (length new).
Proof. unfold h5.write_row. now rewrite length_map, length_combine. Qed.

(** What an assignment to a row selection leaves in the dataset. *)
Lemma setitem_rows_inv {T : Type} (dset : list (list (compound T)))
    (ncols lo hi : nat) (src dset' : list (list (compound T))) :
  h5.setitem_rows dset ncols lo hi src = Ok dset' ->
  exists src',
    length src' = length (slice lo hi dset) /\
    Forall (fun r => length r = ncols) src' /\
    (forall r c, In r src' -> In c r -> exists r0, In r0 src /\ In c r0) /\
    dset' = mapi_from 0
              (fun i row => if (lo <=? i) && (i <? hi)
                            then h5.write_row row (nth (i - lo) src' [])
                            else row) dset.
Proof.
  unfold h5.setitem_rows. intros E.
  bind_inv E. rename a into rows1, Ha into Hb1.
  bind_inv E. rename a into src', Ha into Hb2.
  injection E as <-.
  exists src'. split; [|split; [|split; [|reflexivity]]].
  - rewrite (map_result_length _ _ _ Hb2). exact (broadcast_length _ _ _ Hb1).
  - eapply map_result_Forall; [|exact Hb2]. intros x y. apply broadcast_length.
  - intros r c Hr Hc. destruct (In_nth_error _ _ Hr) as (k & Hk).
    destruct (map_result_nth_error_r _ _ _ Hb2 k r Hk) as (r1 & Hr1 & Hbr).
    exists r1. split.
    + exact (broadcast_In _ _ _ _ Hb1 (nth_error_In _ _ Hr1)).
    + exact (broadcast_In _ _ _ _ Hbr Hc).
Qed.

Lemma setitem_rows_row_lengths {T : Type} (dset : list (list (compound T)))
    (ncols lo hi : nat) (src dset' : list (list (compound T))) :
  Forall (fun r => length r = ncols) dset ->
  h5.setitem_rows dset ncols lo hi src = Ok dset' ->
  Forall (fun r => length r = ncols) dset'.
Proof.
  intros Hd E.
  destruct (setitem_rows_inv _ _ _ _ _ _ E) as (src' & Hlen & Hcols & _ & ->).
  apply Forall_forall. intros r Hr. destruct (In_nth_error _ _ Hr) as (i & Hi).
  rewrite mapi_from_nth_error in Hi. simpl in Hi.
  destruct (nth_error dset i) as [row|] eqn:Hrow; [|discriminate Hi].
  simpl in Hi. injection Hi as <-.
  assert (Hrl : length row = ncols).
  { rewrite Forall_forall in Hd. apply Hd. eapply nth_error_In; eauto. }
  assert (Hi' : i < length dset) by (apply nth_error_Some; congruence).
  destruct ((lo <=? i) && (i <? hi)) eqn:Hin; [|exact Hrl].
  rewrite write_row_length.
  apply andb_true_iff in Hin. destruct Hin as (H1 & H2).
  apply Nat.leb_le in H1. apply Nat.ltb_lt in H2.
  assert (Hk : i - lo < length src') by (rewrite Hlen, slice_length; lia).
  assert (length (nth (i - lo) src' []) = ncols).
  { rewrite Forall_forall in Hcols. apply Hcols. now apply nth_In. }
  lia.
Qed.

(** X16.  What a chunk commit does to the process, whatever the model and
    the state: the number of rows of the store, its dtype and shape, the fit
    results and [_end_pos] are left as they were; when the commit completes,
    the [last_pixel] attribute and [_start_pos] are both [_end_pos]; when it
    raises, at whatever point, both are what they were before the call. *)
Theorem commit_cursor :
  forall (T : Type) (G : GtOp T) (U : UsidLib T) (method : string)
         (st : writer_state T),
    let r := _write_results_chunk method st in
    length (h5_results (fst r)) = length (h5_results st) /\
    h5_results_names (fst r) = h5_results_names st /\
    h5_results_ncols (fst r) = h5_results_ncols st /\
    _results (fst r) = _results st /\
    _end_pos (fst r) = _end_pos st /\
    match snd r with
    | Ok _ => last_pixel (fst r) = _end_pos st /\ _start_pos (fst r) = _end_pos st
    | Raise _ =>
        last_pixel (fst r) = last_pixel st /\ _start_pos (fst r) = _start_pos st
    end.
Proof.
  intros T G U method st. cbv zeta. unfold _write_results_chunk.
  destruct (write_field_names method) as [names|];
    [|simpl; repeat split; reflexivity].
  destruct (flat <- stack_real_to_compound (_results st) names ;;
            reshape_rows flat (length (h5_results st))) as [results|cls];
    [|simpl; repeat split; reflexivity].
  destruct (h5.setitem_rows (h5_results st) (h5_results_ncols st)
              (_start_pos st) (_end_pos st)
              (slice (_start_pos st) (_end_pos st) results))
    as [rows'|cls] eqn:Hw; [|simpl; repeat split; reflexivity].
  pose proof (setitem_rows_length _ _ _ _ _ _ Hw) as Hlen.
  destruct (if String.eqb method "Double_Exp" then canonicalise _ else Ok tt);
    simpl; repeat split; assumption || reflexivity.
Qed.

Lemma canonicalise_many_columns {T : Type} `{GtOp T} (st : writer_state T) (u : unit) :
  0 < length (h5_results st) ->
  Forall (fun r => 2 <= length r) (h5_results st) ->
  canonicalise st <> Ok u.
Proof.
  intros Hrows Hcols E. unfold canonicalise in E.
  apply bind_ok_inv in E. destruct E as (amp1_copy & _ & E).
  apply bind_ok_inv in E. destruct E as (amp2_copy & _ & E).
  apply bind_ok_inv in E. destruct E as (tau1_copy & _ & E).
  apply bind_ok_inv in E. destruct E as (tau2_copy & _ & E).
  apply bind_ok_inv in E. destruct E as (a & Ha & E).
  destruct (getitem_field_row_length _ _ _ _ Ha) as (Hla & _).
  destruct (length a) as [|n]; [lia|].
  cbn [seq for_each] in E.
  apply bind_ok_inv in E. destruct E as (u0 & E & _).
  unfold canon_body in E.
  apply bind_ok_inv in E. destruct E as (a1 & Ha1 & E).
  apply bind_ok_inv in E. destruct E as (r1 & Hr1 & E).
  apply bind_ok_inv in E. destruct E as (a2 & Ha2 & E).
  apply bind_ok_inv in E. destruct E as (r2 & Hr2 & E).
  apply bind_ok_inv in E. destruct E as (c & Htruth & _).
  unfold getitem in Hr1, Hr2.
  destruct (nth_error a1 0) as [r1'|] eqn:N1; [|discriminate Hr1].
  destruct (nth_error a2 0) as [r2'|] eqn:N2; [|discriminate Hr2].
  injection Hr1 as ->. injection Hr2 as ->.
  destruct (getitem_field_row_length _ _ _ _ Ha1) as (_ & L1).
  destruct (getitem_field_row_length _ _ _ _ Ha2) as (_ & L2).
  destruct (L1 0 r1 N1) as (row1 & Hrow1 & Hl1).
  destruct (L2 0 r2 N2) as (row2 & Hrow2 & Hl2).
  rewrite Forall_forall in Hcols.
  pose proof (Hcols row1 (nth_error_In _ _ Hrow1)).
  pose proof (Hcols row2 (nth_error_In _ _ Hrow2)).
  destruct r1 as [|x1 [|y1 r1]]; simpl in Hl1; try lia.
  destruct r2 as [|x2 [|y2 r2]]; simpl in Hl2; try lia.
  discriminate Htruth.
Qed.

(** X17.  A [Double_Exp] commit to a store of at least one pixel and two or
    more columns per pixel never completes: the comparison of line 223 is
    between two arrays of several elements, which has no truth value. *)
Theorem double_exp_commit_many_columns :
  forall (T : Type) (G : GtOp T) (U : UsidLib T) (st : writer_state T),
    0 < length (h5_results st) ->
    2 <= h5_results_ncols st ->
    Forall (fun r => length r = h5_results_ncols st) (h5_results st) ->
    exists cls, snd (_write_results_chunk "Double_Exp" st) = Raise cls.
Proof.
  intros T G U st Hrows Hcols Hshape. unfold _write_results_chunk.
  destruct (write_field_names "Double_Exp") as [names|]; [|simpl; eauto].
  destruct (flat <- stack_real_to_compound (_results st) names ;;
            reshape_rows flat (length (h5_results st))) as [results|cls];
    [|simpl; eauto].
  destruct (h5.setitem_rows (h5_results st) (h5_results_ncols st)
              (_start_pos st) (_end_pos st)
              (slice (_start_pos st) (_end_pos st) results))
    as [rows'|cls] eqn:Hw; [|simpl; eauto].
  rewrite String.eqb_refl.
  match goal with
  | |- context [canonicalise ?s] => destruct (canonicalise s) as [u|cls] eqn:Hcan
  end; [|simpl; eauto].
  exfalso. revert Hcan. apply canonicalise_many_columns; cbn [h5_results].
  - now rewrite (setitem_rows_length _ _ _ _ _ _ Hw).
  - pose proof (setitem_rows_row_lengths _ _ _ _ _ _ Hshape Hw) as Hl.
    eapply Forall_impl; [|exact Hl]. simpl. intros r ->. exact Hcols.
Qed.

(** X17 on the store of two pixels and two columns. *)
Lemma double_exp_commit_many_columns_store2x2 :
  exists cls, snd (_write_results_chunk "Double_Exp" store2x2) = Raise cls.
Proof.
  apply (double_exp_commit_many_columns Z _ _ store2x2).
  - apply Nat.lt_0_2.
  - apply le_n.
  - repeat constructor.
Defined.

(** *** What a commit stores *)

Lemma nth_error_slice {A : Type} (lo hi : nat) (l : list A) (k : nat) :
  nth_error (slice lo hi l) k
  = if k <? hi - lo then nth_error l (lo + k) else None.
Proof. unfold slice. now rewrite nth_error_firstn, nth_error_skipn. Qed.

Lemma slice_In {A : Type} (lo hi : nat) (l : list A) (x : A) :
  In x (slice lo hi l) -> In x l.
Proof.
  intros Hx. destruct (In_nth_error _ _ Hx) as (k & Hk).
  rewrite nth_error_slice in Hk.
  destruct (k <? hi - lo); [|discriminate Hk].
  exact (nth_error_In _ _ Hk).
Qed.

Lemma nth_slice {A : Type} (lo hi : nat) (l : list A) (k : nat) (d : A) :
  k < hi - lo -> nth k (slice lo hi l) d = nth (lo + k) l d.
Proof.
  intros Hk. unfold slice. rewrite nth_firstn, nth_skipn.
  apply Nat.ltb_lt in Hk. now rewrite Hk.
Qed.

Lemma reshape_rows_In {A : Type} (flat : list A) (nrows : nat)
    (rows : list (list A)) (r : list A) (x : A) :
  reshape_rows flat nrows = Ok rows -> In r rows -> In x r -> In x flat.
Proof.
  unfold reshape_rows. destruct (nrows =? 0); [discriminate|].
  destruct (negb _); [discriminate|]. intros [= <-] Hr Hx.
  apply in_map_iff in Hr. destruct Hr as (i & <- & _).
  exact (slice_In _ _ _ _ Hx).
Qed.

Lemma reshape_rows_exact {A : Type} (flat : list A) (nrows ncols : nat) :
  0 < nrows -> length flat = nrows * ncols ->
  reshape_rows flat nrows
  = Ok (map (fun i => slice (i * ncols) ((i + 1) * ncols) flat) (seq 0 nrows)).
Proof.
  intros Hn Hlen. unfold reshape_rows.
  destruct (nrows =? 0) eqn:E0; [apply Nat.eqb_eq in E0; lia|].
  rewrite Hlen, (Nat.mul_comm nrows ncols), Nat.Div0.mod_mul, Nat.div_mul by lia.
  reflexivity.
Qed.

Lemma field_not_in {T : Type} (name : string) (c : compound T) :
  ~ In name (map fst c) -> field name c = None.
Proof.
  induction c as [|[n v] c IH]; simpl; intros Hn; [reflexivity|].
  destruct (String.eqb n name) eqn:E.
  - apply String.eqb_eq in E. tauto.
  - apply IH. tauto.
Qed.

Lemma field_NoDup {T : Type} (c : compound T) (n : string) (v : T) :
  NoDup (map fst c) -> In (n, v) c -> field n c = Some v.
Proof.
  induction c as [|[n0 v0] c IH]; simpl; intros Hnd Hin; [contradiction|].
  apply NoDup_cons_iff in Hnd. destruct Hnd as (Hn0 & Hnd).
  destruct Hin as [Heq|Hin].
  - injection Heq as -> ->. now rewrite String.eqb_refl.
  - destruct (String.eqb n0 n) eqn:E.
    + apply String.eqb_eq in E. subst n0. exfalso. apply Hn0.
      change n with (fst (n, v)). now apply in_map.
    + now apply IH.
Qed.

(** A record converted onto one of the same member names, none of them
    repeated, is the record itself. *)
Lemma convert_same_names {T : Type} (src old : compound T) :
  map fst src = map fst old -> NoDup (map fst old) -> h5.convert src old = src.
Proof.
  intros Hnames Hnd. rewrite <- Hnames in Hnd.
  assert (Hgen : forall full s o,
             (forall n v, In (n, v) s -> field n full = Some v) ->
             map fst s = map fst o ->
             map (fun nv : string * T =>
                    (fst nv, match field (fst nv) full with
                             | Some v => v
                             | None => snd nv
                             end)) o = s).
  { intros full s. induction s as [|[n v] s IH]; intros [|[n' v'] o] Hf Hm;
      simpl in *; try discriminate; [reflexivity|].
    injection Hm as <- Hm. rewrite (Hf n v (or_introl eq_refl)).
    f_equal. apply IH; [|exact Hm]. intros; apply Hf; now right. }
  unfold h5.convert. apply Hgen; [|exact Hnames].
  intros n v. now apply field_NoDup.
Qed.

Lemma write_row_same_names {T : Type} (names : list string)
    (old new : list (compound T)) :
  NoDup names ->
  Forall (fun c => map fst c = names) old ->
  Forall (fun c => map fst c = names) new ->
  length old = length new ->
  h5.write_row old new = new.
Proof.
  intros Hnd. unfold h5.write_row. revert new.
  induction old as [|o old IH]; intros [|n new] Ho Hn Hlen;
    simpl in *; try discriminate; [reflexivity|].
  apply Forall_cons_iff in Ho. destruct Ho as (Ho1 & Ho2).
  apply Forall_cons_iff in Hn. destruct Hn as (Hn1 & Hn2).
  rewrite convert_same_names; [|congruence|now rewrite Ho1].
  f_equal. apply IH; auto.
Qed.

Lemma create_field_names_NoDup (method : string) (names : list string) :
  create_field_names method = Some names -> NoDup names.
Proof.
  unfold create_field_names. cbv zeta.
  destruct (String.eqb method "Logistic");
    [|destruct (String.eqb method "Str_Exp");
      [|destruct (String.eqb method "Double_Exp");
        [|destruct (String.eqb method "Exponential"); [|discriminate]]]];
    intros [= <-];
    repeat (constructor; [simpl; intuition discriminate|]); constructor.
Qed.

Lemma nth_map_seq {A : Type} (f : nat -> A) (n i : nat) (d : A) :
  i < n -> nth i (map f (seq 0 n)) d = f i.
Proof.
  intros Hi.
  rewrite (nth_indep _ d (f 0)) by (now rewrite length_map, length_seq).
  rewrite map_nth. now rewrite seq_nth.
Qed.

Lemma map_result_broadcast_same {A : Type} (n : nat) (rows : list (list A)) :
  Forall (fun r => length r = n) rows ->
  map_result (h5.broadcast n) rows = Ok rows.
Proof.
  induction 1 as [|r rows Hr Hrows IH]; simpl; [reflexivity|].
  now rewrite (broadcast_same _ _ Hr), IH.
Qed.

(** X18.  Commit and read back, for the models whose record is packed under
    the names of the store's dtype ([Exponential], [Str_Exp], [Logistic]):
    when the fit results give one record per pixel and column, packed by
    [stack_real_to_compound] under the names it was given, the commit
    completes, and each row of the store within the chunk's pixel range
    holds the records of that pixel, field for field. *)
Theorem commit_round_trip :
  forall (T : Type) (G : GtOp T) (U : UsidLib T) (method : string)
         (names : list string) (st : writer_state T) (flat : list (compound T)),
    create_field_names method = Some names ->
    write_field_names method = Some names ->
    stack_real_to_compound (_results st) names = Ok flat ->
    Forall (fun c => map fst c = names) flat ->
    Forall (Forall (fun c => map fst c = names)) (h5_results st) ->
    Forall (fun r => length r = h5_results_ncols st) (h5_results st) ->
    0 < length (h5_results st) ->
    length flat = length (h5_results st) * h5_results_ncols st ->
    snd (_write_results_chunk method st) = Ok tt /\
    forall i, _start_pos st <= i < _end_pos st -> i < length (h5_results st) ->
      nth_error (h5_results (fst (_write_results_chunk method st))) i
      = Some (slice (i * h5_results_ncols st) ((i + 1) * h5_results_ncols st) flat).
Proof.
  intros T G U method names st flat Hcreate Hwrite Hstack Hflat Hstore Hshape
         Hrows Hlen.
  set (ncols := h5_results_ncols st) in *.
  set (nrows := length (h5_results st)) in *.
  assert (Hm : String.eqb method "Double_Exp" = false).
  { destruct (String.eqb method "Double_Exp") eqn:E; [|reflexivity].
    apply String.eqb_eq in E. subst method.
    rewrite <- Hcreate in Hwrite. vm_compute in Hwrite. discriminate Hwrite. }
  pose proof (create_field_names_NoDup _ _ Hcreate) as Hnd.
  set (results := map (fun i => slice (i * ncols) ((i + 1) * ncols) flat)
                      (seq 0 nrows)).
  assert (Hres_len : length results = nrows)
    by (unfold results; now rewrite length_map, length_seq).
  assert (Hres_nth : forall i, i < nrows ->
            nth i results [] = slice (i * ncols) ((i + 1) * ncols) flat).
  { intros i Hi. unfold results. now rewrite nth_map_seq. }
  assert (Hres_cols : Forall (fun r => length r = ncols) results).
  { apply Forall_forall. intros r Hr. unfold results in Hr.
    apply in_map_iff in Hr. destruct Hr as (i & <- & Hi). apply in_seq in Hi.
    rewrite slice_length, Hlen.
    assert ((i + 1) * ncols <= nrows * ncols) by (apply Nat.mul_le_mono_r; lia).
    lia. }
  set (lo := _start_pos st) in *. set (hi := _end_pos st) in *.
  assert (Hset : h5.setitem_rows (h5_results st) ncols lo hi (slice lo hi results)
                 = Ok (mapi_from 0
                         (fun i row => if (lo <=? i) && (i <? hi)
                                       then h5.write_row row
                                              (nth (i - lo) (slice lo hi results) [])
                                       else row) (h5_results st))).
  { unfold h5.setitem_rows.
    rewrite broadcast_same by (rewrite !slice_length, Hres_len; reflexivity).
    cbn [bind].
    rewrite map_result_broadcast_same; [reflexivity|].
    apply Forall_forall. intros r Hr. apply slice_In in Hr.
    rewrite Forall_forall in Hres_cols. now apply Hres_cols. }
  unfold _write_results_chunk. rewrite Hwrite, Hstack. cbn [bind].
  fold nrows. rewrite (reshape_rows_exact flat nrows ncols Hrows Hlen).
  fold results. fold ncols lo hi. rewrite Hset, Hm.
  cbn [fst snd h5_results _end_pos]. split; [reflexivity|].
  intros i Hi Hlt.
  rewrite mapi_from_nth_error. cbn [Nat.add].
  destruct (nth_error (h5_results st) i) as [row|] eqn:Hrow;
    [|apply nth_error_None in Hrow; fold nrows in Hrow; lia].
  cbn [option_map]. f_equal.
  replace ((lo <=? i) && (i <? hi)) with true.
  2:{ symmetry. apply andb_true_iff. split; [apply Nat.leb_le | apply Nat.ltb_lt]; lia. }
  rewrite nth_slice by lia.
  replace (lo + (i - lo)) with i by lia.
  rewrite (Hres_nth i Hlt).
  apply (write_row_same_names names); [exact Hnd | | |].
  - rewrite Forall_forall in Hstore. apply Hstore. exact (nth_error_In _ _ Hrow).
  - apply Forall_forall. intros c Hc. apply slice_In in Hc.
    rewrite Forall_forall in Hflat. now apply Hflat.
  - rewrite Forall_forall in Hshape, Hres_cols.
    rewrite (Hshape row (nth_error_In _ _ Hrow)).
    symmetry. rewrite <- (Hres_nth i Hlt). apply Hres_cols. apply nth_In.
    now rewrite Hres_len.
Qed.

(** X18 on the [Exponential] store of two pixels and two columns: the
    commit of the chunk [[0, 1)] leaves the two fits of pixel 0 in row 0. *)
Lemma commit_round_trip_store_exp :
  snd (_write_results_chunk "Exponential" store_exp) = Ok tt /\
  nth_error (h5_results (fst (_write_results_chunk "Exponential" store_exp))) 0
  = Some [[("Amplitude [pm]", 5%Z); ("Time_Constant [s]", 1%Z); ("Offset [pm]", 0%Z)];
          [("Amplitude [pm]", 6%Z); ("Time_Constant [s]", 2%Z); ("Offset [pm]", 0%Z)]].
Proof.
  destruct (commit_round_trip Z _ _ "Exponential" exp_names store_exp
              [[("Amplitude [pm]", 5%Z); ("Time_Constant [s]", 1%Z); ("Offset [pm]", 0%Z)];
               [("Amplitude [pm]", 6%Z); ("Time_Constant [s]", 2%Z); ("Offset [pm]", 0%Z)];
               [("Amplitude [pm]", 7%Z); ("Time_Constant [s]", 3%Z); ("Offset [pm]", 0%Z)];
               [("Amplitude [pm]", 8%Z); ("Time_Constant [s]", 4%Z); ("Offset [pm]", 0%Z)]])
    as (Hok & Hrow).
  - reflexivity.
  - reflexivity.
  - reflexivity.
  - repeat constructor.
  - repeat constructor.
  - repeat constructor.
  - apply Nat.lt_0_2.
  - reflexivity.
  - split; [exact Hok|].
    exact (Hrow 0 (conj (le_n 0) Nat.lt_0_1) Nat.lt_0_2).
Defined.

Lemma nth_error_combine {A B : Type} (l : list A) (l' : list B) (k : nat)
    (x : A) (y : B) :
  nth_error (combine l l') k = Some (x, y) ->
  nth_error l k = Some x /\ nth_error l' k = Some y.
Proof.
  revert l' k. induction l as [|a l IH]; intros [|b l'] [|k] E;
    simpl in *; try discriminate.
  - injection E as -> ->. auto.
  - now apply IH.
Qed.

(** X19.  A [Double_Exp] commit never changes the field
    ['Time_Constant [s]'] of any record of the store: the fit results are
    packed under ['Time_Constant 1 [s]'], which the store's dtype does not
    have, and the swap of lines 224-227 is not written to the dataset.  This
    holds for every state and pixel range, and whether the commit completes
    or raises, provided [stack_real_to_compound] packs under the names it is
    given. *)
Theorem double_exp_time_constant_never_stored :
  forall (T : Type) (G : GtOp T) (U : UsidLib T) (names : list string)
         (st : writer_state T) (i : nat) (row' : list (compound T)),
    write_field_names "Double_Exp" = Some names ->
    (forall flat, stack_real_to_compound (_results st) names = Ok flat ->
                  Forall (fun c => map fst c = names) flat) ->
    nth_error (h5_results (fst (_write_results_chunk "Double_Exp" st))) i
      = Some row' ->
    exists row,
      nth_error (h5_results st) i = Some row /\
      forall j c', nth_error row' j = Some c' ->
        exists c, nth_error row j = Some c /\
                  field "Time_Constant [s]" c' = field "Time_Constant [s]" c.
Proof.
  intros T G U names st i row' Hnames Hpack Hrow'.
  assert (Hsame : nth_error (h5_results st) i = Some row' ->
            exists row,
              nth_error (h5_results st) i = Some row /\
              forall j c', nth_error row' j = Some c' ->
                exists c, nth_error row j = Some c /\
                          field "Time_Constant [s]" c' = field "Time_Constant [s]" c).
  { intros Hr. exists row'. split; [exact Hr|]. intros j c' Hj. eauto. }
  unfold _write_results_chunk in Hrow'. rewrite Hnames in Hrow'.
  destruct (flat <- stack_real_to_compound (_results st) names ;;
            reshape_rows flat (length (h5_results st))) as [results|cls] eqn:Hs;
    [|exact (Hsame Hrow')].
  apply bind_ok_inv in Hs. destruct Hs as (flat & Hstack & Hreshape).
  specialize (Hpack flat Hstack).
  destruct (h5.setitem_rows (h5_results st) (h5_results_ncols st)
              (_start_pos st) (_end_pos st)
              (slice (_start_pos st) (_end_pos st) results))
    as [rows'|cls] eqn:Hw; [|exact (Hsame Hrow')].
  assert (Hrows' : nth_error rows' i = Some row').
  { destruct (if String.eqb "Double_Exp" "Double_Exp" then canonicalise _ else Ok tt)
      in Hrow'; exact Hrow'. }
  clear Hrow'.
  destruct (setitem_rows_inv _ _ _ _ _ _ Hw) as (src' & _ & _ & Hsrc & ->).
  rewrite mapi_from_nth_error in Hrows'. cbn [Nat.add] in Hrows'.
  destruct (nth_error (h5_results st) i) as [row|] eqn:Hrow; [|discriminate Hrows'].
  cbn [option_map] in Hrows'. injection Hrows' as <-.
  exists row. split; [reflexivity|]. intros j c' Hj.
  destruct ((_start_pos st <=? i) && (i <? _end_pos st)); [|eauto].
  unfold h5.write_row in Hj. rewrite nth_error_map in Hj.
  destruct (nth_error (combine row (nth (i - _start_pos st) src' [])) j)
    as [[c s]|] eqn:Hcs; [|discriminate Hj].
  cbn [option_map fst snd] in Hj. injection Hj as <-.
  apply nth_error_combine in Hcs. destruct Hcs as (Hc & Hsj).
  exists c. split; [exact Hc|].
  assert (Hin_flat : In s flat).
  { destruct (nth_in_or_default (i - _start_pos st) src' []) as [Hin|Hnil].
    - destruct (Hsrc _ s Hin (nth_error_In _ _ Hsj)) as (r0 & Hr0 & Hs0).
      apply slice_In in Hr0. exact (reshape_rows_In _ _ _ _ _ Hreshape Hr0 Hs0).
    - rewrite Hnil in Hsj. destruct j; discriminate Hsj. }
  rewrite Forall_forall in Hpack. specialize (Hpack s Hin_flat).
  rewrite field_convert.
  rewrite (field_not_in "Time_Constant [s]" s).
  - destruct (field "Time_Constant [s]" c); reflexivity.
  - rewrite Hpack. vm_compute in Hnames. injection Hnames as <-.
    simpl. intuition discriminate.
Qed.

(** X19 on the store of two pixels: after the commit of the fit with time
    constants 1 and 2, the first time constant of pixel 0 is still the 0 that
    the store held. *)
Lemma double_exp_time_constant_never_stored_store2 :
  exists row' c',
    nth_error (h5_results (fst (_write_results_chunk "Double_Exp" store2))) 0
      = Some row' /\
    nth_error row' 0 = Some c' /\
    field "Time_Constant [s]" c' = Some 0%Z /\
    field "Time_Constant 2 [s]" c' = Some 2%Z.
Proof.
  assert (Hrow : exists row',
             nth_error (h5_results (fst (_write_results_chunk "Double_Exp" store2))) 0
             = Some row') by (eexists; vm_compute; reflexivity).
  destruct Hrow as (row' & Hrow).
  assert (Hc : exists c', nth_error row' 0 = Some c').
  { vm_compute in Hrow. injection Hrow as <-. eexists. reflexivity. }
  destruct Hc as (c' & Hc).
  destruct (double_exp_time_constant_never_stored Z _ _
              ["Amplitude [pm]"; "Time_Constant 1 [s]";
               "Amplitude 2 [pm]"; "Time_Constant 2 [s]"; "Offset [pm]"]
              store2 0 row' eq_refl) as (row & Hr & Hfields).
  - intros flat E. vm_compute in E. injection E as <-. repeat constructor.
  - exact Hrow.
  - destruct (Hfields 0 c' Hc) as (c & Hc0 & Hf).
    cbn in Hr. injection Hr as <-. cbn in Hc0. injection Hc0 as <-.
    exists row', c'. split; [exact Hrow|]. split; [exact Hc|].
    split; [exact Hf|].
    vm_compute in Hrow. injection Hrow as <-. cbn in Hc. injection Hc as <-.
    reflexivity.
Defined.

(** ** [test] and the chunk pipeline *)

Lemma for_each_collect {I A : Type} (g : I -> result A) (xs : list I) (s0 : list A) :
  for_each xs (fun j s => y <- g j ;; Ok (s ++ [y])) s0
  = (l <- map_result g xs ;; Ok (s0 ++ l)).
Proof.
  revert s0. induction xs as [|x xs IH]; intros s0; simpl.
  - now rewrite app_nil_r.
  - destruct (g x) as [y|cls]; simpl; [|reflexivity].
    rewrite IH. destruct (map_result g xs) as [l|cls]; simpl; [|reflexivity].
    now rewrite <- app_assoc.
Qed.

Lemma map_result_map {A B : Type} (f : A -> result B) (g : A -> B) (xs : list A) :
  (forall x, In x xs -> f x = Ok (g x)) -> map_result f xs = Ok (map g xs).
Proof.
  induction xs as [|x xs IH]; simpl; intros Hf; [reflexivity|].
  rewrite (Hf x (or_introl eq_refl)). simpl.
  rewrite IH by (intros; apply Hf; now right). reflexivity.
Qed.

Lemma getitem_int_nonneg {A : Type} (l : list A) (i : nat) :
  getitem_int l (Z.of_nat i) = getitem l i.
Proof.
  unfold getitem_int.
  destruct (Z.ltb_spec (Z.of_nat i) 0) as [Hneg|_]; [lia|].
  now rewrite Nat2Z.id.
Qed.

(** X20.  [test] against the chunk pipeline.  When the sensitivity and the
    phase offset are neutral (multiplying by the one and adding the other
    change nothing), [test] on a pixel hands to [_map_function] exactly the
    rows of that pixel in the signal that [_read_data_chunk] builds, one row
    per read offset, and returns what [_map_function] returns on them.
    [test] itself applies neither the sensitivity nor the phase offset. *)
Theorem test_agrees_with_chunk :
  forall (T : Type) (M : MixOps T) (F : FitLib T) (self : BERelaxFit T)
         (x : list T) (start_pos n_pixels : nat) (amp ph : list (list T))
         (out : chunk_result T) (pixel : nat),
    (forall v, tmul v (sensitivity self) = v) ->
    (forall v, tadd v (phase_offset self) = v) ->
    length amp = n_pixels -> length ph = n_pixels ->
    _read_data_chunk self start_pos n_pixels amp ph = Ok (Some out) ->
    pixel < n_pixels ->
    test self x amp ph (Z.of_nat pixel)
    = snd (_map_function (fit_method self) x
             (slice (pixel * no_read_offset self)
                    ((pixel + 1) * no_read_offset self) (data out))).
Proof.
  intros T M F self x start_pos n_pixels amp ph out pixel Hmul Hadd Hla Hlp
         Hrun Hpixel.
  set (nro := no_read_offset self).
  destruct (read_data_chunk_spec self start_pos n_pixels amp ph out Hrun)
    as (lsA & lsP & HlsA & HlsP & _ & _ & Hdata).
  assert (Hlen : length (data out) = n_pixels * nro).
  { rewrite Hdata, mix_rows_length.
    rewrite (gathered_length _ _ _ _ _ HlsA), (gathered_length _ _ _ _ _ HlsP).
    apply Nat.min_id. }
  destruct (nth_error amp pixel) as [row_a|] eqn:Hrow_a;
    [|apply nth_error_None in Hrow_a; lia].
  destruct (nth_error ph pixel) as [row_p|] eqn:Hrow_p;
    [|apply nth_error_None in Hrow_p; lia].
  unfold test. rewrite !getitem_int_nonneg. unfold getitem at 1 2.
  rewrite Hrow_a, Hrow_p. cbn [bind]. rewrite for_each_collect. fold nro.
  set (g := fun j => nth (pixel * nro + j) (data out) []).
  assert (Hin : (pixel + 1) * nro <= n_pixels * nro)
    by (apply Nat.mul_le_mono_r; lia).
  assert (Hslice : slice (pixel * nro) ((pixel + 1) * nro) (data out)
                   = map g (seq 0 nro)).
  { apply nth_error_ext. intros k. rewrite nth_error_slice, nth_error_map.
    destruct (Nat.ltb_spec k ((pixel + 1) * nro - pixel * nro)) as [Hk|Hk].
    - rewrite nth_error_seq.
      destruct (Nat.ltb_spec k nro) as [_|Hk']; [|lia].
      cbn [option_map Nat.add]. unfold g. apply nth_error_nth'. lia.
    - rewrite nth_error_seq.
      destruct (Nat.ltb_spec k nro) as [Hk'|_]; [lia | reflexivity]. }
  rewrite (map_result_map _ g).
  - cbn [bind app]. now rewrite Hslice.
  - intros j Hj. apply in_seq in Hj.
    assert (Hj' : j < nro) by lia.
    destruct (gathered_nth_error _ _ _ _ _ pixel j HlsA Hpixel Hj') as (a & Ga & Na).
    destruct (gathered_nth_error _ _ _ _ _ pixel j HlsP Hpixel Hj') as (p & Gp & Np).
    pose proof (mix_rows_nth_error (sensitivity self) (phase_offset self)
                  _ _ _ a p Na Np) as Hmix.
    rewrite <- Hdata in Hmix. fold nro in Hmix.
    unfold g. rewrite (nth_error_nth _ _ _ Hmix).
    unfold gather, getitem in Ga, Gp. rewrite Hrow_a in Ga. rewrite Hrow_p in Gp.
    unfold test_spectrum, getitem.
    destruct (nth_error (read_inds_split self) j) as [inds|]; [|discriminate Ga].
    cbn [bind] in Ga, Gp |- *. rewrite Ga, Gp. cbn [bind].
    f_equal. unfold mix. apply map_ext. intros [va vp]. cbn [fst snd].
    now rewrite Hmul, Hadd.
Qed.

(** X20 on the scenario's instance, whose sensitivity is 1 and whose phase
    offset is 0. *)
Lemma test_agrees_with_chunk_self20 :
  exists out,
    _read_data_chunk self20 0 1 amp20 phase20 = Ok (Some out) /\
    test self20 [] amp20 phase20 0
    = snd (_map_function "Exponential" [] (slice 0 2 (data out))).
Proof.
  assert (E : exists out, _read_data_chunk self20 0 1 amp20 phase20 = Ok (Some out))
    by (eexists; vm_compute; reflexivity).
  destruct E as (out & E). exists out. split; [exact E|].
  apply (test_agrees_with_chunk R R_MixOps R_FitLib self20 [] 0 1 amp20 phase20
           out 0).
  - exact Rmult_1_r.
  - exact Rplus_0_r.
  - reflexivity.
  - reflexivity.
  - exact E.
  - apply Nat.lt_0_1.
Defined.

(** [test] with a negative pixel index counts from the last pixel, and with
    an index past the last pixel raises. *)
Example test_pixel_index :
  test self20 [] amp20 phase20 (-1) = test self20 [] amp20 phase20 0 /\
  test self20 [] amp20 phase20 1 = Raise IndexError /\
  test self20 [] amp20 phase20 (-2) = Raise IndexError.
Proof. repeat split. Qed.

(** ** From the constructor to the signal *)

Lemma take_inds_seq {A : Type} (row : list A) (s l : nat) (a : list A) :
  take_inds row (seq s l) = Ok a -> a = slice s (s + l) row.
Proof.
  intros E. destruct (take_inds_nth_error _ _ _ E) as (Hlen & Hnth).
  rewrite length_seq in Hlen.
  apply nth_error_ext. intros k. rewrite nth_error_slice.
  replace (s + l - s) with l by lia.
  destruct (Nat.ltb_spec k l) as [Hk|Hk].
  - destruct (Hnth k (s + k)) as (v & Hv & Ha).
    + rewrite nth_error_seq. apply Nat.ltb_lt in Hk. now rewrite Hk.
    + congruence.
  - apply nth_error_None. lia.
Qed.

(** X21.  Which steps the signal of a cycle is made of.  For an instance
    that the constructor returned for an index table with an even number of
    zeros and write steps that fit in a cycle of [b] steps, a call of
    [_read_data_chunk] that returned gives, for pixel [i] and cycle [j], the
    mixed samples of one contiguous run of steps of that pixel: with
    [starts_with = 'write'] the steps of cycle [j] after its [w] write
    steps, [[j*b + w, (j+1)*b)]; with [starts_with = 'read'] and [w > 0] the
    steps of cycle [j] before its write steps, [[j*b, (j+1)*b - w)]. *)
Theorem read_signal_steps :
  forall (T : Type) (M : MixOps T) (md : ScanMetadata) (method : string)
         (sens phase_off : T) (sw : pyval) (self : BERelaxFit T)
         (start_pos n_pixels : nat) (amp ph : list (list T))
         (out : chunk_result T) (i j : nat),
    let C := spec_inds_zeros md / 2 in
    let b := num_steps md / C in
    let w := VS_num_meas_per_write_step md in
    __init__ md method sens phase_off sw = Ok self ->
    Nat.even (spec_inds_zeros md) = true ->
    w <= b ->
    _read_data_chunk self start_pos n_pixels amp ph = Ok (Some out) ->
    i < n_pixels -> j < C ->
    exists row_a row_p,
      nth_error amp i = Some row_a /\ nth_error ph i = Some row_p /\
      (sw = PyStr "write" ->
       nth_error (data out) (i * C + j)
       = Some (mix sens phase_off (slice (j * b + w) ((j + 1) * b) row_a)
                                  (slice (j * b + w) ((j + 1) * b) row_p))) /\
      (sw = PyStr "read" -> 0 < w ->
       nth_error (data out) (i * C + j)
       = Some (mix sens phase_off (slice (j * b) ((j + 1) * b - w) row_a)
                                  (slice (j * b) ((j + 1) * b - w) row_p))).
Proof.
  intros T M md method sens phase_off sw self start_pos n_pixels amp ph out i j
         C b w Hinit Heven Hw Hrun Hi Hj.
  destruct (init_inv md method sens phase_off sw self Hinit) as (HC & HNb & ->).
  fold C in HC, HNb. fold b in HNb.
  set (self := partitioned md method sens phase_off sw b) in *.
  assert (Hnro : no_read_offset self = C) by (apply half_of_even; exact Heven).
  destruct (read_data_chunk_spec self start_pos n_pixels amp ph out Hrun)
    as (lsA & lsP & HlsA & HlsP & _ & _ & Hdata).
  rewrite Hnro in HlsA, HlsP.
  destruct (gathered_nth_error _ _ _ _ _ i j HlsA Hi Hj) as (a & Ga & Na).
  destruct (gathered_nth_error _ _ _ _ _ i j HlsP Hi Hj) as (p & Gp & Np).
  destruct (gather_inv _ _ _ _ _ Ga) as (inds & row_a & Hinds & Hrow_a & Ta).
  destruct (gather_inv _ _ _ _ _ Gp) as (inds' & row_p & Hinds' & Hrow_p & Tp).
  rewrite Hinds in Hinds'. injection Hinds' as <-.
  pose proof (mix_rows_nth_error (sensitivity self) (phase_offset self)
                _ _ _ a p Na Np) as Hmix.
  rewrite <- Hdata in Hmix.
  change (sensitivity self) with sens in Hmix.
  change (phase_offset self) with phase_off in Hmix.
  exists row_a, row_p. split; [exact Hrow_a|]. split; [exact Hrow_p|].
  assert (Hwin : forall o l, read_window sw b w = Some (o, l) ->
                 a = slice (j * b + o) (j * b + o + l) row_a /\
                 p = slice (j * b + o) (j * b + o + l) row_p).
  { intros o l Hol.
    assert (Hreads : read_inds_split self = windows b o l C).
    { unfold self, partitioned. cbn [read_inds_split]. fold C w. now rewrite Hol. }
    rewrite Hreads in Hinds.
    apply (nth_error_nth _ _ []) in Hinds. rewrite nth_windows in Hinds by exact Hj.
    subst inds. split; now apply take_inds_seq. }
  split.
  - intros ->. destruct (Hwin (Nat.min w b) (b - Nat.min w b) eq_refl) as (-> & ->).
    rewrite Hmix. rewrite Nat.min_l by exact Hw.
    replace (j * b + w + (b - w)) with ((j + 1) * b) by lia. reflexivity.
  - intros -> Hpos.
    assert (Hol : read_window (PyStr "read") b w = Some (0, b - w)).
    { unfold read_window. cbn [py_eq].
      destruct (Nat.eqb_spec w 0) as [H0|_]; [lia | reflexivity]. }
    destruct (Hwin 0 (b - w) Hol) as (-> & ->).
    rewrite Hmix. rewrite Nat.add_0_r.
    replace (j * b + (b - w)) with ((j + 1) * b - w) by lia. reflexivity.
Qed.

(** X21 on the scenario's scan: the signal of the second cycle of pixel 0
    is made of steps 12 to 19. *)
Lemma read_signal_steps_md20 :
  exists out,
    _read_data_chunk self20 0 1 amp20 phase20 = Ok (Some out) /\
    nth_error (data out) 1
    = Some (mix 1%R 0%R (slice 12 20 (repeat 2%R 20)) (slice 12 20 (repeat 0%R 20))).
Proof.
  assert (E : exists out, _read_data_chunk self20 0 1 amp20 phase20 = Ok (Some out))
    by (eexists; vm_compute; reflexivity).
  destruct E as (out & E). exists out. split; [exact E|].
  destruct (read_signal_steps R R_MixOps md20 "Exponential" 1%R 0%R (PyStr "write")
              self20 0 1 amp20 phase20 out 0 1)
    as (row_a & row_p & Ha & Hp & Hwrite & _).
  - reflexivity.
  - reflexivity.
  - cbn. lia.
  - exact E.
  - apply Nat.lt_0_1.
  - cbn. lia.
  - cbn in Ha, Hp. injection Ha as <-. injection Hp as <-.
    exact (Hwrite eq_refl).
Defined.
